(** * The PCM streaming client of atk_s3_audio_stream (main/net_stream.cc)

    A shallow embedding of the framed packet protocol and of the two
    streaming tasks [mic_uplink_task] and [spk_downlink_task], with the
    network stack, the FreeRTOS delay and the audio codec as an explicit
    environment. *)

From Stdlib Require Import String Ascii ZArith List Bool Lia.
Import ListNotations.
Open Scope Z_scope.

(** ** Machine integers

    The target is a 32-bit core: [size_t] is 32 bits wide, [uint16_t] and
    [uint8_t] wrap modulo 2^16 and 2^8. *)

Definition u8 (x : Z) : Z := x mod 2 ^ 8.
Definition u16 (x : Z) : Z := x mod 2 ^ 16.
Definition size_t (x : Z) : Z := x mod 2 ^ 32.

(** [int16_t] seen through its two's complement bit pattern. *)
Definition s16 (x : Z) : Z := if x <? 2 ^ 15 then x else x - 2 ^ 16.

(** ** Wire format

    [struct __attribute__((packed)) PcmHeader]: the fields lie at offsets
    0, 4 and 5 and the struct is 7 bytes long.  The tasks send and receive
    the struct's memory image, so the multi-byte fields travel in the
    byte order of the core; the embedding keeps that order a parameter. *)

Inductive byte_order : Type := LittleEndian | BigEndian.

Record PcmHeader : Type := mkPcmHeader {
  magic : Z;   (* uint32_t *)
  type  : Z;   (* uint8_t  *)
  len   : Z    (* uint16_t *)
}.

Definition PCM_MAGIC : Z := 0x304D4350.

Definition sizeof_PcmHeader : nat := 7.
Definition sizeof_int16 : Z := 2.

Fixpoint le_bytes (n : nat) (x : Z) : list Z :=
  match n with
  | O => []
  | S k => x mod 256 :: le_bytes k (x / 256)
  end.

Fixpoint le_value (bs : list Z) : Z :=
  match bs with
  | [] => 0
  | b :: rest => b + 256 * le_value rest
  end.

Definition to_bytes (bo : byte_order) (n : nat) (x : Z) : list Z :=
  match bo with
  | LittleEndian => le_bytes n x
  | BigEndian => rev (le_bytes n x)
  end.

Definition of_bytes (bo : byte_order) (bs : list Z) : Z :=
  match bo with
  | LittleEndian => le_value bs
  | BigEndian => le_value (rev bs)
  end.

(** The memory image of a header: the bytes found at [&hdr]. *)
Definition header_bytes (bo : byte_order) (h : PcmHeader) : list Z :=
  to_bytes bo 4 (magic h) ++ [type h] ++ to_bytes bo 2 (len h).

(** The header read back from a 7-byte memory image: what [hdr.magic],
    [hdr.type] and [hdr.len] evaluate to once [recv_all] has filled
    [&hdr]. *)
Definition header_of_bytes (bo : byte_order) (bs : list Z) : PcmHeader :=
  {| magic := of_bytes bo (firstn 4 bs);
     type  := nth 4 bs 0;
     len   := of_bytes bo (firstn 2 (skipn 5 bs)) |}.

(** [PcmHeader hdr{ PCM_MAGIC, dir, (uint16_t)(frame.size() * sizeof(int16_t)) }]
    (line 97, where [dir] is [0x01]); [frame] is the vector of samples. *)
Definition frame_header (dir : Z) (frame : list Z) : PcmHeader :=
  {| magic := PCM_MAGIC;
     type  := u8 dir;
     len   := u16 (size_t (Z.of_nat (length frame) * sizeof_int16)) |}.

(** Number of payload bytes of a frame: [frame.size() * sizeof(int16_t)]. *)
Definition payload_size (frame : list Z) : Z :=
  Z.of_nat (length frame) * sizeof_int16.

(** The memory image of a sample vector: the bytes at [frame.data()]. *)
Definition frame_bytes (bo : byte_order) (frame : list Z) : list Z :=
  flat_map (fun s => to_bytes bo 2 (u16 s)) frame.

(** The samples held by a buffer of [int16_t] whose memory image is [bs]. *)
Fixpoint samples_of_bytes (bo : byte_order) (bs : list Z) : list Z :=
  match bs with
  | b0 :: b1 :: rest => s16 (of_bytes bo [b0; b1]) :: samples_of_bytes bo rest
  | _ => []
  end.

(** The test of line 125: the packet is discarded when it holds. *)
Definition invalid_packet (hdr : PcmHeader) : bool :=
  negb (magic hdr =? PCM_MAGIC) || negb (type hdr =? 0x02) || (len hdr =? 0).

(** The direction tokens of lines 89 and 118, without the final NUL
    ([sizeof(hello)-1] bytes are sent). *)
Definition bytes_of_string (s : string) : list Z :=
  map (fun c => Z.of_N (N_of_ascii c)) (list_ascii_of_string s).

Definition hello_up : list Z := bytes_of_string "HELLO-UP".
Definition hello_down : list Z := bytes_of_string "HELLO-DOWN".

(** ** The environment

    Everything the tasks call but do not define: the lwIP socket calls,
    the FreeRTOS delay and the audio codec.  The answers of the network
    and of the microphone are given by oracles indexed by the number of
    calls made so far, so that a run of a task is a function of the
    environment. *)

Record NetConfig : Type := mkNetConfig {
  host : string;
  port : Z   (* uint16_t *)
}.

Record Env : Type := mkEnv {
  (* getaddrinfo at the k-th connect_to: its return value, and whether
     the result list is non-null *)
  getaddrinfo_ans : nat -> NetConfig -> Z * bool;
  (* ::socket at the k-th connect_to *)
  socket_ans : nat -> Z;
  (* ::connect at the k-th connect_to *)
  connect_ans : nat -> Z;
  (* ::send, k-th call: a value <= 0 is returned as it is, a positive one
     is the number of bytes the stack is ready to take *)
  send_ans : nat -> Z;
  (* ::recv, k-th call: None is an error (-1), Some bytes are the bytes
     that have arrived; none arrived means the peer has closed (0) *)
  recv_ans : nat -> option (list Z);
  (* what the microphone holds at the k-th InputData: None when no data
     is ready *)
  input_ans : nat -> option (list Z)
}.

(** What a task does to the outside, in the order it does it. *)
Inductive Event : Type :=
| EvDial (ret : Z)                    (* connect_to logged and returned ret *)
| EvDelay (ms : Z)                    (* vTaskDelay(pdMS_TO_TICKS(ms)) *)
| EvClose (sock : Z)                  (* ::close(sock) *)
| EvSend (sock : Z) (bytes : list Z)  (* ::send took these bytes *)
| EvPoll (ok : bool)                  (* InputData returned ok *)
| EvInvalid (hdr : PcmHeader)         (* the warning of line 126 *)
| EvOverrun (n : nat).                (* n bytes stored past the end of buf *)

(** Modelled from the spec: class AudioCodec (audio_codec.h) is not among
    the sources.  Section 6 of the specification gives its interface: the
    input sample rate and channel count, the enable flags with their
    setters, a producer that fills the buffer it is given or reports that
    no data is ready, and a consumer of output blocks. *)
Record Codec : Type := mkCodec {
  input_sample_rate : Z;
  input_channels : Z;
  input_enabled : bool;
  output_enabled : bool;
  played : list (list Z)
}.

(** Modelled from the spec: AudioCodec::EnableInput, an idempotent enable. *)
Definition EnableInput (on : bool) (c : Codec) : Codec :=
  mkCodec (input_sample_rate c) (input_channels c) on (output_enabled c) (played c).

(** Modelled from the spec: AudioCodec::EnableOutput, an idempotent enable. *)
Definition EnableOutput (on : bool) (c : Codec) : Codec :=
  mkCodec (input_sample_rate c) (input_channels c) (input_enabled c) on (played c).

(** Modelled from the spec: AudioCodec::OutputData, which consumes the
    block it is handed. *)
Definition OutputData (buf : list Z) (c : Codec) : Codec :=
  mkCodec (input_sample_rate c) (input_channels c) (input_enabled c)
          (output_enabled c) (played c ++ [buf]).

Record World : Type := mkWorld {
  n_dial : nat;    (* calls of connect_to so far *)
  n_send : nat;    (* calls of ::send so far *)
  n_recv : nat;    (* calls of ::recv so far *)
  n_input : nat;   (* calls of InputData so far *)
  codec : Codec;
  log : list Event
}.

Definition emit (e : Event) (w : World) : World :=
  mkWorld (n_dial w) (n_send w) (n_recv w) (n_input w) (codec w) (log w ++ [e]).
Definition next_dial (w : World) : World :=
  mkWorld (S (n_dial w)) (n_send w) (n_recv w) (n_input w) (codec w) (log w).
Definition next_send (w : World) : World :=
  mkWorld (n_dial w) (S (n_send w)) (n_recv w) (n_input w) (codec w) (log w).
Definition next_recv (w : World) : World :=
  mkWorld (n_dial w) (n_send w) (S (n_recv w)) (n_input w) (codec w) (log w).
Definition next_input (w : World) : World :=
  mkWorld (n_dial w) (n_send w) (n_recv w) (S (n_input w)) (codec w) (log w).
Definition with_codec (c : Codec) (w : World) : World :=
  mkWorld (n_dial w) (n_send w) (n_recv w) (n_input w) c (log w).

Definition vTaskDelay (ms : Z) (w : World) : World := emit (EvDelay ms) w.
Definition close (sock : Z) (w : World) : World := emit (EvClose sock) w.

(** [if (!codec->input_enabled()) codec->EnableInput(true);] (line 94). *)
Definition ensure_input (w : World) : World :=
  if input_enabled (codec w) then w
  else with_codec (EnableInput true (codec w)) w.

(** [if (!codec->output_enabled()) codec->EnableOutput(true);] (line 131). *)
Definition ensure_output (w : World) : World :=
  if output_enabled (codec w) then w
  else with_codec (EnableOutput true (codec w)) w.

(** Writing [src] over the start of [buf]: the buffer keeps its size. *)
Definition overwrite (buf src : list Z) : list Z :=
  firstn (length buf) (src ++ skipn (length src) buf).

Section Tasks.

Variable E : Env.
Variable bo : byte_order.

(** [::send(sock, buf, n, 0)] with [n] the length of [buf]: at most [n]
    bytes are taken. *)
Definition sys_send (w : World) (sock : Z) (buf : list Z) : World * Z :=
  let a := send_ans E (n_send w) in
  let w1 := next_send w in
  if a <=? 0 then (w1, a)
  else
    let taken := firstn (Z.to_nat a) buf in
    (emit (EvSend sock taken) w1, Z.of_nat (length taken)).

(** [::recv(sock, p, n, 0)]: at most [n] bytes are delivered. *)
Definition sys_recv (w : World) (sock : Z) (n : nat) : World * Z * list Z :=
  let w1 := next_recv w in
  match recv_ans E (n_recv w) with
  | None => (w1, -1, [])
  | Some arrived =>
      let got := map u8 (firstn n arrived) in
      (w1, Z.of_nat (length got), got)
  end.

(** The loop of [send_all] (lines 23-27); [sent] is the local of that
    name and [len] is the length of [data].  Every turn of the loop adds
    at least one byte, so [length data] turns are enough: [fuel] only
    makes the recursion structural. *)
Fixpoint send_loop (fuel : nat) (w : World) (sock : Z) (data : list Z)
    (sent : nat) : World * bool :=
  if (sent <? length data)%nat then
    match fuel with
    | O => (w, false)
    | S fuel' =>
        let (w1, ret) := sys_send w sock (skipn sent data) in
        if ret <=? 0 then (w1, false)
        else send_loop fuel' w1 sock data (sent + Z.to_nat ret)
    end
  else (w, true).

Definition send_all (w : World) (sock : Z) (data : list Z) : World * bool :=
  send_loop (length data) w sock data 0.

(** The loop of [recv_all] (lines 33-37); [buf] holds the bytes stored so
    far, so that [recvd] is its length. *)
Fixpoint recv_loop (fuel : nat) (w : World) (sock : Z) (len : nat)
    (buf : list Z) : World * bool * list Z :=
  if (length buf <? len)%nat then
    match fuel with
    | O => (w, false, buf)
    | S fuel' =>
        let '(w1, ret, got) := sys_recv w sock (len - length buf) in
        if ret <=? 0 then (w1, false, buf)
        else recv_loop fuel' w1 sock len (buf ++ got)
    end
  else (w, true, buf).

Definition recv_all (w : World) (sock : Z) (len : nat) : World * bool * list Z :=
  recv_loop len w sock len [].

(** [connect_to] (lines 41-68). *)
Definition connect_to (cfg : NetConfig) (w : World) : World * Z :=
  let k := n_dial w in
  let w := next_dial w in
  let (err, res) := getaddrinfo_ans E k cfg in
  if negb (err =? 0) || negb res then (emit (EvDial (-1)) w, -1)
  else
    let sock := socket_ans E k in
    if sock <? 0 then (emit (EvDial (-1)) w, -1)
    else if negb (connect_ans E k =? 0) then
      (emit (EvDial (-1)) (close sock w), -1)
    else (emit (EvDial sock) w, sock).

(** Modelled from the spec: AudioCodec::InputData fills the buffer it is
    given and returns true, or returns false when no data is ready. *)
Definition InputData (w : World) (frame : list Z) : World * bool * list Z :=
  match input_ans E (n_input w) with
  | None => (emit (EvPoll false) (next_input w), false, frame)
  | Some samples =>
      (emit (EvPoll true) (next_input w), true,
       overwrite frame (map (fun s => s16 (u16 s)) samples))
  end.

(** ** The two tasks

    Both tasks are loops without exit.  A task is run one loop turn at a
    time; [Phase] names the point of the task where the next turn starts:
    the head of the outer loop (line 81 or 113), the block that sends the
    direction token, the head of the inner loop (line 93 or 122), the two
    statements after the inner loop, and the end of the function. *)
Inductive Phase : Type :=
| Connecting
| Handshaking (sock : Z)
| Streaming (sock : Z)
| Closing (sock : Z)
| Returned.

Record Uplink : Type := mkUplink {
  up_world : World;
  up_phase : Phase;
  frame : list Z      (* std::vector<int16_t> frame *)
}.

(** Lines 76-78: the block size is computed once, before the loop. *)
Definition frame_size (c : Codec) : Z :=
  let sample_rate := input_sample_rate c in
  let frame_samples := size_t (Z.quot sample_rate 50) in
  size_t (frame_samples * size_t (input_channels c)).

Definition mic_uplink_start (w : World) : Uplink :=
  mkUplink w Connecting (repeat 0 (Z.to_nat (frame_size (codec w)))).

Definition mic_uplink_step (cfg : NetConfig) (u : Uplink) : Uplink :=
  let w := up_world u in
  match up_phase u with
  | Connecting =>
      let (w1, sock) := connect_to cfg w in
      if sock <? 0 then mkUplink (vTaskDelay 2000 w1) Connecting (frame u)
      else mkUplink w1 (Handshaking sock) (frame u)
  | Handshaking sock =>
      let (w1, _) := send_all w sock hello_up in
      mkUplink w1 (Streaming sock) (frame u)
  | Streaming sock =>
      let w1 := ensure_input w in
      let '(w2, ok, fr) := InputData w1 (frame u) in
      if negb ok then mkUplink (vTaskDelay 5 w2) (Streaming sock) fr
      else
        let hdr := frame_header 0x01 fr in
        let (w3, ok1) := send_all w2 sock (header_bytes bo hdr) in
        if negb ok1 then mkUplink w3 (Closing sock) fr
        else
          let (w4, ok2) := send_all w3 sock (frame_bytes bo fr) in
          if negb ok2 then mkUplink w4 (Closing sock) fr
          else mkUplink w4 (Streaming sock) fr
  | Closing sock =>
      mkUplink (vTaskDelay 1000 (close sock w)) Connecting (frame u)
  | Returned => u
  end.

Record Downlink : Type := mkDownlink {
  dn_world : World;
  dn_phase : Phase
}.

Definition spk_downlink_start (w : World) : Downlink := mkDownlink w Connecting.

Definition spk_downlink_step (cfg : NetConfig) (d : Downlink) : Downlink :=
  let w := dn_world d in
  match dn_phase d with
  | Connecting =>
      let (w1, sock) := connect_to cfg w in
      if sock <? 0 then mkDownlink (vTaskDelay 2000 w1) Connecting
      else mkDownlink w1 (Handshaking sock)
  | Handshaking sock =>
      let (w1, _) := send_all w sock hello_down in
      mkDownlink w1 (Streaming sock)
  | Streaming sock =>
      let '(w1, ok, image) := recv_all w sock sizeof_PcmHeader in
      if negb ok then mkDownlink w1 (Closing sock)
      else
        let hdr := header_of_bytes bo image in
        if invalid_packet hdr then mkDownlink (emit (EvInvalid hdr) w1) (Closing sock)
        else
          (* std::vector<int16_t> buf(hdr.len / sizeof(int16_t)) *)
          let room := (2 * Z.to_nat (len hdr / sizeof_int16))%nat in
          let '(w2, ok2, bytes) := recv_all w1 sock (Z.to_nat (len hdr)) in
          if negb ok2 then mkDownlink w2 (Closing sock)
          else
            let buf := samples_of_bytes bo (firstn room bytes) in
            let w3 := if (room <? length bytes)%nat
                      then emit (EvOverrun (length bytes - room)) w2 else w2 in
            let w4 := ensure_output w3 in
            mkDownlink (with_codec (OutputData buf (codec w4)) w4) (Streaming sock)
  | Closing sock =>
      mkDownlink (vTaskDelay 1000 (close sock w)) Connecting
  | Returned => d
  end.

(** [n] loop turns of a task. *)
Fixpoint turns {St : Type} (step : St -> St) (n : nat) (s : St) : St :=
  match n with
  | O => s
  | S k => turns step k (step s)
  end.

Definition mic_uplink_task (cfg : NetConfig) (n : nat) (w : World) : Uplink :=
  turns (mic_uplink_step cfg) n (mic_uplink_start w).

Definition spk_downlink_task (cfg : NetConfig) (n : nat) (w : World) : Downlink :=
  turns (spk_downlink_step cfg) n (spk_downlink_start w).

End Tasks.

(** The delays a log holds, in order. *)
Fixpoint delays (l : list Event) : list Z :=
  match l with
  | [] => []
  | EvDelay ms :: rest => ms :: delays rest
  | _ :: rest => delays rest
  end.

(** The bytes a log shows as sent on [sock], in order. *)
Fixpoint sent_on (sock : Z) (l : list Event) : list Z :=
  match l with
  | [] => []
  | EvSend s bytes :: rest =>
      if s =? sock then bytes ++ sent_on sock rest else sent_on sock rest
  | _ :: rest => sent_on sock rest
  end.

(** The sockets a log shows as closed, in order. *)
Fixpoint closed (l : list Event) : list Z :=
  match l with
  | [] => []
  | EvClose s :: rest => s :: closed rest
  | _ :: rest => closed rest
  end.

(** ** Vocabulary of the statements *)

(** What [send_all] leaves untouched. *)
Definition send_frame (w w' : World) : Prop :=
  n_dial w' = n_dial w /\ n_recv w' = n_recv w /\ n_input w' = n_input w /\
  codec w' = codec w.

(** The outcome of [send_loop]: [m] bytes of [data] are out when it
    returns, sent in the pieces [chunks], one piece per successful call
    of [::send]. *)
Definition send_outcome (E : Env) (w : World) (sock : Z) (data : list Z) (sent : nat)
    (w' : World) (ok : bool) (m : nat) (chunks : list (list Z)) : Prop :=
  (sent <= m <= length data)%nat /\
  send_frame w w' /\
  log w' = log w ++ map (EvSend sock) chunks /\
  firstn sent data ++ concat chunks = firstn m data /\
  n_send w' = (n_send w + length chunks + (if ok then 0 else 1))%nat /\
  (forall k, (n_send w <= k < n_send w + length chunks)%nat -> 0 < send_ans E k) /\
  (ok = true -> m = length data) /\
  (ok = false ->
     (m < length data)%nat /\ send_ans E (n_send w + length chunks) <= 0).

(** What [recv_all] leaves untouched. *)
Definition recv_frame (w w' : World) : Prop :=
  n_dial w' = n_dial w /\ n_send w' = n_send w /\ n_input w' = n_input w /\
  codec w' = codec w /\ log w' = log w.

(** The outcome of [recv_loop]: the bytes stored extend [buf]; they fill
    the [len] bytes asked for exactly when the loop returns true, and a
    loop that returns false stopped short on an answer of [::recv] that
    was an error or the end of the stream. *)
Definition recv_outcome (E : Env) (w : World) (len : nat) (buf : list Z)
    (w' : World) (ok : bool) (got : list Z) : Prop :=
  recv_frame w w' /\
  (n_recv w <= n_recv w')%nat /\
  (exists more, got = buf ++ more) /\
  (ok = true -> length got = len) /\
  (ok = false ->
     (length got < len)%nat /\ (n_recv w < n_recv w')%nat /\
     (recv_ans E (pred (n_recv w')) = None \/
      recv_ans E (pred (n_recv w')) = Some [])).

(** Whether the k-th call of [connect_to] fails: on [getaddrinfo], on
    [::socket] or on [::connect]. *)
Definition connect_fails (E : Env) (cfg : NetConfig) (k : nat) : bool :=
  negb (fst (getaddrinfo_ans E k cfg) =? 0) || negb (snd (getaddrinfo_ans E k cfg))
  || (socket_ans E k <? 0) || negb (connect_ans E k =? 0).

(** ** Scenarios

    The configuration of main.cc (24000 Hz input, the default server
    address) with a mono codec, and scripted environments to run the
    tasks in. *)

Definition INPUT_SR : Z := 24000.

Definition board_codec : Codec := mkCodec INPUT_SR 1 false false [].
Definition boot : World := mkWorld 0 0 0 0 board_codec [].
Definition server : NetConfig := mkNetConfig "192.168.1.2" 9002.

(** The k-th answer of a script, [d] once the script is used up. *)
Definition answers {A : Type} (script : list A) (d : A) (k : nat) : A :=
  nth k script d.

(** A network where every connect succeeds with socket 3, with scripted
    answers of [::send], [::recv] and of the microphone. *)
Definition scripted (sends : list Z) (send_after : Z)
    (recvs : list (option (list Z))) (inputs : list (option (list Z)))
    (input_after : option (list Z)) : Env :=
  mkEnv (fun _ _ => (0, true)) (fun _ => 3) (fun _ => 0)
        (answers sends send_after)
        (answers recvs (Some []))
        (answers inputs input_after).

(** The server sends a frame of direction 1. *)
Definition env_uplink_tag : Env :=
  scripted [] 4096
    [Some (header_bytes LittleEndian (mkPcmHeader PCM_MAGIC 1 2)); Some [5; 6]]
    [] None.

(** The server declares 3 bytes and sends them. *)
Definition env_odd_length : Env :=
  scripted [] 4096
    [Some (header_bytes LittleEndian (mkPcmHeader PCM_MAGIC 2 3)); Some [1; 2; 3]]
    [] None.

(** The server declares 10 bytes, sends 6 and closes. *)
Definition env_short_payload : Env :=
  scripted [] 4096
    [Some (header_bytes LittleEndian (mkPcmHeader PCM_MAGIC 2 10));
     Some [1; 2; 3; 4; 5; 6]; Some []]
    [] None.

(** The server declares 4 bytes and sends them. *)
Definition env_downlink_frame : Env :=
  scripted [] 4096
    [Some (header_bytes LittleEndian (mkPcmHeader PCM_MAGIC 2 4)); Some [1; 2; 3; 4]]
    [] None.

(** No route to the server: every connect fails, and so does every
    transfer on a socket. *)
Definition env_dead : Env :=
  mkEnv (fun _ _ => (0, true)) (fun _ => 3) (fun _ => -1)
        (fun _ => -1) (fun _ => None) (fun _ => Some []).

(** The server accepts the connection and nothing else: every send
    fails and every read finds the stream closed. *)
Definition env_mute : Env :=
  mkEnv (fun _ _ => (0, true)) (fun _ => 3) (fun _ => 0)
        (fun _ => -1) (fun _ => Some []) (fun _ => Some []).

(** The stack takes 3 bytes, then 2, then whatever is left. *)
Definition env_choppy : Env :=
  scripted [3; 2] 4096 [] [] (Some [1; 2]).

(** The stack takes 3 bytes, then 2, then reports 0. *)
Definition env_stalls : Env :=
  scripted [3; 2; 0] 4096 [] [] (Some [1; 2]).

(** The microphone has nothing at the first four polls. *)
Definition env_slow_mic : Env :=
  scripted [] 4096 [] [None; None; None; None] (Some [1; 2]).

(** The first send fails; after it the stack takes every buffer whole.
    The server sends one frame of 4 bytes. *)
Definition env_token_fails : Env :=
  scripted [-1] 4096
    [Some (header_bytes LittleEndian (mkPcmHeader PCM_MAGIC 2 4)); Some [1; 2; 3; 4]]
    [] (Some [1; 2]).

(** A codec that delivers blocks of 32768 samples. *)
Definition wide_codec : Codec := mkCodec 1638400 1 false false [].
Definition boot_wide : World := mkWorld 0 0 0 0 wide_codec [].

(** ** Vocabulary for the socket ledger and the sample format *)

(** Whether the k-th call of [connect_to] gets a socket from [::socket]
    (line 53 is reached and returns a descriptor). *)
Definition socket_made (E : Env) (cfg : NetConfig) (k : nat) : bool :=
  (fst (getaddrinfo_ans E k cfg) =? 0) && snd (getaddrinfo_ans E k cfg)
  && (0 <=? socket_ans E k).

(** The sockets made by the first [n] calls of [connect_to], in order. *)
Fixpoint sockets_made (E : Env) (cfg : NetConfig) (n : nat) : list Z :=
  match n with
  | O => []
  | S k => sockets_made E cfg k
           ++ (if socket_made E cfg k then [socket_ans E k] else [])
  end.

(** The socket a task holds at a point of its loop. *)
Definition held (ph : Phase) : list Z :=
  match ph with
  | Handshaking sock | Streaming sock | Closing sock => [sock]
  | Connecting | Returned => []
  end.

(** The sockets closed so far, followed by the one held, are the sockets
    made so far. *)
Definition ledger (E : Env) (cfg : NetConfig) (w : World) (ph : Phase) : Prop :=
  closed (log w) ++ held ph = sockets_made E cfg (n_dial w).

(** The bytes on the wire of a frame whose block is [f], under the header
    built for a block of the size of [fr]. *)
Definition wire_frame (bo : byte_order) (fr f : list Z) : list Z :=
  header_bytes bo (frame_header 1 fr) ++ frame_bytes bo f.

(** The values of [int16_t]. *)
Definition int16 (s : Z) : Prop := - 2 ^ 15 <= s < 2 ^ 15.

(** The server sends a header in two pieces, and the payload in one. *)
Definition env_pieces : Env :=
  scripted [] 4096
    [Some [80; 67; 77]; Some [48; 2; 4; 0]; Some [1; 2; 3; 4]]
    [] None.

(** The second connect fails on [::connect]; the others succeed. *)
Definition env_flaky_connect : Env :=
  mkEnv (fun _ _ => (0, true)) (fun _ => 3)
        (fun k => if (k =? 1)%nat then -1 else 0)
        (fun _ => -1) (fun _ => Some []) (fun _ => Some []).

(** The server relays the block [1; -2] under a downlink header. *)
Definition env_relay : Env :=
  scripted [] 4096
    [Some (header_bytes LittleEndian (mkPcmHeader PCM_MAGIC 2 4));
     Some (frame_bytes LittleEndian [1; -2])]
    [] None.

(** * The XL9555 port expander (components/BSP/XL9555/xl9555.c)

    The driver talks to the chip over I2C.  The bus and the heap are the
    environment: oracles indexed by the number of calls give the outcome
    of every transfer and of every allocation. *)

(** esp_err.h *)
Definition ESP_OK : Z := 0.
Definition ESP_ERR_NO_MEM : Z := 0x101.

(** xl9555.h *)
Definition XL9555_INPUT_PORT0_REG : Z := 0.
Definition XL9555_OUTPUT_PORT0_REG : Z := 2.
Definition XL9555_CONFIG_PORT0_REG : Z := 6.

Definition SPK_EN_IO : Z := 0x0004.
Definition BEEP_IO : Z := 0x0008.
Definition OV_PWDN_IO : Z := 0x0010.
Definition OV_RESET_IO : Z := 0x0020.
Definition LCD_BL_IO : Z := 0x0100.
Definition SLCD_RST_IO : Z := 0x0400.
Definition SLCD_PWR_IO : Z := 0x0800.
Definition KEY3_IO : Z := 0x1000.
Definition KEY2_IO : Z := 0x2000.
Definition KEY1_IO : Z := 0x4000.
Definition KEY0_IO : Z := 0x8000.

Definition KEY0_PRES : Z := 1.
Definition KEY1_PRES : Z := 2.
Definition KEY2_PRES : Z := 3.
Definition KEY3_PRES : Z := 4.

Record I2cEnv : Type := mkI2cEnv {
  (* i2c_master_transmit_receive of two bytes, k-th call: its return
     value and the two bytes found in the caller's buffer after it (the
     bytes of the chip when the transfer succeeds; whatever the buffer
     held, which no caller initialises, when it fails) *)
  i2c_read_ans : nat -> Z * (Z * Z);
  (* i2c_master_transmit, k-th call: its return value *)
  i2c_write_ans : nat -> Z;
  (* malloc, k-th call: whether it returns a block *)
  malloc_ans : nat -> bool
}.

Inductive BusEvent : Type :=
| I2cRead (reg : Z)               (* two bytes read from register reg *)
| I2cWrite (bytes : list Z)       (* bytes transmitted *)
| WaitMs (ms : Z)                 (* vTaskDelay(pdMS_TO_TICKS(ms)) *)
| WaitUs (us : Z)                 (* esp_rom_delay_us(us) *)
| LogError.                       (* ESP_LOGE *)

Record Bus : Type := mkBus {
  n_i2c_read : nat;
  n_i2c_write : nat;
  n_malloc : nat;
  bus_log : list BusEvent
}.

Definition bus_emit (e : BusEvent) (b : Bus) : Bus :=
  mkBus (n_i2c_read b) (n_i2c_write b) (n_malloc b) (bus_log b ++ [e]).

Section XL9555.

Variable B : I2cEnv.

(** [xl9555_read_byte(data, 2)] (lines 33-38): the error code and the
    two bytes of [data] after the call. *)
Definition xl9555_read_byte (b : Bus) : Bus * Z * (Z * Z) :=
  let '(err, (d0, d1)) := i2c_read_ans B (n_i2c_read b) in
  (bus_emit (I2cRead XL9555_INPUT_PORT0_REG)
     (mkBus (S (n_i2c_read b)) (n_i2c_write b) (n_malloc b) (bus_log b)),
   err, (u8 d0, u8 d1)).

(** [xl9555_write_byte(reg, data, len)] (lines 47-66), [len] being the
    length of [data]. *)
Definition xl9555_write_byte (b : Bus) (reg : Z) (data : list Z) : Bus * Z :=
  let b1 := mkBus (n_i2c_read b) (n_i2c_write b) (S (n_malloc b)) (bus_log b) in
  if malloc_ans B (n_malloc b) then
    let buf := u8 reg :: data in
    let ret := i2c_write_ans B (n_i2c_write b) in
    (bus_emit (I2cWrite buf)
       (mkBus (n_i2c_read b1) (S (n_i2c_write b1)) (n_malloc b1) (bus_log b1)),
     ret)
  else (bus_emit LogError b1, ESP_ERR_NO_MEM).

(** [xl9555_pin_write(pin, val)] (lines 74-109). *)
Definition xl9555_pin_write (b : Bus) (pin val : Z) : Bus * Z :=
  let pin := u16 pin in
  let '(b1, _, (r0, r1)) := xl9555_read_byte b in
  let '(w0, w1) :=
    if pin <=? 0x0080 then
      if negb (val =? 0)
      then (u8 (Z.lor r0 (u8 (Z.land 0xFF pin))), r1)
      else (u8 (Z.land r0 (Z.lnot (u8 (Z.land 0xFF pin)))), r1)
    else
      if negb (val =? 0)
      then (r0, u8 (Z.lor r1 (u8 (Z.land 0xFF (Z.shiftr pin 8)))))
      else (r0, u8 (Z.land r1 (Z.lnot (u8 (Z.land 0xFF (Z.shiftr pin 8))))))
  in
  let temp := u16 (Z.lor (Z.shiftl w1 8) w0) in
  let (b2, _) := xl9555_write_byte b1 XL9555_OUTPUT_PORT0_REG [w0; w1] in
  (b2, temp).

(** [xl9555_pin_read(pin)] (lines 116-126). *)
Definition xl9555_pin_read (b : Bus) (pin : Z) : Bus * Z :=
  let '(b1, _, (r0, r1)) := xl9555_read_byte b in
  let ret := u16 (Z.lor (Z.shiftl r1 8) r0) in
  (b1, if Z.land ret (u16 pin) =? 0 then 0 else 1).

(** [xl9555_ioconfig(config_value)] (lines 133-154); the loop has no
    bound, [fuel] is the number of turns allowed and [None] means that
    they were all used. *)
Fixpoint xl9555_ioconfig (fuel : nat) (b : Bus) (config_value : Z) : option Bus :=
  match fuel with
  | O => None
  | S fuel' =>
      let config_value := u16 config_value in
      let data := [u8 (Z.land 0xFF config_value);
                   u8 (Z.land 0xFF (Z.shiftr config_value 8))] in
      let (b1, err) := xl9555_write_byte b XL9555_CONFIG_PORT0_REG data in
      let b2 := if err =? ESP_OK then b1 else bus_emit LogError b1 in
      let b3 := bus_emit (WaitMs 100) b2 in
      if err =? ESP_OK then Some b3 else xl9555_ioconfig fuel' b3 config_value
  end.

(** The test [KEY0 == 0 || KEY1 == 0 || KEY2 == 0 || KEY3 == 0] of line
    259: every [KEYn] is a call of [xl9555_pin_read], and the calls
    after the first key found low are not made. *)
Definition any_key_low (b : Bus) : Bus * bool :=
  let (b0, k0) := xl9555_pin_read b KEY0_IO in
  if k0 =? 0 then (b0, true) else
  let (b1, k1) := xl9555_pin_read b0 KEY1_IO in
  if k1 =? 0 then (b1, true) else
  let (b2, k2) := xl9555_pin_read b1 KEY2_IO in
  if k2 =? 0 then (b2, true) else
  let (b3, k3) := xl9555_pin_read b2 KEY3_IO in
  (b3, k3 =? 0).

(** The test [KEY0 == 1 && KEY1 == 1 && KEY2 == 1 && KEY3 == 1] of line
    284. *)
Definition all_keys_high (b : Bus) : Bus * bool :=
  let (b0, k0) := xl9555_pin_read b KEY0_IO in
  if negb (k0 =? 1) then (b0, false) else
  let (b1, k1) := xl9555_pin_read b0 KEY1_IO in
  if negb (k1 =? 1) then (b1, false) else
  let (b2, k2) := xl9555_pin_read b1 KEY2_IO in
  if negb (k2 =? 1) then (b2, false) else
  let (b3, k3) := xl9555_pin_read b2 KEY3_IO in
  (b3, k3 =? 1).

(** [xl9555_key_scan(mode)] (lines 249-290); [key_up] is the static
    local of that name, passed in and returned. *)
Definition xl9555_key_scan (b : Bus) (key_up : Z) (mode : Z) : Bus * Z * Z :=
  let key_up := if negb (u8 mode =? 0) then 1 else key_up in
  let (b1, pressed) :=
    if negb (key_up =? 0) then any_key_low b else (b, false) in
  if pressed then
    let b2 := bus_emit (WaitUs 100000) b1 in
    let (b3, k0) := xl9555_pin_read b2 KEY0_IO in
    let keyval := if k0 =? 0 then KEY0_PRES else 0 in
    let (b4, k1) := xl9555_pin_read b3 KEY1_IO in
    let keyval := if k1 =? 0 then KEY1_PRES else keyval in
    let (b5, k2) := xl9555_pin_read b4 KEY2_IO in
    let keyval := if k2 =? 0 then KEY2_PRES else keyval in
    let (b6, k3) := xl9555_pin_read b5 KEY3_IO in
    let keyval := if k3 =? 0 then KEY3_PRES else keyval in
    (b6, 0, keyval)
  else
    let (b2, released) := all_keys_high b1 in
    (b2, if released then 1 else key_up, 0).

(** [n] calls of [xl9555_key_scan(mode)] in a row: the key values
    returned, in order, with the bus and the flag left behind. *)
Fixpoint key_scans (n : nat) (b : Bus) (key_up : Z) (mode : Z)
    : Bus * Z * list Z :=
  match n with
  | O => (b, key_up, [])
  | S k =>
      let '(b1, key_up1, keyval) := xl9555_key_scan b key_up mode in
      let '(b2, key_up2, rest) := key_scans k b1 key_up1 mode in
      (b2, key_up2, keyval :: rest)
  end.

End XL9555.

(** The 16 input bits of the chip as the driver assembles them. *)
Definition port_value (r0 r1 : Z) : Z := Z.lor (Z.shiftl r1 8) r0.

(** The bits of a mask on which [xl9555_pin_write] acts. *)
Definition pin_mask (pin : Z) : Z :=
  if pin <=? 0x0080 then pin else Z.land pin 0xFF00.

(** The bytes put on the bus, in order. *)
Fixpoint bus_writes (l : list BusEvent) : list (list Z) :=
  match l with
  | [] => []
  | I2cWrite bytes :: rest => bytes :: bus_writes rest
  | _ :: rest => bus_writes rest
  end.

(** The waits in a bus log, in milliseconds, in order. *)
Fixpoint bus_waits (l : list BusEvent) : list Z :=
  match l with
  | [] => []
  | WaitMs ms :: rest => ms :: bus_waits rest
  | _ :: rest => bus_waits rest
  end.

(** The key value [xl9555_key_scan] reports for the input byte [r1] of
    port 1: the keys are active low, and the later tests win. *)
Definition key_of (r1 : Z) : Z :=
  if negb (Z.testbit r1 4) then KEY3_PRES
  else if negb (Z.testbit r1 5) then KEY2_PRES
  else if negb (Z.testbit r1 6) then KEY1_PRES
  else if negb (Z.testbit r1 7) then KEY0_PRES
  else 0.

(** A chip that always answers with the bytes [r0] and [r1]. *)
Definition chip (r0 r1 : Z) : I2cEnv :=
  mkI2cEnv (fun _ => (ESP_OK, (r0, r1))) (fun _ => ESP_OK) (fun _ => true).

(** A bus on which the first [n] transmissions fail. *)
Definition chip_late (n : nat) : I2cEnv :=
  mkI2cEnv (fun _ => (ESP_OK, (0, 0)))
           (fun k => if (k <? n)%nat then -1 else ESP_OK) (fun _ => true).

Definition idle_bus : Bus := mkBus 0 0 0 [].

(** A chip whose successive reads give the pairs of [script], then
    [r0], [r1]. *)
Definition chip_script (script : list (Z * Z)) (r0 r1 : Z) : I2cEnv :=
  mkI2cEnv (fun k => (ESP_OK, answers script (r0, r1) k))
           (fun _ => ESP_OK) (fun _ => true).

(** From the call [n] on, every read finds the bytes [d0] and [d1]. *)
Definition steady_from (B : I2cEnv) (d0 d1 : Z) (n : nat) : Prop :=
  forall k, (n <= k)%nat -> snd (i2c_read_ans B k) = (d0, d1).

(** The level [xl9555_pin_read] reports for bit [bit] of port 1. *)
Definition key_level (d1 bit : Z) : Z :=
  if Z.testbit (u8 d1) bit then 1 else 0.

(** The bus after one read of the input registers. *)
Definition after_read (b : Bus) : Bus :=
  bus_emit (I2cRead XL9555_INPUT_PORT0_REG)
    (mkBus (S (n_i2c_read b)) (n_i2c_write b) (n_malloc b) (bus_log b)).

(** ** The SPI panel (spilcd.c)

    The panel is seen through the calls the driver makes: the bitmaps
    handed to [esp_lcd_panel_draw_bitmap], whose rectangle runs from
    [x_start], [y_start] up to but not including [x_end], [y_end], the
    buffers taken from and given back to the heap, and the messages
    logged.  Coordinates, lengths and colours are the [uint16_t] values of
    the C parameters; [int] arithmetic stays far below 2^31 on them and is
    written without wrap-around. *)

(** The device descriptor [_spilcd_dev] of spilcd.h. *)
Record spilcd_dev : Type := mkDev {
  pwidth : Z;
  pheight : Z;
  dir : Z;
  width : Z;
  height : Z
}.

Inductive PanelEvent : Type :=
| Alloc (bytes : Z)
| Release
| DrawBitmap (x_start y_start x_end y_end : Z) (color_data : list Z)
| Overrun (pixels : Z)
| AwaitRefresh
| PanelLogError.

(** The values [0], ..., [n - 1] of a counting loop. *)
Definition upto (n : Z) : list Z := map Z.of_nat (seq 0 (Z.to_nat n)).

(** The colour with its two bytes exchanged: [color_tmp] in spilcd.c. *)
Definition swap_color (color : Z) : Z :=
  u16 (Z.lor (Z.shiftl (Z.land color 0x00FF) 8)
             (Z.shiftr (Z.land color 0xFF00) 8)).

(** [spilcd_fill]: one row buffer, sent once for each of the [height]
    rows.  [malloc_ok] tells whether the allocation succeeds. *)
Definition spilcd_fill (malloc_ok : bool) (sx sy ex ey color : Z)
  : list PanelEvent :=
  let width := u16 (ex - sx) in
  let height := u16 (ey - sy) in
  let color_tmp := swap_color color in
  if negb malloc_ok then [PanelLogError]
  else
    let buffer := map (fun _ => color_tmp) (upto width) in
    [Alloc (size_t (width * 2))]
    ++ map (fun y => DrawBitmap sx (sy + y) ex (sy + y + 1) buffer)
           (upto height)
    ++ [Release].

(** [spilcd_draw_point]. *)
Definition spilcd_draw_point (x y color : Z) : list PanelEvent :=
  let color_tmp := swap_color color in
  [DrawBitmap x y (x + 1) (y + 1) [color_tmp]].

(** The loop of [spilcd_draw_line]; [t] is a [uint16_t], the other
    variables are [int].  [None] when the fuel runs out. *)
Fixpoint draw_line_loop (fuel : nat)
    (delta_x delta_y distance incx incy color : Z)
    (t xerr yerr row col : Z) : option (list PanelEvent) :=
  match fuel with
  | O => None
  | S fuel =>
    if t <=? distance + 1 then
      let point := spilcd_draw_point (u16 row) (u16 col) color in
      let xerr := xerr + delta_x in
      let yerr := yerr + delta_y in
      let '(xerr, row) :=
        if distance <? xerr then (xerr - distance, row + incx)
        else (xerr, row) in
      let '(yerr, col) :=
        if distance <? yerr then (yerr - distance, col + incy)
        else (yerr, col) in
      match draw_line_loop fuel delta_x delta_y distance incx incy color
              (u16 (t + 1)) xerr yerr row col with
      | Some rest => Some (point ++ rest)
      | None => None
      end
    else Some []
  end.

(** The direction and the length of one coordinate's travel. *)
Definition line_inc (delta : Z) : Z :=
  if 0 <? delta then 1 else if delta =? 0 then 0 else -1.

Definition line_abs (delta : Z) : Z :=
  if 0 <? delta then delta else if delta =? 0 then delta else - delta.

(** [spilcd_draw_line]. *)
Definition spilcd_draw_line (fuel : nat) (x1 y1 x2 y2 color : Z)
  : option (list PanelEvent) :=
  let delta_x := x2 - x1 in
  let delta_y := y2 - y1 in
  let row := x1 in
  let col := y1 in
  let incx := line_inc delta_x in
  let delta_x := line_abs delta_x in
  let incy := line_inc delta_y in
  let delta_y := line_abs delta_y in
  let distance := if delta_y <? delta_x then delta_x else delta_y in
  draw_line_loop fuel delta_x delta_y distance incx incy color
    0 0 0 row col.

(** [spilcd_draw_hline].  [fmin] is taken on two integers that a
    [double] holds exactly. *)
Definition spilcd_draw_hline (dev : spilcd_dev) (malloc_ok : bool)
    (x y len color : Z) : list PanelEvent :=
  if (len =? 0) || (width dev <=? x) || (height dev <=? y) then []
  else
    let ex := u16 (Z.min (width dev - 1) (x + len - 1)) in
    let ey := y in
    let width := size_t (ex - x + 1) in
    let h := size_t (ey - y + 1) in
    if negb malloc_ok then []
    else
      let color_buffer := map (fun _ => color) (upto (size_t (width * h))) in
      [Alloc (size_t (width * h * 2));
       DrawBitmap x y (ex + 1) (ey + 1) color_buffer;
       Release].

(** The inner loop of [spilcd_show_char] on one byte of the glyph: the
    pixels stored and the last value of [colortemp].  [short] is the test
    [(size == 24) && (byte_index % 2)], under which the loop is left after
    the pixel of [bit_index == 3]. *)
Fixpoint glyph_byte (n : nat) (short : bool) (mode color_tmp : Z)
    (bit_index byte_code colortemp : Z) : list Z * Z :=
  match n with
  | O => ([], colortemp)
  | S n =>
    let colortemp :=
      if negb (Z.land byte_code 0x80 =? 0) then color_tmp
      else if mode =? 0 then 0xFFFF
      else colortemp in
    if short && (bit_index =? 3) then ([colortemp], colortemp)
    else
      let '(pixels, last) :=
        glyph_byte n short mode color_tmp
          (bit_index + 1) (u8 (Z.shiftl byte_code 1)) colortemp in
      (colortemp :: pixels, last)
  end.

(** The outer loop, over the bytes [byte_index], ... of the glyph. *)
Fixpoint glyph_pixels (ch_code : Z -> Z) (size mode color_tmp : Z)
    (byte_indices : list Z) (colortemp : Z) : list Z :=
  match byte_indices with
  | [] => []
  | byte_index :: rest =>
    let short := (size =? 24) && negb (byte_index mod 2 =? 0) in
    let '(pixels, colortemp) :=
      glyph_byte 8 short mode color_tmp 0 (ch_code byte_index) colortemp in
    pixels ++ glyph_pixels ch_code size mode color_tmp rest colortemp
  end.

(** One call of [spilcd_show_char], as the text functions make it. *)
Record CharCall : Type := mkCall {
  at_x : Z;
  at_y : Z;
  chr : Z;
  font_size : Z;
  overlay : Z;
  ink : Z
}.

(** The bytes of a glyph: [ch_size] in [spilcd_show_char]. *)
Definition glyph_size (size : Z) : Z :=
  u8 (((size / 2) / 8 + (if (size / 2) mod 8 =? 0 then 0 else 1)) * size).

Section Glyphs.

(** The font tables [asc2_1206], [asc2_1608], [asc2_2412] and
    [asc2_3216] of lcdfont.h: [font size ch_offset byte_index]. *)
Variable font : Z -> Z -> Z -> Z.

(** [spilcd_show_char].  [None]: the function stores a pixel through the
    null pointer it got from the heap.  What it stores beyond the
    [size * (size / 2)] pixels of its buffer is reported by [Overrun]. *)
Definition spilcd_show_char (malloc_ok : bool) (x y chr size mode color : Z)
  : option (list PanelEvent) :=
  let ch_size := glyph_size size in
  let capacity := size * (size / 2) in
  let heap := if malloc_ok then [Alloc (capacity * 2)] else [PanelLogError] in
  let color_tmp := swap_color color in
  let ch_offset := u8 (chr - 32) in
  let shape :=
    if size =? 12 then Some (6, 12)
    else if size =? 16 then Some (8, 16)
    else if size =? 24 then Some (12, 24)
    else if size =? 32 then Some (16, 32)
    else None in
  match shape with
  | None => Some heap
  | Some (ch_width, ch_height) =>
    let pixels :=
      glyph_pixels (font size ch_offset) size mode color_tmp
        (upto ch_size) 0 in
    let stored := Z.of_nat (length pixels) in
    if negb malloc_ok && (0 <? stored) then None
    else
      Some (heap
            ++ (if capacity <? stored then [Overrun (stored - capacity)]
                else [])
            ++ [DrawBitmap x y (x + ch_width) (y + ch_height)
                  (firstn (Z.to_nat capacity) pixels);
                AwaitRefresh; Release])
  end.

End Glyphs.

(** [lcd_pow]: [result] is a [uint32_t], [n] a [uint8_t] counted down. *)
Fixpoint lcd_pow_loop (n : nat) (m result : Z) : Z :=
  match n with
  | O => result
  | S n => lcd_pow_loop n m (size_t (result * m))
  end.

Definition lcd_pow (m n : Z) : Z := lcd_pow_loop (Z.to_nat n) m 1.

(** The loop of [spilcd_show_xnum] over the digits [t], ..., as the calls
    of [spilcd_show_char] it makes.  [None]: the division by the result
    of [lcd_pow] is a division by zero. *)
Fixpoint show_xnum_loop (x y num len size mode color : Z)
    (ts : list Z) (enshow : bool) : option (list CharCall) :=
  match ts with
  | [] => Some []
  | t :: ts =>
    let power := lcd_pow 10 (u8 (len - t - 1)) in
    if power =? 0 then None
    else
      let temp := u8 ((num / power) mod 10) in
      let place := u16 (x + (size / 2) * t) in
      let next := show_xnum_loop x y num len size mode color ts in
      if negb enshow && (t <? len - 1) then
        if temp =? 0 then
          let pad := if negb (Z.land mode 0x80 =? 0) then 48 else 32 in
          option_map
            (cons (mkCall place y pad size (Z.land mode 0x01) color))
            (next enshow)
        else
          option_map
            (cons (mkCall place y (u8 (temp + 48)) size
                     (Z.land mode 0x01) color))
            (next true)
      else
        option_map
          (cons (mkCall place y (u8 (temp + 48)) size
                   (Z.land mode 0x01) color))
          (next enshow)
  end.

(** [spilcd_show_xnum]: [t] runs from 0 up to [len - 1]. *)
Definition spilcd_show_xnum (x y num len size mode color : Z)
  : option (list CharCall) :=
  show_xnum_loop x y num len size mode color (upto len) false.

(** The loop of [spilcd_show_num]. *)
Fixpoint show_num_loop (x y num len size color : Z)
    (ts : list Z) (enshow : bool) : option (list CharCall) :=
  match ts with
  | [] => Some []
  | t :: ts =>
    let power := lcd_pow 10 (u8 (len - t - 1)) in
    if power =? 0 then None
    else
      let temp := u8 ((num / power) mod 10) in
      let place := u16 (x + (size / 2) * t) in
      let next := show_num_loop x y num len size color ts in
      if negb enshow && (t <? len - 1) then
        if temp =? 0 then
          option_map (cons (mkCall place y 32 size 0 color)) (next enshow)
        else
          option_map (cons (mkCall place y (u8 (temp + 48)) size 0 color))
                     (next true)
      else
        option_map (cons (mkCall place y (u8 (temp + 48)) size 0 color))
                   (next enshow)
  end.

(** [spilcd_show_num]. *)
Definition spilcd_show_num (x y num len size color : Z)
  : option (list CharCall) :=
  show_num_loop x y num len size color (upto len) false.

(** The loop of [spilcd_show_string] on the characters [p] before the
    terminating zero, which ends the loop like any character outside
    [' '] ... ['~']. *)
Fixpoint show_string_loop (x0 width height size color : Z) (p : list Z)
    (x y : Z) : list CharCall :=
  match p with
  | [] => []
  | c :: p =>
    if (c <=? 126) && (32 <=? c) then
      let '(x, y) := if width <=? x then (x0, u16 (y + size)) else (x, y) in
      if height <=? y then []
      else
        mkCall x y c size 0 color
        :: show_string_loop x0 width height size color p
             (u16 (x + size / 2)) y
    else []
  end.

(** [spilcd_show_string]; [x0] is a [uint8_t]. *)
Definition spilcd_show_string (x y width height size : Z) (p : list Z)
    (color : Z) : list CharCall :=
  let x0 := u8 x in
  let width := u16 (width + x) in
  let height := u16 (height + y) in
  show_string_loop x0 width height size color p x y.

(** *** Vocabulary for the panel *)

(** The pixel [(px, py)] lies in the rectangle of the bitmap [e]. *)
Definition covers (e : PanelEvent) (px py : Z) : Prop :=
  match e with
  | DrawBitmap x_start y_start x_end y_end _ =>
    x_start <= px < x_end /\ y_start <= py < y_end
  | _ => False
  end.

(** Some bitmap of the log covers the pixel. *)
Definition painted (log : list PanelEvent) (px py : Z) : Prop :=
  exists e, In e log /\ covers e px py.

(** The bitmap comes with one colour for each pixel of its rectangle. *)
Definition well_sized (e : PanelEvent) : Prop :=
  match e with
  | DrawBitmap x_start y_start x_end y_end color_data =>
    Z.of_nat (length color_data) = (x_end - x_start) * (y_end - y_start)
  | _ => True
  end.

(** Every colour sent with the bitmap is [c]. *)
Definition colored (c : Z) (e : PanelEvent) : Prop :=
  match e with
  | DrawBitmap _ _ _ _ color_data => Forall (eq c) color_data
  | _ => True
  end.

(** Buffers taken from the heap and not given back. *)
Fixpoint held_buffers (log : list PanelEvent) : Z :=
  match log with
  | [] => 0
  | Alloc _ :: log => held_buffers log + 1
  | Release :: log => held_buffers log - 1
  | _ :: log => held_buffers log
  end.

(** How often the coordinate travelling [delta] of the [distance] has
    moved when the point number [t] of a line is drawn. *)
Definition line_steps (delta distance t : Z) : Z :=
  if 0 <? t * delta then (t * delta - 1) / distance else 0.

(** The point number [t] of the line from [(x1, y1)] to [(x2, y2)]. *)
Definition line_point (x1 y1 x2 y2 t : Z) : Z * Z :=
  let distance := Z.max (Z.abs (x2 - x1)) (Z.abs (y2 - y1)) in
  (x1 + Z.sgn (x2 - x1) * line_steps (Z.abs (x2 - x1)) distance t,
   y1 + Z.sgn (y2 - y1) * line_steps (Z.abs (y2 - y1)) distance t).

(** The decimal digit of [num] that belongs at the place [t] of [len]
    places. *)
Definition num_digit (num len t : Z) : Z :=
  (num / 10 ^ (len - 1 - t)) mod 10.

(** The place [t] is not the last one and every digit up to it is
    zero. *)
Definition leading (num len t : Z) : bool :=
  (t <? len - 1) && ((num / 10 ^ (len - 1 - t)) mod 10 ^ (t + 1) =? 0).

(** The character at the place [t]: [pad] on a leading zero, the digit
    otherwise. *)
Definition num_char (pad num len t : Z) : Z :=
  if leading num len t then pad else 48 + num_digit num len t.

(** The number a row of decimal digits spells. *)
Definition digits_value (calls : list CharCall) : Z :=
  fold_left (fun acc c => acc * 10 + (chr c - 48)) calls 0.

(** [spilcd_show_char] has sent a glyph of [ch_width] by [ch_height]
    pixels, after storing [beyond] pixels past the end of its buffer. *)
Definition glyph_drawn (result : option (list PanelEvent))
    (x y ch_width ch_height beyond : Z) : Prop :=
  exists color_data,
    result
    = Some ([Alloc (ch_width * ch_height * 2)]
            ++ (if 0 <? beyond then [Overrun beyond] else [])
            ++ [DrawBitmap x y (x + ch_width) (y + ch_height) color_data;
                AwaitRefresh; Release])
    /\ Z.of_nat (length color_data) = ch_width * ch_height.

(** The colour of a pixel of a glyph drawn without overlay: the ink where
    the bit of the font byte is set, white elsewhere. *)
Definition pixel_color (byte_code bit ink : Z) : Z :=
  if Z.testbit byte_code bit then ink else 0xFFFF.

(** The byte of the glyph and the bit in it that the pixel of the row [r]
    and the column [c] of the bitmap comes from. *)
Definition glyph_source (size r c : Z) : Z * Z :=
  if size =? 12 then ((6 * r + c) / 8, 7 - (6 * r + c) mod 8)
  else if size =? 16 then (r, 7 - c)
  else (2 * r + c / 8, 7 - c mod 8).

(** The pixels the byte [byte_index] of a glyph gives. *)
Definition byte_pixels (size byte_index : Z) : nat :=
  if (size =? 24) && negb (byte_index mod 2 =? 0) then 4%nat else 8%nat.

(** The pixels the bytes before the one of number [i] give. *)
Definition pixels_before (size : Z) (byte_indices : list Z) (i : nat) : nat :=
  list_sum (map (byte_pixels size) (firstn i byte_indices)).

(** [glyph_source] points to the place of the pixel in the run of pixels
    the glyph bytes give. *)
Definition source_placed (size r c : Z) : bool :=
  let byte_indices := upto (glyph_size size) in
  let i := Z.to_nat (fst (glyph_source size r c)) in
  let j := Z.to_nat (7 - snd (glyph_source size r c)) in
  Nat.ltb i (length byte_indices)
  && Nat.ltb j (byte_pixels size (nth i byte_indices 0))
  && Nat.eqb (pixels_before size byte_indices i + j)
             (Z.to_nat (r * (size / 2) + c))
  && (nth i byte_indices 0 =? fst (glyph_source size r c))
  && (7 - Z.of_nat j =? snd (glyph_source size r c)).

(** A character [spilcd_show_string] accepts. *)
Definition printable (c : Z) : Prop := 32 <= c <= 126.

(** The characters [p] side by side on the row [y], [step] pixels apart,
    from [x] on. *)
Fixpoint row_calls (x y step size color : Z) (p : list Z) : list CharCall :=
  match p with
  | [] => []
  | c :: p =>
    mkCall x y c size 0 color :: row_calls (x + step) y step size color p
  end.

(** * Properties *)

(** Case analysis on the tests and calls met along a loop turn. *)
Ltac break_step :=
  repeat match goal with
         | |- context [let (_, _) := ?x in _] => destruct x
         | |- context [if ?b then _ else _] => destruct b
         end.

(** ** The wire format *)

Lemma le_value_le_bytes (n : nat) :
  forall x, 0 <= x < 256 ^ Z.of_nat n -> le_value (le_bytes n x) = x.
Proof.
  induction n as [|n IH]; intros x Hx.
  - simpl in *. lia.
  - cbn [le_bytes le_value].
    rewrite IH.
    + pose proof (Z.div_mod x 256). lia.
    + rewrite Nat2Z.inj_succ, Z.pow_succ_r in Hx by lia.
      split.
      * apply Z.div_pos; lia.
      * apply Z.div_lt_upper_bound; lia.
Qed.

Lemma of_bytes_to_bytes (bo : byte_order) (n : nat) (x : Z) :
  0 <= x < 256 ^ Z.of_nat n -> of_bytes bo (to_bytes bo n x) = x.
Proof.
  intros Hx. destruct bo; cbn [of_bytes to_bytes].
  - now apply le_value_le_bytes.
  - rewrite rev_involutive. now apply le_value_le_bytes.
Qed.

Lemma le_bytes_length (n : nat) : forall x, length (le_bytes n x) = n.
Proof. induction n; intros; cbn [le_bytes length]; auto. Qed.

Lemma to_bytes_length (bo : byte_order) (n : nat) (x : Z) :
  length (to_bytes bo n x) = n.
Proof.
  destruct bo; cbn [to_bytes]; [|rewrite length_rev]; apply le_bytes_length.
Qed.

Lemma header_bytes_length (bo : byte_order) (h : PcmHeader) :
  length (header_bytes bo h) = sizeof_PcmHeader.
Proof.
  unfold header_bytes. rewrite !length_app, !to_bytes_length. reflexivity.
Qed.

(** A header whose fields fit their C types is read back unchanged from
    its memory image. *)
Lemma header_of_header_bytes (bo : byte_order) (h : PcmHeader) :
  0 <= magic h < 2 ^ 32 -> 0 <= len h < 2 ^ 16 ->
  header_of_bytes bo (header_bytes bo h) = h.
Proof.
  intros Hm Hl. destruct h as [m t l]; cbn [magic type len] in *.
  pose proof (of_bytes_to_bytes bo 4 m Hm) as E4.
  pose proof (of_bytes_to_bytes bo 2 l Hl) as E2.
  unfold header_of_bytes, header_bytes; cbn [magic type len].
  destruct bo; cbn [to_bytes le_bytes rev app firstn skipn nth] in *;
    rewrite E4, E2; reflexivity.
Qed.

Lemma frame_header_in_range (dir : Z) (payload : list Z) :
  let h := frame_header dir payload in
  0 <= magic h < 2 ^ 32 /\ 0 <= type h < 2 ^ 8 /\ 0 <= len h < 2 ^ 16.
Proof.
  cbn [frame_header magic type len]. unfold PCM_MAGIC, u8, u16.
  repeat split; try lia; apply Z.mod_pos_bound; lia.
Qed.

(** C1, as amended: for a direction tag 1 or 2 and a non-empty payload of
    at most 65535 bytes, the header read back from the 7 bytes built for
    them holds that direction tag and that payload byte length. *)
Theorem header_roundtrip (bo : byte_order) (dir : Z) (payload : list Z) :
  dir = 1 \/ dir = 2 ->
  payload <> [] ->
  payload_size payload <= 65535 ->
  let h := header_of_bytes bo (header_bytes bo (frame_header dir payload)) in
  magic h = PCM_MAGIC /\ type h = dir /\ len h = payload_size payload.
Proof.
  intros Hdir _ Hsize.
  destruct (frame_header_in_range dir payload) as (Hm & _ & Hl).
  cbv zeta. rewrite header_of_header_bytes by assumption.
  cbn [frame_header magic type len].
  unfold payload_size, sizeof_int16 in *.
  split; [reflexivity|]. split.
  - unfold u8. destruct Hdir; subst dir; reflexivity.
  - unfold u16, size_t.
    change (2 ^ 32) with 4294967296; change (2 ^ 16) with 65536.
    rewrite (Z.mod_small _ 4294967296) by lia. apply Z.mod_small; lia.
Qed.

Lemma header_roundtrip_witness :
  let h := header_of_bytes LittleEndian
             (header_bytes LittleEndian (frame_header 1 (repeat 0 480%nat))) in
  magic h = PCM_MAGIC /\ type h = 1 /\ len h = 960.
Proof.
  apply (header_roundtrip LittleEndian 1 (repeat 0 480%nat)).
  - left; reflexivity.
  - discriminate.
  - vm_compute; discriminate.
Defined.

(** C1, as stated, fails at a payload of 32768 samples: its 65536 bytes
    do not fit the 16-bit length field, and the header read back says 0. *)
Lemma header_roundtrip_fails_at_64k :
  let payload := repeat 0 (Z.to_nat 32768) in
  let h := header_of_bytes LittleEndian
             (header_bytes LittleEndian (frame_header 1 payload)) in
  payload <> [] /\ payload_size payload = 65536 /\ len h = 0 /\
  len h <> payload_size payload.
Proof.
  cbv zeta. split; [|split; [|split]].
  - intros H. apply (f_equal (@length Z)) in H.
    rewrite repeat_length in H. cbn [length] in H.
    apply (f_equal Z.of_nat) in H. rewrite Z2Nat.id in H; lia.
  - unfold payload_size. rewrite repeat_length, Z2Nat.id by lia. reflexivity.
  - vm_compute. reflexivity.
  - vm_compute. discriminate.
Qed.

(** The test of line 125, clause by clause. *)
Lemma invalid_packet_iff (hdr : PcmHeader) :
  invalid_packet hdr = true <->
  magic hdr <> PCM_MAGIC \/ type hdr <> 2 \/ len hdr = 0.
Proof.
  unfold invalid_packet.
  rewrite !orb_true_iff, !negb_true_iff, !Z.eqb_neq, Z.eqb_eq. tauto.
Qed.

Lemma invalid_packet_false_iff (hdr : PcmHeader) :
  invalid_packet hdr = false <->
  magic hdr = PCM_MAGIC /\ type hdr = 2 /\ len hdr <> 0.
Proof.
  unfold invalid_packet.
  rewrite !orb_false_iff, !negb_false_iff, !Z.eqb_eq, Z.eqb_neq. tauto.
Qed.

(** ** Lists and logs *)

Lemma firstn_add {A : Type} (a b : nat) :
  forall l : list A, firstn (a + b) l = firstn a l ++ firstn b (skipn a l).
Proof.
  induction a as [|a IH]; intros [|x l]; cbn [Nat.add firstn skipn app];
    try reflexivity.
  - now rewrite firstn_nil.
  - now rewrite IH.
Qed.

Lemma firstn_length_firstn {A : Type} (n : nat) :
  forall l : list A, firstn (length (firstn n l)) l = firstn n l.
Proof.
  induction n as [|n IH]; intros [|x l]; cbn [firstn length]; try reflexivity.
  now rewrite IH.
Qed.

Lemma overwrite_length (buf src : list Z) :
  length (overwrite buf src) = length buf.
Proof.
  unfold overwrite. rewrite length_firstn, length_app, length_skipn. lia.
Qed.

Lemma delays_app (l1 l2 : list Event) :
  delays (l1 ++ l2) = delays l1 ++ delays l2.
Proof.
  induction l1 as [|e l1 IH]; [reflexivity|].
  destruct e; cbn [app delays]; rewrite IH; reflexivity.
Qed.

Lemma closed_app (l1 l2 : list Event) :
  closed (l1 ++ l2) = closed l1 ++ closed l2.
Proof.
  induction l1 as [|e l1 IH]; [reflexivity|].
  destruct e; cbn [app closed]; rewrite IH; reflexivity.
Qed.

Lemma sent_on_app (sock : Z) (l1 l2 : list Event) :
  sent_on sock (l1 ++ l2) = sent_on sock l1 ++ sent_on sock l2.
Proof.
  induction l1 as [|e l1 IH]; [reflexivity|].
  destruct e; cbn [app sent_on]; rewrite IH; try reflexivity.
  destruct (sock0 =? sock); [now rewrite app_assoc | reflexivity].
Qed.

Lemma sent_on_chunks (sock : Z) (chunks : list (list Z)) :
  sent_on sock (map (EvSend sock) chunks) = concat chunks.
Proof.
  induction chunks as [|c chunks IH]; [reflexivity|].
  cbn [map sent_on concat]. now rewrite Z.eqb_refl, IH.
Qed.

Lemma delays_chunks (sock : Z) (chunks : list (list Z)) :
  delays (map (EvSend sock) chunks) = [].
Proof. induction chunks; [reflexivity | assumption]. Qed.

Lemma closed_chunks (sock : Z) (chunks : list (list Z)) :
  closed (map (EvSend sock) chunks) = [].
Proof. induction chunks; [reflexivity | assumption]. Qed.

(** ** The socket loops *)

Section SocketLoops.

Variable E : Env.

Lemma send_loop_outcome (fuel : nat) :
  forall w sock data sent,
    (sent <= length data)%nat -> (length data - sent <= fuel)%nat ->
    exists m chunks,
      send_outcome E w sock data sent
        (fst (send_loop E fuel w sock data sent))
        (snd (send_loop E fuel w sock data sent)) m chunks.
Proof.
  induction fuel as [|fuel IH]; intros w sock data sent Hle Hfuel;
    cbn [send_loop]; destruct (Nat.ltb_spec sent (length data)) as [Hlt|Hge];
    try lia.
  - exists sent, []. cbn [fst snd map concat length].
    unfold send_outcome, send_frame. rewrite !app_nil_r, !Nat.add_0_r.
    repeat split; try lia; try discriminate; try (intros; lia).
  - unfold sys_send.
    destruct (Z.leb_spec (send_ans E (n_send w)) 0) as [Hfail|Hpos].
    + rewrite (proj2 (Z.leb_le _ _) Hfail). cbn [fst snd].
      exists sent, []. unfold send_outcome, send_frame.
      cbn [map concat length next_send n_dial n_recv n_input n_send codec log].
      rewrite !app_nil_r, !Nat.add_0_r.
      repeat split; try lia; try discriminate.
    + set (taken := firstn (Z.to_nat (send_ans E (n_send w))) (skipn sent data)).
      assert (Htaken : (0 < length taken)%nat).
      { subst taken. rewrite length_firstn, length_skipn. lia. }
      assert (Htaken' : (length taken <= length data - sent)%nat).
      { subst taken. rewrite length_firstn, length_skipn. lia. }
      destruct (Z.leb_spec (Z.of_nat (length taken)) 0) as [Hbad|_]; [lia|].
      rewrite Nat2Z.id.
      set (w1 := emit (EvSend sock taken) (next_send w)).
      destruct (IH w1 sock data (sent + length taken)%nat) as (m & chunks & Hout);
        try lia.
      exists m, (taken :: chunks).
      destruct Hout as (Hm & Hfr & Hlog & Hdata & Hn & Hans & Hok & Hko).
      unfold send_outcome, send_frame in *.
      subst w1. cbn [emit next_send n_dial n_recv n_input n_send codec log] in *.
      cbn [map concat length].
      repeat split; try lia; try tauto.
      * rewrite Hlog, <- app_assoc. reflexivity.
      * rewrite <- Hdata, firstn_add, app_assoc. f_equal. f_equal.
        subst taken. now rewrite firstn_length_firstn.
      * intros k Hk. destruct (Nat.eq_dec k (n_send w)) as [->|Hne];
          [assumption | apply Hans; lia].
      * replace (n_send w + S (length chunks))%nat
          with (S (n_send w) + length chunks)%nat by lia.
        now apply Hko.
  - exists sent, []. cbn [fst snd map concat length].
    unfold send_outcome, send_frame. rewrite !app_nil_r, !Nat.add_0_r.
    repeat split; try lia; try discriminate; try (intros; lia).
Qed.

Lemma send_all_outcome (w : World) (sock : Z) (data : list Z) :
  exists m chunks,
    send_outcome E w sock data 0
      (fst (send_all E w sock data)) (snd (send_all E w sock data)) m chunks.
Proof. unfold send_all. apply send_loop_outcome; lia. Qed.

(** [send_all] fails at once on a transport whose next answer is not
    positive. *)
Lemma send_all_fails_at_once (w : World) (sock : Z) (data : list Z) :
  data <> [] -> send_ans E (n_send w) <= 0 ->
  send_all E w sock data = (next_send w, false).
Proof.
  intros Hne Hfail. destruct data as [|b data]; [congruence|].
  unfold send_all. cbn [length send_loop Nat.ltb Nat.leb].
  apply Z.leb_le in Hfail.
  unfold sys_send. cbv zeta. rewrite Hfail. cbv beta iota.
  rewrite Hfail. reflexivity.
Qed.

(** [send_all] needs one call of [::send] when the stack takes the whole
    buffer. *)
Lemma send_all_in_one_piece (w : World) (sock : Z) (data : list Z) :
  data <> [] -> Z.of_nat (length data) <= send_ans E (n_send w) ->
  send_all E w sock data = (emit (EvSend sock data) (next_send w), true).
Proof.
  intros Hne Hall. destruct data as [|b data]; [congruence|].
  unfold send_all. cbn [send_loop length Nat.ltb Nat.leb].
  unfold sys_send. cbn [skipn].
  destruct (Z.leb_spec (send_ans E (n_send w)) 0) as [Hbad|_];
    [cbn [length] in Hall; lia|].
  rewrite firstn_all2 by (cbn [length] in *; lia).
  destruct (Z.leb_spec (Z.of_nat (length (b :: data))) 0) as [Hbad|_];
    [cbn [length] in Hbad; lia|].
  rewrite Nat2Z.id. cbn [Nat.add].
  destruct data as [|b' data]; cbn [send_loop length].
  - reflexivity.
  - rewrite Nat.ltb_irrefl. reflexivity.
Qed.

Lemma recv_loop_outcome (fuel : nat) :
  forall w sock len buf,
    (length buf <= len)%nat -> (len - length buf <= fuel)%nat ->
    forall w' ok got,
      recv_loop E fuel w sock len buf = (w', ok, got) ->
      recv_outcome E w len buf w' ok got.
Proof.
  induction fuel as [|fuel IH]; intros w sock len buf Hle Hfuel w' ok got;
    cbn [recv_loop]; destruct (Nat.ltb_spec (length buf) len) as [Hlt|Hge];
    try lia.
  - intros [= <- <- <-]. unfold recv_outcome, recv_frame.
    repeat split; try lia; try discriminate.
    exists []. now rewrite app_nil_r.
  - unfold sys_recv. destruct (recv_ans E (n_recv w)) as [arrived|] eqn:Hans.
    + set (got1 := map u8 (firstn (len - length buf) arrived)).
      destruct (Z.leb_spec (Z.of_nat (length got1)) 0) as [Hnone|Hsome].
      * intros [= <- <- <-]. unfold recv_outcome, recv_frame.
        cbn [next_recv n_dial n_send n_recv n_input codec log pred].
        repeat split; try lia; try discriminate.
        -- exists []. now rewrite app_nil_r.
        -- right. rewrite Hans. f_equal.
           subst got1. rewrite length_map, length_firstn in Hnone.
           destruct arrived; [reflexivity | cbn [length] in Hnone; lia].
      * intros Hrec.
        assert (Hroom : (length got1 <= len - length buf)%nat).
        { subst got1. rewrite length_map, length_firstn. lia. }
        apply IH in Hrec; [|rewrite length_app; lia ..].
        destruct Hrec as (Hfr & Hn & (more & Hmore) & Hok & Hko).
        unfold recv_outcome, recv_frame in *.
        cbn [next_recv n_dial n_send n_recv n_input codec log] in *.
        repeat split; try tauto; try lia.
        exists (got1 ++ more). now rewrite app_assoc.
    + cbn [Z.leb Z.compare Z.opp]. intros [= <- <- <-].
      unfold recv_outcome, recv_frame.
      cbn [next_recv n_dial n_send n_recv n_input codec log pred].
      repeat split; try lia; try discriminate.
      * exists []. now rewrite app_nil_r.
      * now left.
  - intros [= <- <- <-]. unfold recv_outcome, recv_frame.
    repeat split; try lia; try discriminate.
    exists []. now rewrite app_nil_r.
Qed.

Lemma recv_all_outcome (w : World) (sock : Z) (len : nat) :
  forall w' ok got,
    recv_all E w sock len = (w', ok, got) -> recv_outcome E w len [] w' ok got.
Proof.
  unfold recv_all. intros w' ok got.
  apply recv_loop_outcome; cbn [length]; lia.
Qed.

End SocketLoops.

(** ** The downlink *)

Section Downlink.

Variable E : Env.
Variable bo : byte_order.
Variable cfg : NetConfig.

Lemma downlink_closing (w : World) (sock : Z) :
  spk_downlink_step E bo cfg (mkDownlink w (Closing sock)) =
  mkDownlink (vTaskDelay 1000 (close sock w)) Connecting.
Proof. reflexivity. Qed.

Lemma downlink_invalid (w w1 : World) (sock : Z) (image : list Z) :
  recv_all E w sock sizeof_PcmHeader = (w1, true, image) ->
  invalid_packet (header_of_bytes bo image) = true ->
  spk_downlink_step E bo cfg (mkDownlink w (Streaming sock)) =
  mkDownlink (emit (EvInvalid (header_of_bytes bo image)) w1) (Closing sock).
Proof.
  intros Hhdr Hinv. unfold spk_downlink_step. cbn [dn_world dn_phase].
  rewrite Hhdr. cbn [negb]. now rewrite Hinv.
Qed.

Lemma downlink_short (w w1 w2 : World) (sock : Z) (image got : list Z) :
  recv_all E w sock sizeof_PcmHeader = (w1, true, image) ->
  invalid_packet (header_of_bytes bo image) = false ->
  recv_all E w1 sock (Z.to_nat (len (header_of_bytes bo image))) = (w2, false, got) ->
  spk_downlink_step E bo cfg (mkDownlink w (Streaming sock)) =
  mkDownlink w2 (Closing sock).
Proof.
  intros Hhdr Hinv Hpay. unfold spk_downlink_step. cbn [dn_world dn_phase].
  rewrite Hhdr. cbn [negb]. rewrite Hinv, Hpay. reflexivity.
Qed.

Lemma downlink_played (w w1 w2 : World) (sock : Z) (image bytes : list Z) :
  recv_all E w sock sizeof_PcmHeader = (w1, true, image) ->
  invalid_packet (header_of_bytes bo image) = false ->
  recv_all E w1 sock (Z.to_nat (len (header_of_bytes bo image))) = (w2, true, bytes) ->
  let d := spk_downlink_step E bo cfg (mkDownlink w (Streaming sock)) in
  let room := (2 * Z.to_nat (len (header_of_bytes bo image) / sizeof_int16))%nat in
  dn_phase d = Streaming sock /\
  output_enabled (codec (dn_world d)) = true /\
  played (codec (dn_world d)) =
    played (codec w) ++ [samples_of_bytes bo (firstn room bytes)].
Proof.
  intros Hhdr Hinv Hpay.
  destruct (recv_all_outcome E _ _ _ _ _ _ Hhdr) as ((_ & _ & _ & Hc1 & _) & _).
  destruct (recv_all_outcome E _ _ _ _ _ _ Hpay) as ((_ & _ & _ & Hc2 & _) & _).
  unfold spk_downlink_step. cbn [dn_world dn_phase].
  rewrite Hhdr. cbn [negb]. rewrite Hinv, Hpay. cbn [negb].
  set (room := (2 * Z.to_nat (len (header_of_bytes bo image) / sizeof_int16))%nat).
  cbv zeta.
  unfold ensure_output.
  destruct (room <? length bytes)%nat;
    cbn [emit codec]; destruct (output_enabled (codec w2)) eqn:Hen;
    cbn [dn_phase dn_world with_codec codec OutputData EnableOutput
         output_enabled played emit];
    rewrite ?Hen, Hc2, Hc1; auto.
Qed.

(** C2, as amended: once the 7 bytes of a header are in, the downlink
    reports an invalid packet exactly when the magic differs from
    PCM_MAGIC, or the direction tag is not 2, or the declared length is 0;
    the rejection is not fatal, the connection is closed and the task
    goes back to connecting; a header with the magic, tag 2 and a
    non-zero length is accepted and its payload handed to playback. *)
Theorem downlink_validation (w w1 : World) (sock : Z) (image : list Z) :
  recv_all E w sock sizeof_PcmHeader = (w1, true, image) ->
  let hdr := header_of_bytes bo image in
  let d := spk_downlink_step E bo cfg (mkDownlink w (Streaming sock)) in
  (invalid_packet hdr = true <->
     magic hdr <> PCM_MAGIC \/ type hdr <> 2 \/ len hdr = 0) /\
  (invalid_packet hdr = true ->
     d = mkDownlink (emit (EvInvalid hdr) w1) (Closing sock) /\
     dn_phase (spk_downlink_step E bo cfg d) = Connecting /\
     codec (dn_world d) = codec w) /\
  (magic hdr = PCM_MAGIC -> type hdr = 2 -> len hdr <> 0 ->
     invalid_packet hdr = false /\
     ~ In (EvInvalid hdr) (skipn (length (log w)) (log (dn_world d))) /\
     forall w2 bytes,
       recv_all E w1 sock (Z.to_nat (len hdr)) = (w2, true, bytes) ->
       dn_phase d = Streaming sock /\
       exists buf, played (codec (dn_world d)) = played (codec w) ++ [buf]).
Proof.
  intros Hhdr hdr d.
  destruct (recv_all_outcome E _ _ _ _ _ _ Hhdr) as ((_ & _ & _ & Hc1 & Hl1) & _).
  split; [apply invalid_packet_iff|]. split.
  - intros Hinv. subst d hdr.
    rewrite (downlink_invalid _ _ _ _ Hhdr Hinv).
    rewrite downlink_closing. cbn [dn_phase dn_world emit codec]. auto.
  - intros Hm Ht Hl.
    assert (Hok : invalid_packet hdr = false)
      by (apply invalid_packet_false_iff; auto).
    split; [assumption|]. split.
    + subst d. unfold spk_downlink_step. cbn [dn_world dn_phase].
      rewrite Hhdr. cbn [negb]. fold hdr. rewrite Hok.
      destruct (recv_all E w1 sock (Z.to_nat (len hdr))) as [[w2 ok2] bytes] eqn:Hpay.
      destruct (recv_all_outcome E _ _ _ _ _ _ Hpay) as ((_ & _ & _ & _ & Hl2) & _).
      destruct ok2; cbn [negb dn_world].
      * set (room := (2 * Z.to_nat (len hdr / sizeof_int16))%nat).
        unfold ensure_output.
        destruct (room <? length bytes)%nat; cbn [emit codec];
          destruct (output_enabled (codec w2));
          cbn [emit codec output_enabled with_codec log dn_world];
          rewrite ?Hl2, ?Hl1, ?skipn_app, ?skipn_all, ?Nat.sub_diag;
          cbn [skipn app]; intros Hin;
          repeat (destruct Hin as [Hin|Hin]; try discriminate Hin); auto.
      * rewrite Hl2, Hl1, skipn_all. auto.
    + intros w2 bytes Hpay.
      destruct (downlink_played _ _ _ _ _ _ Hhdr Hok Hpay) as (Hp & _ & Hpl).
      split; [exact Hp|]. eexists. exact Hpl.
Qed.

End Downlink.

Lemma downlink_validation_witness :
  (let d := spk_downlink_step env_uplink_tag LittleEndian server
              (mkDownlink boot (Streaming 3)) in
   dn_phase d = Closing 3 /\
   dn_phase (spk_downlink_step env_uplink_tag LittleEndian server d) = Connecting /\
   codec (dn_world d) = codec boot) /\
  (let d := spk_downlink_step env_downlink_frame LittleEndian server
              (mkDownlink boot (Streaming 3)) in
   dn_phase d = Streaming 3 /\
   exists buf, played (codec (dn_world d)) = played (codec boot) ++ [buf]).
Proof.
  split.
  - assert (H : recv_all env_uplink_tag boot 3 sizeof_PcmHeader =
                (next_recv boot, true, [80; 67; 77; 48; 1; 2; 0]))
      by (vm_compute; reflexivity).
    destruct (downlink_validation env_uplink_tag LittleEndian server
                boot _ 3 _ H) as (_ & Hrej & _).
    destruct (Hrej eq_refl) as (Hd & Hnext & Hcodec).
    cbv zeta. rewrite Hd at 1. auto.
  - assert (H : recv_all env_downlink_frame boot 3 sizeof_PcmHeader =
                (next_recv boot, true, [80; 67; 77; 48; 2; 4; 0]))
      by (vm_compute; reflexivity).
    destruct (downlink_validation env_downlink_frame LittleEndian server
                boot _ 3 _ H) as (_ & _ & Hacc).
    destruct (Hacc eq_refl eq_refl) as (_ & _ & Hplay); [discriminate|].
    apply (Hplay (next_recv (next_recv boot)) [1; 2; 3; 4]).
    vm_compute; reflexivity.
Defined.

(** C2, as stated, fails at a header with the right magic, direction
    tag 1 and length 2: the tag is one of the two known values, yet the
    downlink discards the packet and closes the connection. *)
Lemma uplink_tag_is_rejected :
  let hdr := mkPcmHeader PCM_MAGIC 1 2 in
  magic hdr = PCM_MAGIC /\ (type hdr = 1 \/ type hdr = 2) /\ len hdr <> 0 /\
  invalid_packet hdr = true /\
  spk_downlink_step env_uplink_tag LittleEndian server
    (mkDownlink boot (Streaming 3)) =
  mkDownlink (emit (EvInvalid hdr) (next_recv boot)) (Closing 3).
Proof.
  cbv zeta. repeat split; try discriminate; auto.
Qed.

(** C3, at a frame of declared length 3: no parity test is made.  The
    buffer has room for one sample, the three bytes are stored (one past
    its end), the block goes to playback and the connection stays open. *)
Theorem odd_length_is_played :
  let d := spk_downlink_step env_odd_length LittleEndian server
             (mkDownlink boot (Streaming 3)) in
  dn_phase d = Streaming 3 /\
  played (codec (dn_world d)) = [[513]] /\
  log (dn_world d) = [EvOverrun 1] /\
  closed (log (dn_world d)) = [].
Proof. vm_compute. repeat split; reflexivity. Qed.

(** C5: when the payload read stops short of the declared length, on an
    error or on the end of the stream, the downlink closes the connection
    and goes back to connecting; nothing is handed to playback and the
    playback side of the codec is as it was before the frame. *)
Theorem short_payload_is_dropped (E : Env) (bo : byte_order) (cfg : NetConfig)
    (w w1 w2 : World) (sock : Z) (image got : list Z) :
  recv_all E w sock sizeof_PcmHeader = (w1, true, image) ->
  invalid_packet (header_of_bytes bo image) = false ->
  recv_all E w1 sock (Z.to_nat (len (header_of_bytes bo image))) = (w2, false, got) ->
  let d := spk_downlink_step E bo cfg (mkDownlink w (Streaming sock)) in
  (length got < Z.to_nat (len (header_of_bytes bo image)))%nat /\
  (recv_ans E (pred (n_recv w2)) = None \/ recv_ans E (pred (n_recv w2)) = Some []) /\
  dn_phase d = Closing sock /\
  codec (dn_world d) = codec w /\
  spk_downlink_step E bo cfg d =
    mkDownlink (vTaskDelay 1000 (close sock w2)) Connecting /\
  codec (dn_world (spk_downlink_step E bo cfg d)) = codec w.
Proof.
  intros Hhdr Hinv Hpay.
  destruct (recv_all_outcome E _ _ _ _ _ _ Hhdr) as ((_ & _ & _ & Hc1 & _) & _).
  destruct (recv_all_outcome E _ _ _ _ _ _ Hpay)
    as ((_ & _ & _ & Hc2 & _) & _ & _ & _ & Hko).
  destruct (Hko eq_refl) as (Hshort & _ & Hlast).
  cbv zeta. rewrite (downlink_short E bo cfg _ _ _ _ _ _ Hhdr Hinv Hpay).
  rewrite downlink_closing.
  cbn [dn_phase dn_world vTaskDelay close emit codec].
  rewrite Hc2, Hc1. repeat split; assumption || reflexivity.
Qed.

Lemma short_payload_is_dropped_witness :
  let d := spk_downlink_step env_short_payload LittleEndian server
             (mkDownlink boot (Streaming 3)) in
  dn_phase d = Closing 3 /\
  codec (dn_world d) = codec boot /\
  played (codec (dn_world d)) = [].
Proof.
  assert (Hhdr : recv_all env_short_payload boot 3 sizeof_PcmHeader =
                 (next_recv boot, true, [80; 67; 77; 48; 2; 10; 0]))
    by (vm_compute; reflexivity).
  assert (Hpay : recv_all env_short_payload (next_recv boot) 3
                   (Z.to_nat (len (header_of_bytes LittleEndian
                                     [80; 67; 77; 48; 2; 10; 0]))) =
                 (next_recv (next_recv (next_recv boot)), false,
                  [1; 2; 3; 4; 5; 6]))
    by (vm_compute; reflexivity).
  destruct (short_payload_is_dropped env_short_payload LittleEndian server
              _ _ _ _ _ _ Hhdr eq_refl Hpay) as (_ & _ & Hp & Hc & _).
  cbv zeta. rewrite Hc. auto.
Defined.

(** ** Connecting and reconnecting *)

Section Lifecycle.

Variable E : Env.
Variable bo : byte_order.
Variable cfg : NetConfig.

Lemma connect_to_failure (w : World) :
  connect_fails E cfg (n_dial w) = true ->
  snd (connect_to E cfg w) = -1 /\
  n_dial (fst (connect_to E cfg w)) = S (n_dial w) /\
  n_send (fst (connect_to E cfg w)) = n_send w /\
  n_recv (fst (connect_to E cfg w)) = n_recv w /\
  n_input (fst (connect_to E cfg w)) = n_input w /\
  codec (fst (connect_to E cfg w)) = codec w /\
  delays (log (fst (connect_to E cfg w))) = delays (log w).
Proof.
  unfold connect_fails, connect_to.
  destruct (getaddrinfo_ans E (n_dial w) cfg) as [err res]. cbn [fst snd].
  destruct (negb (err =? 0) || negb res); cbn [orb].
  - intros _. cbn [fst snd emit next_dial n_dial n_send n_recv n_input codec log].
    rewrite delays_app, app_nil_r. auto 10.
  - destruct (socket_ans E (n_dial w) <? 0); cbn [orb].
    + intros _. cbn [fst snd emit next_dial n_dial n_send n_recv n_input codec log].
      rewrite delays_app, app_nil_r. auto 10.
    + intros ->.
      cbn [fst snd emit close next_dial n_dial n_send n_recv n_input codec log].
      rewrite !delays_app, !app_nil_r. auto 10.
Qed.

Lemma connect_to_success (w : World) :
  connect_fails E cfg (n_dial w) = false ->
  connect_to E cfg w =
    (emit (EvDial (socket_ans E (n_dial w))) (next_dial w), socket_ans E (n_dial w)) /\
  0 <= socket_ans E (n_dial w).
Proof.
  unfold connect_fails, connect_to.
  destruct (getaddrinfo_ans E (n_dial w) cfg) as [err res]. cbn [fst snd].
  intros H. apply orb_false_iff in H as [H H3].
  apply orb_false_iff in H as [H1 H2].
  cbn [next_dial n_dial]. rewrite H1, H2, H3. split; [reflexivity|].
  apply Z.ltb_ge in H2. exact H2.
Qed.

Lemma uplink_connect_failed (w : World) (fr : list Z) :
  connect_fails E cfg (n_dial w) = true ->
  mic_uplink_step E bo cfg (mkUplink w Connecting fr) =
  mkUplink (vTaskDelay 2000 (fst (connect_to E cfg w))) Connecting fr.
Proof.
  intros H. destruct (connect_to_failure w H) as (Hret & _).
  unfold mic_uplink_step. cbn [up_world up_phase frame].
  destruct (connect_to E cfg w) as [w1 sock]. cbn [fst snd] in *.
  now subst sock.
Qed.

Lemma downlink_connect_failed (w : World) :
  connect_fails E cfg (n_dial w) = true ->
  spk_downlink_step E bo cfg (mkDownlink w Connecting) =
  mkDownlink (vTaskDelay 2000 (fst (connect_to E cfg w))) Connecting.
Proof.
  intros H. destruct (connect_to_failure w H) as (Hret & _).
  unfold spk_downlink_step. cbn [dn_world dn_phase].
  destruct (connect_to E cfg w) as [w1 sock]. cbn [fst snd] in *.
  now subst sock.
Qed.

(** A failed connect costs one wait of 2000 ms and leads back to the
    connect, whatever the number of failures in a row. *)
Lemma uplink_retries (n : nat) :
  forall w fr,
    (forall i, (i < n)%nat -> connect_fails E cfg (n_dial w + i) = true) ->
    let u := turns (mic_uplink_step E bo cfg) n (mkUplink w Connecting fr) in
    up_phase u = Connecting /\
    n_dial (up_world u) = (n_dial w + n)%nat /\
    delays (log (up_world u)) = delays (log w) ++ repeat 2000 n.
Proof.
  induction n as [|n IH]; intros w fr Hfail; cbn [turns].
  - cbn [up_phase up_world repeat]. rewrite app_nil_r. auto.
  - assert (H0 : connect_fails E cfg (n_dial w) = true)
      by (rewrite <- (Nat.add_0_r (n_dial w)); apply Hfail; lia).
    destruct (connect_to_failure w H0) as (Hret & Hd & _ & _ & _ & _ & Hlog).
    rewrite (uplink_connect_failed w fr H0).
    set (w1 := fst (connect_to E cfg w)) in *.
    destruct (IH (vTaskDelay 2000 w1) fr) as (Hp & Hn & Hl).
    { intros i Hi. cbn [vTaskDelay emit n_dial]. rewrite Hd.
      replace (S (n_dial w) + i)%nat with (n_dial w + S i)%nat by lia.
      apply Hfail. lia. }
    cbv zeta. rewrite Hp, Hn, Hl.
    cbn [vTaskDelay emit n_dial log]. rewrite Hd, delays_app, Hlog.
    cbn [delays repeat]. rewrite <- app_assoc. cbn [app].
    repeat split; auto; lia.
Qed.

Lemma downlink_retries (n : nat) :
  forall w,
    (forall i, (i < n)%nat -> connect_fails E cfg (n_dial w + i) = true) ->
    let d := turns (spk_downlink_step E bo cfg) n (mkDownlink w Connecting) in
    dn_phase d = Connecting /\
    n_dial (dn_world d) = (n_dial w + n)%nat /\
    delays (log (dn_world d)) = delays (log w) ++ repeat 2000 n.
Proof.
  induction n as [|n IH]; intros w Hfail; cbn [turns].
  - cbn [dn_phase dn_world repeat]. rewrite app_nil_r. auto.
  - assert (H0 : connect_fails E cfg (n_dial w) = true)
      by (rewrite <- (Nat.add_0_r (n_dial w)); apply Hfail; lia).
    destruct (connect_to_failure w H0) as (Hret & Hd & _ & _ & _ & _ & Hlog).
    rewrite (downlink_connect_failed w H0).
    set (w1 := fst (connect_to E cfg w)) in *.
    destruct (IH (vTaskDelay 2000 w1)) as (Hp & Hn & Hl).
    { intros i Hi. cbn [vTaskDelay emit n_dial]. rewrite Hd.
      replace (S (n_dial w) + i)%nat with (n_dial w + S i)%nat by lia.
      apply Hfail. lia. }
    cbv zeta. rewrite Hp, Hn, Hl.
    cbn [vTaskDelay emit n_dial log]. rewrite Hd, delays_app, Hlog.
    cbn [delays repeat]. rewrite <- app_assoc. cbn [app].
    repeat split; auto; lia.
Qed.

Lemma recv_all_fails_at_once (w : World) (sock : Z) (len : nat) :
  (0 < len)%nat ->
  recv_ans E (n_recv w) = None \/ recv_ans E (n_recv w) = Some [] ->
  recv_all E w sock len = (next_recv w, false, []).
Proof.
  intros Hlen Hans. destruct len as [|len]; [lia|].
  unfold recv_all. cbn [recv_loop length Nat.ltb Nat.leb].
  unfold sys_recv. destruct Hans as [-> | ->]; reflexivity.
Qed.

Lemma ensure_input_counters (w : World) :
  n_dial (ensure_input w) = n_dial w /\ n_send (ensure_input w) = n_send w /\
  n_recv (ensure_input w) = n_recv w /\ n_input (ensure_input w) = n_input w /\
  log (ensure_input w) = log w.
Proof. unfold ensure_input. destruct (input_enabled (codec w)); auto. Qed.

(** No turn of a task leads to the end of its function. *)
Lemma uplink_step_stays (u : Uplink) :
  up_phase u <> Returned -> up_phase (mic_uplink_step E bo cfg u) <> Returned.
Proof.
  intros Hu. unfold mic_uplink_step.
  destruct (up_phase u); try congruence; break_step; discriminate.
Qed.

Lemma downlink_step_stays (d : Downlink) :
  dn_phase d <> Returned -> dn_phase (spk_downlink_step E bo cfg d) <> Returned.
Proof.
  intros Hd. unfold spk_downlink_step.
  destruct (dn_phase d); try congruence; break_step; discriminate.
Qed.

Lemma uplink_never_returns (n : nat) :
  forall u, up_phase u <> Returned ->
            up_phase (turns (mic_uplink_step E bo cfg) n u) <> Returned.
Proof.
  induction n as [|n IH]; intros u Hu; cbn [turns]; [assumption|].
  apply IH, uplink_step_stays, Hu.
Qed.

Lemma downlink_never_returns (n : nat) :
  forall d, dn_phase d <> Returned ->
            dn_phase (turns (spk_downlink_step E bo cfg) n d) <> Returned.
Proof.
  induction n as [|n IH]; intros d Hd; cbn [turns]; [assumption|].
  apply IH, downlink_step_stays, Hd.
Qed.

Lemma uplink_closing (w : World) (sock : Z) (fr : list Z) :
  mic_uplink_step E bo cfg (mkUplink w (Closing sock) fr) =
  mkUplink (vTaskDelay 1000 (close sock w)) Connecting fr.
Proof. reflexivity. Qed.

Lemma header_bytes_nonempty (h : PcmHeader) : header_bytes bo h <> [].
Proof.
  intros H. apply (f_equal (@length Z)) in H.
  rewrite header_bytes_length in H. discriminate.
Qed.

(** An uplink turn in the inner loop on a transport that fails: the
    block is there, the header does not go out, the loop is left. *)
Lemma uplink_streaming_fails (w : World) (sock : Z) (fr : list Z) :
  input_ans E (n_input w) <> None ->
  send_ans E (n_send w) <= 0 ->
  up_phase (mic_uplink_step E bo cfg (mkUplink w (Streaming sock) fr)) =
  Closing sock.
Proof.
  intros Hin Hsend. unfold mic_uplink_step. cbn [up_world up_phase frame].
  destruct (ensure_input_counters w) as (_ & Hs & _ & Hi & _).
  unfold InputData. rewrite Hi.
  destruct (input_ans E (n_input w)) as [samples|]; [|congruence].
  cbn [negb]. rewrite send_all_fails_at_once.
  - reflexivity.
  - apply header_bytes_nonempty.
  - cbn [emit next_input n_send]. now rewrite Hs.
Qed.

(** From any point of the uplink, a transport that fails from now on
    leads back to the connect in at most three turns. *)
Lemma uplink_recovers (u : Uplink) :
  up_phase u <> Returned ->
  (forall k, (n_send (up_world u) <= k)%nat -> send_ans E k <= 0) ->
  input_ans E (n_input (up_world u)) <> None ->
  exists k, (k <= 3)%nat /\
            up_phase (turns (mic_uplink_step E bo cfg) k u) = Connecting.
Proof.
  destruct u as [w ph fr]. cbn [up_phase up_world].
  intros Hph Hsend Hin. destruct ph as [|sock|sock|sock|]; [| | | |congruence].
  - exists 0%nat. split; [lia | reflexivity].
  - exists 3%nat. split; [lia|]. cbn [turns].
    assert (H1 : mic_uplink_step E bo cfg (mkUplink w (Handshaking sock) fr) =
                 mkUplink (next_send w) (Streaming sock) fr).
    { unfold mic_uplink_step. cbn [up_world up_phase frame].
      rewrite send_all_fails_at_once; [reflexivity | discriminate |].
      apply Hsend; lia. }
    rewrite H1.
    pose proof (uplink_streaming_fails (next_send w) sock fr) as H2.
    cbn [next_send n_input n_send] in H2.
    specialize (H2 Hin (Hsend _ (Nat.le_succ_diag_r _))).
    destruct (mic_uplink_step E bo cfg (mkUplink (next_send w) (Streaming sock) fr))
      as [w2 ph2 fr2]. cbn [up_phase] in H2. subst ph2.
    reflexivity.
  - exists 2%nat. split; [lia|]. cbn [turns].
    pose proof (uplink_streaming_fails w sock fr Hin (Hsend _ (Nat.le_refl _))) as H2.
    destruct (mic_uplink_step E bo cfg (mkUplink w (Streaming sock) fr))
      as [w2 ph2 fr2]. cbn [up_phase] in H2. subst ph2.
    reflexivity.
  - exists 1%nat. split; [lia | reflexivity].
Qed.

Lemma downlink_streaming_fails (w : World) (sock : Z) :
  recv_ans E (n_recv w) = None \/ recv_ans E (n_recv w) = Some [] ->
  spk_downlink_step E bo cfg (mkDownlink w (Streaming sock)) =
  mkDownlink (next_recv w) (Closing sock).
Proof.
  intros Hrecv. unfold spk_downlink_step. cbn [dn_world dn_phase].
  rewrite recv_all_fails_at_once; [reflexivity | unfold sizeof_PcmHeader; lia |].
  exact Hrecv.
Qed.

(** The same for the downlink, on a transport whose reads fail. *)
Lemma downlink_recovers (d : Downlink) :
  dn_phase d <> Returned ->
  (forall k, (n_recv (dn_world d) <= k)%nat ->
             recv_ans E k = None \/ recv_ans E k = Some []) ->
  exists k, (k <= 3)%nat /\
            dn_phase (turns (spk_downlink_step E bo cfg) k d) = Connecting.
Proof.
  destruct d as [w ph]. cbn [dn_phase dn_world].
  intros Hph Hrecv. destruct ph as [|sock|sock|sock|]; [| | | |congruence].
  - exists 0%nat. split; [lia | reflexivity].
  - exists 3%nat. split; [lia|]. cbn [turns].
    unfold spk_downlink_step at 3. cbn [dn_world dn_phase].
    destruct (send_all_outcome E w sock hello_down)
      as (m & chunks & _ & (_ & Hr & _) & _).
    destruct (send_all E w sock hello_down) as [w1 ok]. cbn [fst] in Hr.
    rewrite downlink_streaming_fails by (apply Hrecv; lia).
    reflexivity.
  - exists 2%nat. split; [lia|]. cbn [turns].
    rewrite downlink_streaming_fails by (apply Hrecv; lia).
    reflexivity.
  - exists 1%nat. split; [lia | reflexivity].
Qed.

End Lifecycle.

(** C6: a connect that fails is followed by a wait of 2000 ms and by a new
    connect, however many times in a row; no turn of either task reaches
    the end of its function; and from every state that a task reaches, a
    transport that fails leads back to the connect within three turns. *)
Theorem reconnect_forever (E : Env) (bo : byte_order) (cfg : NetConfig) :
  (forall n w fr,
     (forall i, (i < n)%nat -> connect_fails E cfg (n_dial w + i) = true) ->
     let u := turns (mic_uplink_step E bo cfg) n (mkUplink w Connecting fr) in
     up_phase u = Connecting /\
     n_dial (up_world u) = (n_dial w + n)%nat /\
     delays (log (up_world u)) = delays (log w) ++ repeat 2000 n) /\
  (forall n w,
     (forall i, (i < n)%nat -> connect_fails E cfg (n_dial w + i) = true) ->
     let d := turns (spk_downlink_step E bo cfg) n (mkDownlink w Connecting) in
     dn_phase d = Connecting /\
     n_dial (dn_world d) = (n_dial w + n)%nat /\
     delays (log (dn_world d)) = delays (log w) ++ repeat 2000 n) /\
  (forall n w, up_phase (mic_uplink_task E bo cfg n w) <> Returned) /\
  (forall n w, dn_phase (spk_downlink_task E bo cfg n w) <> Returned) /\
  (forall n w,
     let u := mic_uplink_task E bo cfg n w in
     (forall k, (n_send (up_world u) <= k)%nat -> send_ans E k <= 0) ->
     input_ans E (n_input (up_world u)) <> None ->
     exists k, (k <= 3)%nat /\
               up_phase (turns (mic_uplink_step E bo cfg) k u) = Connecting) /\
  (forall n w,
     let d := spk_downlink_task E bo cfg n w in
     (forall k, (n_recv (dn_world d) <= k)%nat ->
                recv_ans E k = None \/ recv_ans E k = Some []) ->
     exists k, (k <= 3)%nat /\
               dn_phase (turns (spk_downlink_step E bo cfg) k d) = Connecting).
Proof.
  assert (Hup : forall n w, up_phase (mic_uplink_task E bo cfg n w) <> Returned)
    by (intros n w; apply uplink_never_returns; discriminate).
  assert (Hdn : forall n w, dn_phase (spk_downlink_task E bo cfg n w) <> Returned)
    by (intros n w; apply downlink_never_returns; discriminate).
  split; [|split; [|split; [|split; [|split]]]]; try assumption.
  - intros n w fr Hfail. exact (uplink_retries E bo cfg n w fr Hfail).
  - intros n w Hfail. exact (downlink_retries E bo cfg n w Hfail).
  - intros n w u Hsend Hin. exact (uplink_recovers E bo cfg u (Hup n w) Hsend Hin).
  - intros n w d Hrecv. exact (downlink_recovers E bo cfg d (Hdn n w) Hrecv).
Qed.

Lemma reconnect_forever_witness :
  (let u := turns (mic_uplink_step env_dead LittleEndian server) 3
              (mkUplink boot Connecting []) in
   up_phase u = Connecting /\ delays (log (up_world u)) = [2000; 2000; 2000]) /\
  (let d := turns (spk_downlink_step env_dead LittleEndian server) 3
              (mkDownlink boot Connecting) in
   dn_phase d = Connecting /\ delays (log (dn_world d)) = [2000; 2000; 2000]) /\
  (exists k, (k <= 3)%nat /\
     up_phase (turns (mic_uplink_step env_mute LittleEndian server) k
                 (mic_uplink_task env_mute LittleEndian server 1 boot)) = Connecting) /\
  (exists k, (k <= 3)%nat /\
     dn_phase (turns (spk_downlink_step env_mute LittleEndian server) k
                 (spk_downlink_task env_mute LittleEndian server 1 boot)) = Connecting).
Proof.
  destruct (reconnect_forever env_dead LittleEndian server) as (H1 & H2 & _).
  destruct (reconnect_forever env_mute LittleEndian server)
    as (_ & _ & _ & _ & H5 & H6).
  split; [|split; [|split]].
  - destruct (H1 3%nat boot [] (fun i _ => eq_refl)) as (Hp & _ & Hd).
    split; [exact Hp | exact Hd].
  - destruct (H2 3%nat boot (fun i _ => eq_refl)) as (Hp & _ & Hd).
    split; [exact Hp | exact Hd].
  - apply (H5 1%nat boot).
    + intros k _. cbn [env_mute send_ans]. lia.
    + discriminate.
  - apply (H6 1%nat boot). intros k _. right. reflexivity.
Defined.

(** ** The uplink *)

Section UplinkFacts.

Variable E : Env.
Variable bo : byte_order.
Variable cfg : NetConfig.

Lemma uplink_step_frame_length (u : Uplink) :
  length (frame (mic_uplink_step E bo cfg u)) = length (frame u).
Proof.
  unfold mic_uplink_step, InputData.
  destruct (up_phase u); try reflexivity.
  - break_step; reflexivity.
  - break_step; reflexivity.
  - destruct (input_ans E (n_input (ensure_input (up_world u)))); cbn [negb];
      break_step; cbn [frame]; auto using overwrite_length.
Qed.

Lemma uplink_frame_length (n : nat) :
  forall u, length (frame (turns (mic_uplink_step E bo cfg) n u)) = length (frame u).
Proof.
  induction n as [|n IH]; intros u; cbn [turns]; [reflexivity|].
  now rewrite IH, uplink_step_frame_length.
Qed.

Lemma uplink_poll_miss (w : World) (sock : Z) (fr : list Z) :
  input_ans E (n_input w) = None ->
  mic_uplink_step E bo cfg (mkUplink w (Streaming sock) fr) =
  mkUplink (vTaskDelay 5 (emit (EvPoll false) (next_input (ensure_input w))))
           (Streaming sock) fr.
Proof.
  intros Hin. unfold mic_uplink_step, InputData. cbn [up_world up_phase frame].
  destruct (ensure_input_counters w) as (_ & _ & _ & Hi & _).
  rewrite Hi, Hin. reflexivity.
Qed.

(** [K] polls without data in a row: the task stays in the inner loop
    on the same socket, and all it does is poll and wait 5 ms. *)
Lemma uplink_waits_for_data (K : nat) :
  forall w sock fr,
    (forall i, (i < K)%nat -> input_ans E (n_input w + i) = None) ->
    let u := turns (mic_uplink_step E bo cfg) K (mkUplink w (Streaming sock) fr) in
    up_phase u = Streaming sock /\ frame u = fr /\
    n_dial (up_world u) = n_dial w /\ n_send (up_world u) = n_send w /\
    n_input (up_world u) = (n_input w + K)%nat /\
    log (up_world u) = log w ++ concat (repeat [EvPoll false; EvDelay 5] K).
Proof.
  induction K as [|K IH]; intros w sock fr Hmiss; cbn [turns].
  - cbn [up_phase up_world frame repeat concat].
    rewrite app_nil_r, Nat.add_0_r. auto 10.
  - rewrite uplink_poll_miss
      by (rewrite <- (Nat.add_0_r (n_input w)); apply Hmiss; lia).
    destruct (ensure_input_counters w) as (Hd & Hs & _ & Hi & Hl).
    set (w1 := vTaskDelay 5 (emit (EvPoll false) (next_input (ensure_input w)))).
    destruct (IH w1 sock fr) as (Hp & Hf & Hnd & Hns & Hni & Hlog).
    { intros i Hi'. subst w1. cbn [vTaskDelay emit next_input n_input].
      rewrite Hi. replace (S (n_input w) + i)%nat with (n_input w + S i)%nat by lia.
      apply Hmiss. lia. }
    cbv zeta. rewrite Hp, Hf, Hnd, Hns, Hni, Hlog. subst w1.
    cbn [vTaskDelay emit next_input n_dial n_send n_input log].
    rewrite Hd, Hs, Hi, Hl. cbn [repeat concat].
    rewrite <- !app_assoc. cbn [app].
    repeat split; auto; lia.
Qed.

(** A turn of the inner loop whose poll finds data: the block is taken,
    then all the task does is send on the same socket; when the turn
    ends in the inner loop again, what went out is the header followed
    by the block. *)
Lemma uplink_pull (w : World) (sock : Z) (fr samples : list Z) :
  input_ans E (n_input w) = Some samples ->
  let u := mic_uplink_step E bo cfg (mkUplink w (Streaming sock) fr) in
  exists chunks,
    log (up_world u) = log w ++ EvPoll true :: map (EvSend sock) chunks /\
    n_dial (up_world u) = n_dial w /\
    frame u = overwrite fr (map (fun s => s16 (u16 s)) samples) /\
    (up_phase u = Streaming sock \/ up_phase u = Closing sock) /\
    (up_phase u = Streaming sock ->
       concat chunks =
       header_bytes bo (frame_header 1 (frame u)) ++ frame_bytes bo (frame u)).
Proof.
  intros Hin. unfold mic_uplink_step, InputData. cbn [up_world up_phase frame].
  destruct (ensure_input_counters w) as (Hd & _ & _ & Hi & Hl).
  rewrite Hi, Hin. cbn [negb].
  set (fr1 := overwrite fr (map (fun s => s16 (u16 s)) samples)).
  set (w2 := emit (EvPoll true) (next_input (ensure_input w))).
  destruct (send_all_outcome E w2 sock (header_bytes bo (frame_header 1 fr1)))
    as (m1 & chunks1 & _ & (Hd1 & _) & Hl1 & Hdata1 & _ & _ & Hok1 & _).
  destruct (send_all E w2 sock (header_bytes bo (frame_header 1 fr1)))
    as [w3 ok1]. cbn [fst snd] in *.
  assert (Hl2 : log w2 = log w ++ [EvPoll true])
    by (subst w2; cbn [emit next_input log]; now rewrite Hl).
  assert (Hd2 : n_dial w2 = n_dial w)
    by (subst w2; cbn [emit next_input n_dial]; exact Hd).
  destruct ok1; cbn [negb].
  - destruct (send_all_outcome E w3 sock (frame_bytes bo fr1))
      as (m2 & chunks2 & _ & (Hd3 & _) & Hl3 & Hdata2 & _ & _ & Hok2 & _).
    destruct (send_all E w3 sock (frame_bytes bo fr1)) as [w4 ok2].
    cbn [fst snd] in *.
    exists (chunks1 ++ chunks2).
    assert (Hlog : log w4 = log w ++ EvPoll true :: map (EvSend sock) (chunks1 ++ chunks2)).
    { rewrite Hl3, Hl1, Hl2, map_app, <- !app_assoc. reflexivity. }
    destruct ok2; cbn [negb up_world up_phase frame];
      (split; [exact Hlog|]); (split; [congruence|]); (split; [reflexivity|]).
    + split; [now left|]. intros _.
      rewrite concat_app.
      rewrite (Hok1 eq_refl), firstn_all in Hdata1.
      rewrite (Hok2 eq_refl), firstn_all in Hdata2.
      cbn [firstn app] in Hdata1, Hdata2. now rewrite Hdata1, Hdata2.
    + split; [now right | discriminate].
  - exists chunks1. cbn [up_world up_phase frame].
    split; [rewrite Hl1, Hl2, <- app_assoc; reflexivity|].
    split; [congruence|]. split; [reflexivity|].
    split; [now right | discriminate].
Qed.

Lemma uplink_stream_step (w0 w1 : World) (sock : Z) (fr fr1 : list Z) :
  InputData E (ensure_input w0) fr = (w1, true, fr1) ->
  mic_uplink_step E bo cfg (mkUplink w0 (Streaming sock) fr) =
  (let (w2, ok1) := send_all E w1 sock (header_bytes bo (frame_header 1 fr1)) in
   if ok1 then
     let (w3, ok2) := send_all E w2 sock (frame_bytes bo fr1) in
     mkUplink w3 (if ok2 then Streaming sock else Closing sock) fr1
   else mkUplink w2 (Closing sock) fr1).
Proof.
  intros Hin. unfold mic_uplink_step. cbn [up_world up_phase frame].
  rewrite Hin. cbn [negb].
  destruct (send_all E w1 sock (header_bytes bo (frame_header 1 fr1)))
    as [w2 [|]]; cbn [negb]; [|reflexivity].
  destruct (send_all E w2 sock (frame_bytes bo fr1)) as [w3 [|]]; reflexivity.
Qed.

End UplinkFacts.

(** C9: after [K] polls without data in a row the uplink is still in its
    inner loop on the same socket, no connect was made, and its log grew
    by [K] times a poll followed by a wait of 5 ms, so nothing was closed;
    the poll that then finds data is followed by sends on that socket
    only. *)
Theorem no_data_keeps_connection (E : Env) (bo : byte_order) (cfg : NetConfig)
    (K : nat) (w : World) (sock : Z) (fr samples : list Z) :
  (forall i, (i < K)%nat -> input_ans E (n_input w + i) = None) ->
  input_ans E (n_input w + K) = Some samples ->
  let u := turns (mic_uplink_step E bo cfg) K (mkUplink w (Streaming sock) fr) in
  let u' := mic_uplink_step E bo cfg u in
  up_phase u = Streaming sock /\
  n_dial (up_world u) = n_dial w /\
  log (up_world u) = log w ++ concat (repeat [EvPoll false; EvDelay 5] K) /\
  closed (log (up_world u)) = closed (log w) /\
  delays (log (up_world u)) = delays (log w) ++ repeat 5 K /\
  n_dial (up_world u') = n_dial w /\
  exists chunks,
    log (up_world u') =
      log (up_world u) ++ EvPoll true :: map (EvSend sock) chunks.
Proof.
  intros Hmiss Hdata.
  destruct (uplink_waits_for_data E bo cfg K w sock fr Hmiss)
    as (Hp & Hf & Hd & Hs & Hi & Hl).
  cbv zeta.
  set (u := turns (mic_uplink_step E bo cfg) K (mkUplink w (Streaming sock) fr)) in *.
  assert (Hrep : forall n, closed (concat (repeat [EvPoll false; EvDelay 5] n)) = []
                           /\ delays (concat (repeat [EvPoll false; EvDelay 5] n))
                              = repeat 5 n).
  { induction n as [|n [IHc IHd]]; [split; reflexivity|].
    cbn [repeat concat app closed delays]. now rewrite IHc, IHd. }
  split; [exact Hp|]. split; [exact Hd|]. split; [exact Hl|].
  split; [rewrite Hl, closed_app, (proj1 (Hrep K)), app_nil_r; reflexivity|].
  split; [rewrite Hl, delays_app, (proj2 (Hrep K)); reflexivity|].
  destruct u as [wK phK frK]. cbn [up_phase up_world frame] in *. subst phK.
  rewrite <- Hi in Hdata.
  destruct (uplink_pull E bo cfg wK sock frK samples Hdata)
    as (chunks & Hlog & Hdial & _).
  split; [congruence|]. exists chunks. exact Hlog.
Qed.

Lemma no_data_keeps_connection_witness :
  let u := turns (mic_uplink_step env_slow_mic LittleEndian server) 4
             (mkUplink boot (Streaming 3) (repeat 0 480%nat)) in
  up_phase u = Streaming 3 /\
  n_dial (up_world u) = 0%nat /\
  log (up_world u) =
    [EvPoll false; EvDelay 5; EvPoll false; EvDelay 5;
     EvPoll false; EvDelay 5; EvPoll false; EvDelay 5].
Proof.
  assert (Hmiss : forall i, (i < 4)%nat ->
            input_ans env_slow_mic (n_input boot + i) = None).
  { intros i Hi. do 4 (destruct i as [|i]; [reflexivity|]). lia. }
  destruct (no_data_keeps_connection env_slow_mic LittleEndian server 4 boot 3
              (repeat 0 480%nat) [1; 2] Hmiss eq_refl) as (Hp & Hd & Hl & _).
  cbv zeta. split; [exact Hp|]. split; [exact Hd | exact Hl].
Defined.

(** C8: [send_all] on a buffer of n bytes returns true only after all n
    bytes have gone out, in order, every call of [::send] on the way
    having returned a positive count; it returns false exactly after a
    call of [::send] that returned zero or less, with fewer than n bytes
    out.  In the inner loop of the uplink a false from either [send_all]
    of a frame leads to the close of the socket, a wait and a new
    connect. *)
Theorem send_all_completes_or_closes (E : Env) (bo : byte_order)
    (cfg : NetConfig) (w : World) (sock : Z) (data : list Z) :
  let w' := fst (send_all E w sock data) in
  let ok := snd (send_all E w sock data) in
  (ok = true ->
     sent_on sock (log w') = sent_on sock (log w) ++ data /\
     forall k, (n_send w <= k < n_send w')%nat -> 0 < send_ans E k) /\
  (ok = false ->
     exists m, (m < length data)%nat /\
       sent_on sock (log w') = sent_on sock (log w) ++ firstn m data /\
       (n_send w < n_send w')%nat /\
       send_ans E (pred (n_send w')) <= 0 /\
       forall k, (n_send w <= k < pred (n_send w'))%nat -> 0 < send_ans E k) /\
  (forall w0 fr w1 fr1,
     InputData E (ensure_input w0) fr = (w1, true, fr1) ->
     let u := mic_uplink_step E bo cfg (mkUplink w0 (Streaming sock) fr) in
     let hdr := header_bytes bo (frame_header 1 fr1) in
     let w2 := fst (send_all E w1 sock hdr) in
     (snd (send_all E w1 sock hdr) = false ->
        u = mkUplink w2 (Closing sock) fr1) /\
     (snd (send_all E w1 sock hdr) = true ->
      snd (send_all E w2 sock (frame_bytes bo fr1)) = false ->
        u = mkUplink (fst (send_all E w2 sock (frame_bytes bo fr1)))
                     (Closing sock) fr1) /\
     (up_phase u = Closing sock ->
        up_phase (mic_uplink_step E bo cfg u) = Connecting /\
        log (up_world (mic_uplink_step E bo cfg u)) =
          log (up_world u) ++ [EvClose sock; EvDelay 1000])).
Proof.
  cbv zeta.
  destruct (send_all_outcome E w sock data)
    as (m & chunks & Hm & _ & Hlog & Hdata & Hn & Hans & Hok & Hko).
  cbn [firstn app] in Hdata.
  split; [|split].
  - intros Ht. specialize (Hok Ht). subst m.
    rewrite firstn_all in Hdata. rewrite Ht in Hn.
    split.
    + now rewrite Hlog, sent_on_app, sent_on_chunks, Hdata.
    + intros k Hk. apply Hans. lia.
  - intros Hf. destruct (Hko Hf) as (Hlt & Hlast). rewrite Hf in Hn.
    exists m. rewrite Hn.
    replace (pred (n_send w + length chunks + 1))
      with (n_send w + length chunks)%nat by lia.
    repeat split; try lia; try assumption;
      try (now rewrite Hlog, sent_on_app, sent_on_chunks, Hdata);
      try (apply Hans; lia).
  - intros w0 fr w1 fr1 Hin.
    rewrite (uplink_stream_step E bo cfg _ _ sock _ _ Hin).
    destruct (send_all E w1 sock (header_bytes bo (frame_header 1 fr1)))
      as [w2 ok1]. cbn [fst snd].
    destruct ok1; cbn [negb].
    + destruct (send_all E w2 sock (frame_bytes bo fr1)) as [w3 ok2].
      cbn [fst snd]. destruct ok2; cbn [negb up_phase].
      * repeat split; discriminate.
      * repeat split; try discriminate; try reflexivity;
          rewrite ?uplink_closing;
          cbn [up_phase up_world vTaskDelay close emit log];
          rewrite <- ?app_assoc; reflexivity.
    + repeat split; try discriminate; try reflexivity;
        rewrite ?uplink_closing;
        cbn [up_phase up_world vTaskDelay close emit log];
        rewrite <- ?app_assoc; reflexivity.
Qed.

Lemma send_all_completes_or_closes_witness :
  (let r := send_all env_choppy boot 3 [1; 2; 3; 4; 5; 6; 7] in
   sent_on 3 (log (fst r)) = [1; 2; 3; 4; 5; 6; 7]) /\
  (let r := send_all env_stalls boot 3 [1; 2; 3; 4; 5; 6; 7] in
   exists m, (m < 7)%nat /\ sent_on 3 (log (fst r)) = firstn m [1; 2; 3; 4; 5; 6; 7]) /\
  (let u := mic_uplink_step env_stalls LittleEndian server
              (mkUplink boot (Streaming 3) (repeat 0 480%nat)) in
   up_phase u = Closing 3 /\
   up_phase (mic_uplink_step env_stalls LittleEndian server u) = Connecting).
Proof.
  split; [|split].
  - destruct (send_all_completes_or_closes env_choppy LittleEndian server
                boot 3 [1; 2; 3; 4; 5; 6; 7]) as (Hok & _).
    destruct (Hok eq_refl) as (Hsent & _). exact Hsent.
  - destruct (send_all_completes_or_closes env_stalls LittleEndian server
                boot 3 [1; 2; 3; 4; 5; 6; 7]) as (_ & Hko & _).
    destruct (Hko eq_refl) as (m & Hm & Hsent & _).
    exists m. split; [exact Hm | exact Hsent].
  - destruct (send_all_completes_or_closes env_stalls LittleEndian server
                boot 3 []) as (_ & _ & Hloop).
    destruct (Hloop boot (repeat 0 480%nat) _ _ eq_refl) as (Hhdr & _ & Hnext).
    cbv zeta. rewrite (Hhdr eq_refl). cbn [up_phase].
    split; [reflexivity|].
    rewrite (Hhdr eq_refl) in Hnext. apply Hnext. reflexivity.
Defined.

(** ** The block size and the uplink header *)

Lemma frame_size_formula (c : Codec) :
  frame_size c = (Z.quot (input_sample_rate c) 50 * input_channels c) mod 2 ^ 32.
Proof.
  unfold frame_size, size_t. rewrite <- Z.mul_mod by discriminate. reflexivity.
Qed.

Lemma frame_size_range (c : Codec) : 0 <= frame_size c < 2 ^ 32.
Proof. rewrite frame_size_formula. apply Z.mod_pos_bound. reflexivity. Qed.

Lemma frame_bytes_length (bo : byte_order) (fr : list Z) :
  length (frame_bytes bo fr) = (2 * length fr)%nat.
Proof.
  unfold frame_bytes. induction fr as [|s fr IH]; [reflexivity|].
  cbn [flat_map]. rewrite length_app, to_bytes_length, IH. cbn [length]. lia.
Qed.

Lemma uplink_task_frame (E : Env) (bo : byte_order) (cfg : NetConfig)
    (n : nat) (w : World) :
  Z.of_nat (length (frame (mic_uplink_task E bo cfg n w))) = frame_size (codec w).
Proof.
  unfold mic_uplink_task. rewrite uplink_frame_length.
  unfold mic_uplink_start. cbn [frame]. rewrite repeat_length.
  apply Z2Nat.id, frame_size_range.
Qed.

(** C7: at every turn of the uplink task the block has the size computed
    before the loop, (sample_rate / 50) * channels samples in the
    arithmetic of [size_t], which is that product itself whenever the
    product is a [size_t]; at 24000 Hz, one channel, the block holds 480
    samples, its payload is 960 bytes long and the header built for it
    declares 960.  And this is what goes out: a turn of the inner loop
    that sends a frame puts on its socket 7 header bytes followed by the
    bytes of a block of that size, two for each sample, and the header
    read back from those 7 bytes declares the byte size of the block (its
    low 16 bits); at 24000 Hz, one channel, the payload sent is 960
    bytes long and the header sent reads PCM_MAGIC, tag 1, length 960. *)
Theorem uplink_block_size (E : Env) (bo : byte_order) (cfg : NetConfig)
    (n : nat) (w : World) :
  let c := codec w in
  let u := mic_uplink_task E bo cfg n w in
  Z.of_nat (length (frame u)) =
    size_t (size_t (Z.quot (input_sample_rate c) 50) * size_t (input_channels c)) /\
  (0 <= Z.quot (input_sample_rate c) 50 * input_channels c < 2 ^ 32 ->
     Z.of_nat (length (frame u)) =
     Z.quot (input_sample_rate c) 50 * input_channels c) /\
  (input_sample_rate c = 24000 -> input_channels c = 1 ->
     length (frame u) = 480%nat /\
     payload_size (frame u) = 960 /\
     length (frame_bytes bo (frame u)) = 960%nat /\
     len (frame_header 1 (frame u)) = payload_size (frame u)) /\
  (forall sock samples,
     up_phase u = Streaming sock ->
     input_ans E (n_input (up_world u)) = Some samples ->
     let u' := mic_uplink_step E bo cfg u in
     up_phase u' = Streaming sock ->
     exists header payload,
       sent_on sock (log (up_world u')) =
         sent_on sock (log (up_world u)) ++ header ++ payload /\
       length header = sizeof_PcmHeader /\
       payload = frame_bytes bo (frame u') /\
       Z.of_nat (length (frame u')) =
         size_t (size_t (Z.quot (input_sample_rate c) 50)
                 * size_t (input_channels c)) /\
       Z.of_nat (length payload) = payload_size (frame u') /\
       len (header_of_bytes bo header) = u16 (size_t (payload_size (frame u'))) /\
       (input_sample_rate c = 24000 -> input_channels c = 1 ->
          length (frame u') = 480%nat /\
          length payload = 960%nat /\
          header_of_bytes bo header = mkPcmHeader PCM_MAGIC 1 960)).
Proof.
  cbv zeta. pose proof (uplink_task_frame E bo cfg n w) as Hlen.
  split; [exact Hlen|].
  split; [|split].
  - intros Hrange. rewrite Hlen, frame_size_formula. now apply Z.mod_small.
  - intros Hsr Hch. rewrite frame_size_formula, Hsr, Hch in Hlen.
    change (Z.quot 24000 50 * 1 mod 2 ^ 32) with 480 in Hlen.
    assert (Hn : length (frame (mic_uplink_task E bo cfg n w)) = 480%nat) by lia.
    rewrite frame_bytes_length.
    unfold payload_size, frame_header; cbn [len]. rewrite Hn.
    repeat split; reflexivity.
  - set (u := mic_uplink_task E bo cfg n w) in *.
    intros sock samples Hph Hin Hph'.
    destruct u as [wn phn frn]. cbn [up_phase up_world frame] in *. subst phn.
    destruct (uplink_pull E bo cfg wn sock frn samples Hin)
      as (chunks & Hlog & _ & Hfr & _ & Hsent).
    set (u' := mic_uplink_step E bo cfg (mkUplink wn (Streaming sock) frn)) in *.
    assert (Hlen' : Z.of_nat (length (frame u')) = frame_size (codec w))
      by (rewrite Hfr, overwrite_length; exact Hlen).
    destruct (frame_header_in_range 1 (frame u')) as (Hm & _ & Hl).
    exists (header_bytes bo (frame_header 1 (frame u'))),
           (frame_bytes bo (frame u')).
    split; [|split; [|split; [|split; [|split; [|split]]]]].
    + rewrite Hlog, sent_on_app. cbn [sent_on].
      rewrite sent_on_chunks, (Hsent Hph'). reflexivity.
    + apply header_bytes_length.
    + reflexivity.
    + exact Hlen'.
    + rewrite frame_bytes_length. unfold payload_size, sizeof_int16. lia.
    + rewrite header_of_header_bytes by assumption. reflexivity.
    + intros Hsr Hch. rewrite frame_size_formula, Hsr, Hch in Hlen'.
      change (Z.quot 24000 50 * 1 mod 2 ^ 32) with 480 in Hlen'.
      assert (Hn : length (frame u') = 480%nat) by lia.
      split; [exact Hn|]. split.
      * rewrite frame_bytes_length, Hn. reflexivity.
      * rewrite header_of_header_bytes by assumption.
        unfold frame_header. rewrite Hn. reflexivity.
Qed.

Lemma uplink_block_size_witness :
  let u := mic_uplink_task env_choppy LittleEndian server 2 boot in
  let u' := mic_uplink_step env_choppy LittleEndian server u in
  Z.of_nat (length (frame u)) = Z.quot INPUT_SR 50 * 1 /\
  length (frame u) = 480%nat /\
  payload_size (frame u) = 960 /\
  length (frame_bytes LittleEndian (frame u)) = 960%nat /\
  len (frame_header 1 (frame u)) = payload_size (frame u) /\
  exists header payload,
    sent_on 3 (log (up_world u')) =
      sent_on 3 (log (up_world u)) ++ header ++ payload /\
    length payload = 960%nat /\
    header_of_bytes LittleEndian header = mkPcmHeader PCM_MAGIC 1 960.
Proof.
  destruct (uplink_block_size env_choppy LittleEndian server 2 boot)
    as (_ & Hgen & H24k & Hsent).
  split; [apply Hgen; vm_compute; split; [discriminate | reflexivity]|].
  destruct (H24k eq_refl eq_refl) as (H1 & H2 & H3 & H4).
  split; [exact H1|]. split; [exact H2|]. split; [exact H3|].
  split; [exact H4|].
  destruct (Hsent 3 [1; 2]) as (header & payload & Hlog & _ & _ & _ & _ & _ & Hwire);
    try (vm_compute; reflexivity).
  destruct (Hwire eq_refl eq_refl) as (_ & Hpay & Hhdr).
  exists header, payload.
  split; [exact Hlog|]. split; [exact Hpay | exact Hhdr].
Defined.

Lemma frame_header_len (dir : Z) (fr : list Z) :
  len (frame_header dir fr) = (Z.of_nat (length fr) * 2) mod 2 ^ 16.
Proof.
  cbn [frame_header len]. unfold u16, size_t, sizeof_int16.
  apply Z.mod_mod_divide. exists (2 ^ 16). reflexivity.
Qed.

Lemma frame_header_same_length (dir : Z) (fr fr' : list Z) :
  length fr = length fr' -> frame_header dir fr = frame_header dir fr'.
Proof. unfold frame_header. now intros ->. Qed.

(** C10, as amended: at every turn of the uplink task the header built
    for the block is the one built for the block allocated at the start;
    it holds PCM_MAGIC, direction tag 1 and the low 16 bits of the byte
    size of the block, an even number; that number is the byte size
    itself, and not zero, when the byte size lies between 1 and 65535; and
    a turn of the inner loop that sends a frame sends this header
    followed by the block. *)
Theorem uplink_header_fixed (E : Env) (bo : byte_order) (cfg : NetConfig)
    (n : nat) (w : World) :
  let u := mic_uplink_task E bo cfg n w in
  let h := frame_header 1 (frame u) in
  let size := frame_size (codec w) * sizeof_int16 in
  h = frame_header 1 (frame (mic_uplink_start w)) /\
  magic h = PCM_MAGIC /\ type h = 1 /\
  len h = size mod 2 ^ 16 /\
  Z.even (len h) = true /\
  (0 < size < 2 ^ 16 -> len h = size /\ len h <> 0) /\
  (forall sock samples,
     up_phase u = Streaming sock ->
     input_ans E (n_input (up_world u)) = Some samples ->
     let u' := mic_uplink_step E bo cfg u in
     up_phase u' = Streaming sock ->
     sent_on sock (log (up_world u')) =
       sent_on sock (log (up_world u)) ++ header_bytes bo h ++ frame_bytes bo (frame u')).
Proof.
  cbv zeta. pose proof (uplink_task_frame E bo cfg n w) as Hlen.
  set (u := mic_uplink_task E bo cfg n w) in *.
  assert (Hl : len (frame_header 1 (frame u)) =
               (frame_size (codec w) * sizeof_int16) mod 2 ^ 16).
  { rewrite frame_header_len, Hlen. reflexivity. }
  split; [|split; [|split; [|split; [|split; [|split]]]]].
  - apply frame_header_same_length. subst u. unfold mic_uplink_task.
    now rewrite uplink_frame_length.
  - reflexivity.
  - reflexivity.
  - exact Hl.
  - rewrite Hl. unfold sizeof_int16.
    change (2 ^ 16) with (2 ^ 15 * 2).
    rewrite Z.mul_mod_distr_r by discriminate.
    rewrite Z.even_mul. apply orb_true_r.
  - intros Hsize. rewrite Hl, Z.mod_small by lia. split; [reflexivity | lia].
  - intros sock samples Hph Hin Hph'.
    destruct u as [wn phn frn]. cbn [up_phase up_world frame] in *. subst phn.
    destruct (uplink_pull E bo cfg wn sock frn samples Hin)
      as (chunks & Hlog & _ & Hfr & _ & Hsent).
    rewrite Hlog, sent_on_app. cbn [sent_on].
    rewrite sent_on_chunks, (Hsent Hph'). do 2 f_equal. f_equal.
    apply frame_header_same_length. rewrite Hfr. apply overwrite_length.
Qed.

Lemma uplink_header_fixed_witness :
  let u := mic_uplink_task env_choppy LittleEndian server 2 boot in
  len (frame_header 1 (frame u)) = 960 /\
  sent_on 3 (log (up_world (mic_uplink_step env_choppy LittleEndian server u))) =
    sent_on 3 (log (up_world u))
    ++ header_bytes LittleEndian (frame_header 1 (frame u))
    ++ frame_bytes LittleEndian
         (frame (mic_uplink_step env_choppy LittleEndian server u)).
Proof.
  destruct (uplink_header_fixed env_choppy LittleEndian server 2 boot)
    as (_ & _ & _ & _ & _ & Hsize & Hsent).
  split.
  - apply Hsize. vm_compute. split; reflexivity.
  - apply (Hsent 3 [1; 2]); vm_compute; reflexivity.
Defined.

(** C10, as stated, fails for a codec whose block is 32768 samples long:
    the 65536 bytes of the block do not fit the 16-bit field, and every
    frame goes out with a declared length of 0. *)
Lemma uplink_header_zero_length :
  let u := mic_uplink_task env_choppy LittleEndian server 2 boot_wide in
  length (frame u) = Z.to_nat 32768 /\
  payload_size (frame u) = 65536 /\
  len (frame_header 1 (frame u)) = 0 /\
  up_phase u = Streaming 3 /\
  up_phase (mic_uplink_step env_choppy LittleEndian server u) = Streaming 3 /\
  firstn 7 (skipn 8
     (sent_on 3 (log (up_world (mic_uplink_step env_choppy LittleEndian server u)))))
    = [80; 67; 77; 48; 1; 0; 0].
Proof.
  cbv zeta.
  assert (Hlen : length (frame (mic_uplink_task env_choppy LittleEndian server 2
                                  boot_wide)) = Z.to_nat 32768).
  { unfold mic_uplink_task. rewrite uplink_frame_length.
    unfold mic_uplink_start. cbn [frame]. rewrite repeat_length. reflexivity. }
  split; [exact Hlen|]. split; [|split].
  - unfold payload_size. rewrite Hlen. reflexivity.
  - rewrite frame_header_len, Hlen. reflexivity.
  - vm_compute. repeat split; reflexivity.
Qed.

(** C4, at a transport whose first send fails: the result of the
    [send_all] of the direction token is not looked at.  Both tasks go
    on to their inner loop on that connection in every case; in the
    scenario the uplink sends a frame, no token before it, and the
    downlink plays the frame it receives; neither closes the socket. *)
Theorem token_failure_is_ignored :
  (forall E bo cfg w sock fr,
     up_phase (mic_uplink_step E bo cfg (mkUplink w (Handshaking sock) fr))
     = Streaming sock) /\
  (forall E bo cfg w sock,
     dn_phase (spk_downlink_step E bo cfg (mkDownlink w (Handshaking sock)))
     = Streaming sock) /\
  (let u := mic_uplink_task env_token_fails LittleEndian server 3 boot in
   send_ans env_token_fails 0 = -1 /\
   up_phase u = Streaming 3 /\
   closed (log (up_world u)) = [] /\
   sent_on 3 (log (up_world u)) =
     header_bytes LittleEndian (frame_header 1 (frame u))
     ++ frame_bytes LittleEndian (frame u)) /\
  (let d := spk_downlink_task env_token_fails LittleEndian server 3 boot in
   dn_phase d = Streaming 3 /\
   closed (log (dn_world d)) = [] /\
   sent_on 3 (log (dn_world d)) = [] /\
   played (codec (dn_world d)) = [[513; 1027]]).
Proof.
  split; [|split; [|split]].
  - intros E bo cfg w sock fr. unfold mic_uplink_step.
    cbn [up_world up_phase frame].
    destruct (send_all E w sock hello_up). reflexivity.
  - intros E bo cfg w sock. unfold spk_downlink_step. cbn [dn_world dn_phase].
    destruct (send_all E w sock hello_down). reflexivity.
  - vm_compute. repeat split; reflexivity.
  - vm_compute. repeat split; reflexivity.
Qed.

(** * Further properties of net_stream.cc *)

(** ** [recv_all] *)

Lemma recv_loop_pieces (E : Env) (fuel : nat) :
  forall w sock len buf,
    (length buf <= len)%nat -> (len - length buf <= fuel)%nat ->
    forall w' ok got,
      recv_loop E fuel w sock len buf = (w', ok, got) ->
      exists pieces,
        got = buf ++ concat pieces /\
        n_recv w' = (n_recv w + length pieces + (if ok then 0 else 1))%nat /\
        forall i piece,
          nth_error pieces i = Some piece ->
          piece <> [] /\
          exists arrived,
            recv_ans E (n_recv w + i) = Some arrived /\
            piece = map u8 (firstn (length piece) arrived).
Proof.
  induction fuel as [|fuel IH]; intros w sock len buf Hle Hfuel w' ok got;
    cbn [recv_loop]; destruct (Nat.ltb_spec (length buf) len) as [Hlt|Hge];
    try lia.
  - intros [= <- <- <-]. exists []. cbn [concat length].
    rewrite app_nil_r. split; [reflexivity|]. split; [lia|].
    intros [|i] piece Hn; discriminate Hn.
  - unfold sys_recv. destruct (recv_ans E (n_recv w)) as [arrived|] eqn:Hans.
    + set (got1 := map u8 (firstn (len - length buf) arrived)).
      destruct (Z.leb_spec (Z.of_nat (length got1)) 0) as [Hnone|Hsome].
      * intros [= <- <- <-]. exists []. cbn [concat length next_recv n_recv].
        rewrite app_nil_r. split; [reflexivity|]. split; [lia|].
        intros [|i] piece Hn; discriminate Hn.
      * intros Hrec.
        assert (Hroom : (length got1 <= len - length buf)%nat).
        { subst got1. rewrite length_map, length_firstn. lia. }
        apply IH in Hrec; [|rewrite length_app; lia ..].
        destruct Hrec as (pieces & Hgot & Hn & Hpieces).
        exists (got1 :: pieces). cbn [concat length next_recv n_recv] in *.
        split; [now rewrite Hgot, <- app_assoc|]. split; [lia|].
        intros [|i] piece Hnth; cbn [nth_error] in Hnth.
        -- injection Hnth as <-. split.
           ++ intros Hnil. rewrite Hnil in Hsome. cbn [length] in Hsome. lia.
           ++ exists arrived. rewrite Nat.add_0_r. split; [exact Hans|].
              subst got1. rewrite length_map, firstn_length_firstn. reflexivity.
        -- destruct (Hpieces i piece Hnth) as (Hne & arr & Harr & Hpiece).
           split; [exact Hne|]. exists arr.
           replace (n_recv w + S i)%nat with (S (n_recv w) + i)%nat by lia.
           split; assumption.
    + cbn [Z.leb Z.compare Z.opp]. intros [= <- <- <-].
      exists []. cbn [concat length next_recv n_recv].
      rewrite app_nil_r. split; [reflexivity|]. split; [lia|].
      intros [|i] piece Hn; discriminate Hn.
  - intros [= <- <- <-]. exists []. cbn [concat length].
    rewrite app_nil_r. split; [reflexivity|]. split; [lia|].
    intros [|i] piece Hn; discriminate Hn.
Qed.

(** X1: [recv_all] returns true only with exactly [len] bytes stored, made
    of the non-empty pieces that the calls of [::recv] delivered, in the
    order of the calls; it returns false only after a call that reported
    an error or the end of the stream, with fewer than [len] bytes
    stored; it makes at most [len] successful calls, and touches neither
    the log nor the codec. *)
Theorem recv_all_contract (E : Env) (w w' : World) (sock : Z) (len : nat)
    (ok : bool) (got : list Z) :
  recv_all E w sock len = (w', ok, got) ->
  (ok = true -> length got = len) /\
  (ok = false ->
     (length got < len)%nat /\ (n_recv w < n_recv w')%nat /\
     (recv_ans E (pred (n_recv w')) = None \/
      recv_ans E (pred (n_recv w')) = Some [])) /\
  (exists pieces,
     got = concat pieces /\
     (length pieces <= len)%nat /\
     n_recv w' = (n_recv w + length pieces + (if ok then 0 else 1))%nat /\
     forall i piece,
       nth_error pieces i = Some piece ->
       piece <> [] /\
       exists arrived,
         recv_ans E (n_recv w + i) = Some arrived /\
         piece = map u8 (firstn (length piece) arrived)) /\
  log w' = log w /\ codec w' = codec w /\ n_send w' = n_send w.
Proof.
  intros Hrecv.
  destruct (recv_all_outcome E _ _ _ _ _ _ Hrecv)
    as ((_ & Hs & _ & Hc & Hl) & _ & _ & Hok & Hko).
  unfold recv_all in Hrecv.
  destruct (recv_loop_pieces E len w sock len [] (Nat.le_0_l _)
              ltac:(cbn [length]; lia) _ _ _ Hrecv)
    as (pieces & Hgot & Hn & Hpieces).
  cbn [app] in Hgot.
  split; [exact Hok|]. split; [exact Hko|]. split; [|auto].
  exists pieces. split; [exact Hgot|]. split; [|split; assumption].
  assert (Hlen : (length got <= len)%nat).
  { destruct ok; [rewrite (Hok eq_refl); lia|].
    destruct (Hko eq_refl) as (H & _). lia. }
  assert (Hcount : forall ps : list (list Z),
             (forall i p, nth_error ps i = Some p -> p <> []) ->
             (length ps <= length (concat ps))%nat).
  { induction ps as [|p ps IHps]; intros Hne; [cbn; lia|].
    cbn [concat length]. rewrite length_app.
    assert (Hp : p <> []) by (apply (Hne 0%nat); reflexivity).
    assert (Hps : (length ps <= length (concat ps))%nat)
      by (apply IHps; intros i q Hq; apply (Hne (S i)); exact Hq).
    destruct p; [congruence | cbn [length]; lia]. }
  rewrite Hgot in Hlen.
  specialize (Hcount pieces (fun i p Hp => proj1 (Hpieces i p Hp))). lia.
Qed.

Lemma recv_all_contract_witness :
  (exists w', recv_all env_pieces boot 3 7 = (w', true, [80; 67; 77; 48; 2; 4; 0])
              /\ n_recv w' = 2%nat) /\
  (exists w' got, recv_all env_short_payload (next_recv boot) 3 10 = (w', false, got)
                  /\ (length got < 10)%nat).
Proof.
  split.
  - exists (next_recv (next_recv boot)).
    assert (H : recv_all env_pieces boot 3 7 =
                (next_recv (next_recv boot), true, [80; 67; 77; 48; 2; 4; 0]))
      by (vm_compute; reflexivity).
    destruct (recv_all_contract env_pieces _ _ _ _ _ _ H) as (Hok & _).
    specialize (Hok eq_refl). split; [exact H | reflexivity].
  - exists (next_recv (next_recv (next_recv boot))), [1; 2; 3; 4; 5; 6].
    assert (H : recv_all env_short_payload (next_recv boot) 3 10 =
                (next_recv (next_recv (next_recv boot)), false, [1; 2; 3; 4; 5; 6]))
      by (vm_compute; reflexivity).
    destruct (recv_all_contract env_short_payload _ _ _ _ _ _ H) as (_ & Hko & _).
    destruct (Hko eq_refl) as (Hshort & _). split; [exact H | exact Hshort].
Defined.

(** ** [connect_to] and the sockets of the tasks *)

(** X2: [connect_to] counts as one call and returns either -1 or the
    descriptor that [::socket] gave, which is then not negative; it
    returns the descriptor exactly when no step of the connect fails; a
    descriptor whose [::connect] failed is closed before the return, and
    nothing is closed in the other cases. *)
Theorem connect_to_result (E : Env) (cfg : NetConfig) (w : World) :
  let w' := fst (connect_to E cfg w) in
  let ret := snd (connect_to E cfg w) in
  n_dial w' = S (n_dial w) /\
  (ret = -1 \/ 0 <= ret) /\
  (0 <= ret <-> connect_fails E cfg (n_dial w) = false) /\
  (0 <= ret ->
     ret = socket_ans E (n_dial w) /\ socket_made E cfg (n_dial w) = true /\
     log w' = log w ++ [EvDial ret]) /\
  (ret = -1 -> socket_made E cfg (n_dial w) = true ->
     log w' = log w ++ [EvClose (socket_ans E (n_dial w)); EvDial (-1)]) /\
  (ret = -1 -> socket_made E cfg (n_dial w) = false ->
     log w' = log w ++ [EvDial (-1)]).
Proof.
  unfold connect_fails, socket_made, connect_to.
  destruct (getaddrinfo_ans E (n_dial w) cfg) as [err res]. cbn [fst snd].
  destruct (err =? 0) eqn:Herr; destruct res; cbn [negb orb andb];
    try solve [cbn [fst snd emit next_dial n_dial log];
               repeat split; auto; try lia; try discriminate].
  destruct (Z.ltb_spec (socket_ans E (n_dial w)) 0) as [Hneg|Hpos].
  - rewrite (proj2 (Z.leb_gt _ _) Hneg). cbn [orb].
    cbn [fst snd emit next_dial n_dial log].
    repeat split; auto; try lia; try discriminate.
  - rewrite (proj2 (Z.leb_le _ _) Hpos). cbn [orb].
    destruct (connect_ans E (n_dial w) =? 0); cbn [negb];
      cbn [fst snd emit close next_dial n_dial log];
      rewrite <- ?app_assoc;
      repeat split; auto; try lia; try discriminate.
Qed.

Lemma connect_to_result_witness :
  (let r := connect_to env_flaky_connect server boot in
   snd r = 3 /\ log (fst r) = [EvDial 3]) /\
  (let r := connect_to env_flaky_connect server (next_dial boot) in
   snd r = -1 /\ log (fst r) = [EvClose 3; EvDial (-1)]) /\
  (let r := connect_to
              (mkEnv (fun _ _ => (0, true)) (fun _ => -1) (fun _ => 0)
                     (fun _ => -1) (fun _ => None) (fun _ => None))
              server boot in
   snd r = -1 /\ log (fst r) = [EvDial (-1)]).
Proof.
  split; [|split].
  - destruct (connect_to_result env_flaky_connect server boot)
      as (_ & _ & _ & Hok & _).
    destruct (Hok ltac:(vm_compute; discriminate)) as (Hret & _ & Hlog).
    split; [exact Hret | exact Hlog].
  - destruct (connect_to_result env_flaky_connect server (next_dial boot))
      as (_ & _ & _ & _ & Hclose & _).
    split; [reflexivity | exact (Hclose eq_refl eq_refl)].
  - match goal with
    | |- let r := connect_to ?E _ _ in _ =>
        destruct (connect_to_result E server boot) as (_ & _ & _ & _ & _ & Hno)
    end.
    split; [reflexivity | exact (Hno eq_refl eq_refl)].
Defined.

Section SocketLedger.

Variable E : Env.
Variable bo : byte_order.
Variable cfg : NetConfig.

Lemma ledger_connect (w : World) :
  ledger E cfg w Connecting ->
  let w' := fst (connect_to E cfg w) in
  let ret := snd (connect_to E cfg w) in
  ((ret <? 0) = true /\ ledger E cfg (vTaskDelay 2000 w') Connecting) \/
  ((ret <? 0) = false /\ ledger E cfg w' (Handshaking ret)).
Proof.
  unfold ledger. cbn [held]. rewrite app_nil_r. intros Hl.
  destruct (connect_to_result E cfg w) as (Hn & Hret & _ & Hok & Hclose & Hno).
  cbv zeta in *.
  destruct (connect_to E cfg w) as [w' ret]. cbn [fst snd] in *.
  cbn [vTaskDelay emit n_dial log]. rewrite !Hn. cbn [sockets_made].
  destruct Hret as [-> | Hpos].
  - left. split; [reflexivity|].
    destruct (socket_made E cfg (n_dial w)) eqn:Hmade.
    + rewrite closed_app, (Hclose eq_refl eq_refl), closed_app, Hl.
      cbn [closed]. now rewrite !app_nil_r.
    + rewrite closed_app, (Hno eq_refl eq_refl), closed_app, Hl.
      cbn [closed]. now rewrite !app_nil_r.
  - right. split; [now apply Z.ltb_ge|].
    destruct (Hok Hpos) as (-> & -> & Hlog).
    rewrite Hlog, closed_app, Hl. cbn [closed]. now rewrite app_nil_r.
Qed.

Lemma ledger_send_all (w : World) (ph : Phase) (sock : Z) (data : list Z) :
  ledger E cfg w ph -> ledger E cfg (fst (send_all E w sock data)) ph.
Proof.
  unfold ledger. intros Hl.
  destruct (send_all_outcome E w sock data)
    as (m & chunks & _ & (Hd & _) & Hlog & _).
  now rewrite Hlog, Hd, closed_app, closed_chunks, app_nil_r.
Qed.

Lemma ledger_closing (w : World) (sock : Z) :
  ledger E cfg w (Closing sock) -> ledger E cfg (vTaskDelay 1000 (close sock w)) Connecting.
Proof.
  unfold ledger. cbn [held vTaskDelay close emit log n_dial].
  intros <-. rewrite !closed_app. cbn [closed]. now rewrite !app_nil_r.
Qed.

Lemma uplink_ledger_step (u : Uplink) :
  ledger E cfg (up_world u) (up_phase u) ->
  ledger E cfg (up_world (mic_uplink_step E bo cfg u))
         (up_phase (mic_uplink_step E bo cfg u)).
Proof.
  destruct u as [w ph fr]. cbn [up_world up_phase]. intros Hl.
  destruct ph as [|sock|sock|sock|].
  - unfold mic_uplink_step. cbn [up_world up_phase frame].
    destruct (ledger_connect w Hl) as [[Hneg H]|[Hpos H]]; cbv zeta in *;
      destruct (connect_to E cfg w) as [w' ret]; cbn [fst snd] in *;
      rewrite ?Hneg, ?Hpos; exact H.
  - unfold mic_uplink_step. cbn [up_world up_phase frame].
    pose proof (ledger_send_all w (Handshaking sock) sock hello_up Hl) as H.
    destruct (send_all E w sock hello_up) as [w1 ok]. exact H.
  - destruct (input_ans E (n_input w)) as [samples|] eqn:Hin.
    + destruct (uplink_pull E bo cfg w sock fr samples Hin)
        as (chunks & Hlog & Hd & _ & Hph & _).
      unfold ledger in *.
      rewrite Hlog, Hd, closed_app. cbn [closed].
      rewrite closed_chunks, app_nil_r.
      destruct Hph as [-> | ->]; exact Hl.
    + rewrite (uplink_poll_miss E bo cfg w sock fr Hin).
      cbn [up_world up_phase]. unfold ledger in *.
      destruct (ensure_input_counters w) as (Hd & _ & _ & _ & Hlog).
      cbn [vTaskDelay emit next_input log n_dial].
      rewrite Hlog, Hd, !closed_app. cbn [closed]. now rewrite !app_nil_r.
  - rewrite uplink_closing. cbn [up_world up_phase]. now apply ledger_closing.
  - exact Hl.
Qed.

Lemma downlink_ledger_step (d : Downlink) :
  ledger E cfg (dn_world d) (dn_phase d) ->
  ledger E cfg (dn_world (spk_downlink_step E bo cfg d))
         (dn_phase (spk_downlink_step E bo cfg d)).
Proof.
  destruct d as [w ph]. cbn [dn_world dn_phase]. intros Hl.
  destruct ph as [|sock|sock|sock|].
  - unfold spk_downlink_step. cbn [dn_world dn_phase].
    destruct (ledger_connect w Hl) as [[Hneg H]|[Hpos H]]; cbv zeta in *;
      destruct (connect_to E cfg w) as [w' ret]; cbn [fst snd] in *;
      rewrite ?Hneg, ?Hpos; exact H.
  - unfold spk_downlink_step. cbn [dn_world dn_phase].
    pose proof (ledger_send_all w (Handshaking sock) sock hello_down Hl) as H.
    destruct (send_all E w sock hello_down) as [w1 ok]. exact H.
  - unfold spk_downlink_step. cbn [dn_world dn_phase].
    destruct (recv_all E w sock sizeof_PcmHeader) as [[w1 ok] image] eqn:Hhdr.
    destruct (recv_all_outcome E _ _ _ _ _ _ Hhdr)
      as ((Hd1 & _ & _ & _ & Hl1) & _).
    unfold ledger in *. cbn [held] in *.
    destruct ok; cbn [negb dn_world dn_phase held];
      [|now rewrite Hl1, Hd1].
    destruct (invalid_packet (header_of_bytes bo image));
      cbn [dn_world dn_phase held emit log n_dial].
    + rewrite Hl1, Hd1, closed_app. cbn [closed]. now rewrite app_nil_r.
    + destruct (recv_all E w1 sock (Z.to_nat (len (header_of_bytes bo image))))
        as [[w2 ok2] bytes] eqn:Hpay.
      destruct (recv_all_outcome E _ _ _ _ _ _ Hpay)
        as ((Hd2 & _ & _ & _ & Hl2) & _).
      destruct ok2; cbn [negb dn_world dn_phase held];
        [|now rewrite Hl2, Hl1, Hd2, Hd1].
      unfold ensure_output.
      destruct (_ <? length bytes)%nat; cbn [emit codec];
        destruct (output_enabled (codec w2));
        cbn [with_codec emit log n_dial dn_world dn_phase held];
        rewrite ?closed_app, Hl2, Hl1, Hd2, Hd1; cbn [closed];
        rewrite ?app_nil_r; exact Hl.
  - rewrite downlink_closing. cbn [dn_world dn_phase]. now apply ledger_closing.
  - exact Hl.
Qed.

End SocketLedger.

(** X3: at every turn of either task, the sockets it has closed followed
    by the one its loop position holds are exactly the sockets that its
    calls of [connect_to] have made, in the order they were made: a task
    holds at most one socket, closes each socket once, and has none open
    while it connects. *)
Theorem sockets_are_closed_once (E : Env) (bo : byte_order) (cfg : NetConfig)
    (n : nat) (w : World) :
  closed (log w) = sockets_made E cfg (n_dial w) ->
  (let u := mic_uplink_task E bo cfg n w in
   closed (log (up_world u)) ++ held (up_phase u)
   = sockets_made E cfg (n_dial (up_world u))) /\
  (let d := spk_downlink_task E bo cfg n w in
   closed (log (dn_world d)) ++ held (dn_phase d)
   = sockets_made E cfg (n_dial (dn_world d))).
Proof.
  intros Hstart. split.
  - cbv zeta. unfold mic_uplink_task.
    assert (H : ledger E cfg (up_world (mic_uplink_start w))
                       (up_phase (mic_uplink_start w))).
    { unfold ledger. cbn [mic_uplink_start up_world up_phase held].
      now rewrite app_nil_r. }
    revert H. generalize (mic_uplink_start w).
    induction n as [|n IH]; intros u Hu; cbn [turns]; [exact Hu|].
    apply IH, uplink_ledger_step, Hu.
  - cbv zeta. unfold spk_downlink_task.
    assert (H : ledger E cfg (dn_world (spk_downlink_start w))
                       (dn_phase (spk_downlink_start w))).
    { unfold ledger. cbn [spk_downlink_start dn_world dn_phase held].
      now rewrite app_nil_r. }
    revert H. generalize (spk_downlink_start w).
    induction n as [|n IH]; intros d Hd; cbn [turns]; [exact Hd|].
    apply IH, downlink_ledger_step, Hd.
Qed.

Lemma sockets_are_closed_once_witness :
  let u := mic_uplink_task env_flaky_connect LittleEndian server 9 boot in
  closed (log (up_world u)) ++ held (up_phase u) = [3; 3; 3] /\
  n_dial (up_world u) = 3%nat.
Proof.
  destruct (sockets_are_closed_once env_flaky_connect LittleEndian server 9 boot
              eq_refl) as (Hup & _).
  cbv zeta in *. split; [rewrite Hup|]; vm_compute; reflexivity.
Defined.

(** ** The byte stream of an uplink connection *)

Section UplinkStream.

Variable E : Env.
Variable bo : byte_order.
Variable cfg : NetConfig.

(** On a transport that never refuses, [send_all] sends the whole buffer. *)
Lemma send_all_succeeds (w : World) (sock : Z) (data : list Z) :
  (forall j, (n_send w <= j)%nat -> 0 < send_ans E j) ->
  let w' := fst (send_all E w sock data) in
  snd (send_all E w sock data) = true /\
  sent_on sock (log w') = sent_on sock (log w) ++ data /\
  closed (log w') = closed (log w) /\
  (n_send w <= n_send w')%nat /\ n_input w' = n_input w /\ n_dial w' = n_dial w.
Proof.
  intros Hsend. cbv zeta.
  destruct (send_all_outcome E w sock data)
    as (m & chunks & _ & (Hd & _ & Hi & _) & Hlog & Hdata & Hn & _ & Hok & Hko).
  cbn [firstn app] in Hdata.
  destruct (snd (send_all E w sock data)) eqn:Hres.
  - rewrite (Hok eq_refl), firstn_all in Hdata.
    rewrite Hlog, sent_on_app, sent_on_chunks, closed_app, closed_chunks,
      app_nil_r, Hdata.
    repeat split; auto; lia.
  - destruct (Hko eq_refl) as (_ & Hbad).
    specialize (Hsend (n_send w + length chunks)%nat ltac:(lia)). lia.
Qed.

Lemma uplink_streams (k : nat) :
  forall w sock fr,
    (forall j, (n_send w <= j)%nat -> 0 < send_ans E j) ->
    (forall j, (n_input w <= j)%nat -> input_ans E j <> None) ->
    let u := turns (mic_uplink_step E bo cfg) k (mkUplink w (Streaming sock) fr) in
    up_phase u = Streaming sock /\
    closed (log (up_world u)) = closed (log w) /\
    n_dial (up_world u) = n_dial w /\
    exists frames,
      length frames = k /\
      Forall (fun f => length f = length fr) frames /\
      sent_on sock (log (up_world u)) =
        sent_on sock (log w) ++ concat (map (wire_frame bo fr) frames).
Proof.
  induction k as [|k IH]; intros w sock fr Hsend Hin; cbn [turns].
  - cbn [up_phase up_world]. repeat split. exists [].
    cbn [length map concat]. rewrite app_nil_r. auto.
  - destruct (ensure_input_counters w) as (Hd0 & Hs0 & _ & Hi0 & Hl0).
    destruct (input_ans E (n_input w)) as [samples|] eqn:Hans;
      [|exfalso; apply (Hin (n_input w)); [lia | exact Hans]].
    set (fr1 := overwrite fr (map (fun s => s16 (u16 s)) samples)).
    set (w1 := emit (EvPoll true) (next_input (ensure_input w))).
    assert (Hdata : InputData E (ensure_input w) fr = (w1, true, fr1)).
    { unfold InputData. rewrite Hi0, Hans. reflexivity. }
    rewrite (uplink_stream_step E bo cfg _ _ sock _ _ Hdata).
    assert (Hs1 : n_send w1 = n_send w) by (subst w1; exact Hs0).
    assert (Hl1 : log w1 = log w ++ [EvPoll true])
      by (subst w1; cbn [emit next_input log]; now rewrite Hl0).
    destruct (send_all_succeeds w1 sock (header_bytes bo (frame_header 1 fr1)))
      as (Hok1 & Hsent1 & Hcl1 & Hn1 & Hi1 & Hd1).
    { intros j Hj. apply Hsend. lia. }
    destruct (send_all E w1 sock (header_bytes bo (frame_header 1 fr1)))
      as [w2 ok1]. cbn [fst snd] in *. subst ok1.
    destruct (send_all_succeeds w2 sock (frame_bytes bo fr1))
      as (Hok2 & Hsent2 & Hcl2 & Hn2 & Hi2 & Hd2).
    { intros j Hj. apply Hsend. lia. }
    destruct (send_all E w2 sock (frame_bytes bo fr1)) as [w3 ok2].
    cbn [fst snd] in *. subst ok2.
    assert (Hlen : length fr1 = length fr) by (subst fr1; apply overwrite_length).
    destruct (IH w3 sock fr1) as (Hp & Hc & Hd & frames & Hk & Hall & Hsent).
    { intros j Hj. apply Hsend. lia. }
    { intros j Hj. apply Hin. rewrite Hi2, Hi1 in Hj. subst w1.
      cbn [emit next_input n_input] in Hj. lia. }
    cbv zeta. split; [exact Hp|]. split.
    { rewrite Hc, Hcl2, Hcl1, Hl1, closed_app. cbn [closed].
      now rewrite app_nil_r. }
    split.
    { rewrite Hd, Hd2, Hd1. subst w1. cbn [emit next_input n_dial]. exact Hd0. }
    exists (fr1 :: frames). cbn [length map concat].
    split; [now rewrite Hk|]. split.
    { constructor; [exact Hlen|].
      eapply Forall_impl; [|exact Hall]. cbn beta. intros f Hf. congruence. }
    rewrite Hsent, Hsent2, Hsent1, Hl1, sent_on_app. cbn [sent_on].
    rewrite app_nil_r, <- !app_assoc. f_equal.
    unfold wire_frame.
    rewrite (frame_header_same_length 1 fr1 fr Hlen).
    rewrite <- !app_assoc. do 2 f_equal.
Qed.

End UplinkStream.

(** X4: on a transport that never refuses a send, however it cuts the
    buffers into pieces, and with a microphone that always has data, the
    bytes an uplink connection carries after [k] turns of the inner loop
    are the token HELLO-UP followed by [k] whole frames, each made of the
    same 7-byte header and of a block of the fixed size; the socket is
    not closed. *)
Theorem uplink_stream_layout (E : Env) (bo : byte_order) (cfg : NetConfig)
    (k : nat) (w : World) (sock : Z) (fr : list Z) :
  (forall j, (n_send w <= j)%nat -> 0 < send_ans E j) ->
  (forall j, (n_input w <= j)%nat -> input_ans E j <> None) ->
  let u := turns (mic_uplink_step E bo cfg) (S k) (mkUplink w (Handshaking sock) fr) in
  up_phase u = Streaming sock /\
  closed (log (up_world u)) = closed (log w) /\
  exists frames,
    length frames = k /\
    Forall (fun f => length f = length fr) frames /\
    sent_on sock (log (up_world u)) =
      sent_on sock (log w) ++ hello_up
      ++ concat (map (fun f => header_bytes bo (frame_header 1 fr)
                               ++ frame_bytes bo f) frames).
Proof.
  intros Hsend Hin. cbn [turns].
  assert (H1 : mic_uplink_step E bo cfg (mkUplink w (Handshaking sock) fr) =
               mkUplink (fst (send_all E w sock hello_up)) (Streaming sock) fr).
  { unfold mic_uplink_step. cbn [up_world up_phase frame].
    destruct (send_all E w sock hello_up). reflexivity. }
  rewrite H1.
  destruct (send_all_succeeds E w sock hello_up Hsend)
    as (_ & Hsent & Hcl & Hn & Hi & _).
  destruct (uplink_streams E bo cfg k (fst (send_all E w sock hello_up)) sock fr)
    as (Hp & Hc & _ & frames & Hk & Hall & Hs).
  { intros j Hj. apply Hsend. lia. }
  { intros j Hj. apply Hin. rewrite Hi in Hj. exact Hj. }
  cbv zeta. split; [exact Hp|]. split; [now rewrite Hc, Hcl|].
  exists frames. split; [exact Hk|]. split; [exact Hall|].
  rewrite Hs, Hsent, <- app_assoc. reflexivity.
Qed.

Lemma uplink_stream_layout_witness :
  let u := turns (mic_uplink_step env_choppy LittleEndian server) 3
             (mkUplink boot (Handshaking 3) (repeat 0 (Z.to_nat 2))) in
  up_phase u = Streaming 3 /\
  closed (log (up_world u)) = [] /\
  length (sent_on 3 (log (up_world u))) = 30%nat.
Proof.
  assert (Hsend : forall j, (n_send boot <= j)%nat -> 0 < send_ans env_choppy j).
  { intros j _. do 2 (destruct j as [|j]; [reflexivity|]). destruct j; reflexivity. }
  assert (Hin : forall j, (n_input boot <= j)%nat -> input_ans env_choppy j <> None).
  { intros j _. destruct j; discriminate. }
  destruct (uplink_stream_layout env_choppy LittleEndian server 2 boot 3
              (repeat 0 (Z.to_nat 2)) Hsend Hin) as (Hp & Hc & _).
  cbv zeta. split; [exact Hp|]. split; [exact Hc|]. vm_compute; reflexivity.
Defined.

(** ** The two directions do not meet *)

Section Directions.

Variable E : Env.
Variable bo : byte_order.
Variable cfg : NetConfig.

Lemma connect_to_frame (w : World) :
  let w' := fst (connect_to E cfg w) in
  n_send w' = n_send w /\ n_recv w' = n_recv w /\ n_input w' = n_input w /\
  codec w' = codec w.
Proof.
  unfold connect_to. destruct (getaddrinfo_ans E (n_dial w) cfg) as [err res].
  break_step; cbn [fst emit close next_dial n_send n_recv n_input codec]; auto.
Qed.

Lemma uplink_step_playback (u : Uplink) :
  let u' := mic_uplink_step E bo cfg u in
  n_recv (up_world u') = n_recv (up_world u) /\
  played (codec (up_world u')) = played (codec (up_world u)) /\
  output_enabled (codec (up_world u')) = output_enabled (codec (up_world u)).
Proof.
  destruct u as [w ph fr]. cbn [up_world]. destruct ph as [|sock|sock|sock|].
  - unfold mic_uplink_step. cbn [up_world up_phase frame].
    destruct (connect_to_frame w) as (_ & Hr & _ & Hc). cbv zeta in *.
    destruct (connect_to E cfg w) as [w1 ret]. cbn [fst] in *.
    destruct (ret <? 0); cbn [up_world vTaskDelay emit n_recv codec];
      now rewrite Hr, Hc.
  - unfold mic_uplink_step. cbn [up_world up_phase frame].
    destruct (send_all_outcome E w sock hello_up)
      as (m & chunks & _ & (_ & Hr & _ & Hc) & _).
    destruct (send_all E w sock hello_up) as [w1 ok]. cbn [fst up_world] in *.
    now rewrite Hr, Hc.
  - assert (H0 : n_recv (ensure_input w) = n_recv w /\
                 played (codec (ensure_input w)) = played (codec w) /\
                 output_enabled (codec (ensure_input w)) = output_enabled (codec w)).
    { unfold ensure_input. destruct (input_enabled (codec w)); auto. }
    destruct H0 as (Hr0 & Hp0 & Ho0).
    unfold mic_uplink_step, InputData. cbn [up_world up_phase frame].
    destruct (input_ans E (n_input (ensure_input w))) as [samples|]; cbn [negb].
    + set (w1 := emit (EvPoll true) (next_input (ensure_input w))).
      set (fr1 := overwrite fr _).
      destruct (send_all_outcome E w1 sock (header_bytes bo (frame_header 1 fr1)))
        as (m1 & c1 & _ & (_ & Hr1 & _ & Hc1) & _).
      destruct (send_all E w1 sock (header_bytes bo (frame_header 1 fr1)))
        as [w2 ok1]. cbn [fst] in *.
      destruct (send_all_outcome E w2 sock (frame_bytes bo fr1))
        as (m2 & c2 & _ & (_ & Hr2 & _ & Hc2) & _).
      destruct (send_all E w2 sock (frame_bytes bo fr1)) as [w3 ok2].
      cbn [fst] in *.
      destruct ok1; cbn [negb]; [destruct ok2; cbn [negb]|];
        cbn [up_world]; rewrite ?Hr2, ?Hc2, Hr1, Hc1; subst w1;
        cbn [emit next_input n_recv codec]; auto.
    + cbn [up_world vTaskDelay emit next_input n_recv codec]. auto.
  - cbn [mic_uplink_step up_world up_phase vTaskDelay close emit n_recv codec].
    auto.
  - cbn [mic_uplink_step up_world up_phase]. auto.
Qed.

Lemma downlink_step_capture (d : Downlink) :
  let d' := spk_downlink_step E bo cfg d in
  n_input (dn_world d') = n_input (dn_world d) /\
  input_enabled (codec (dn_world d')) = input_enabled (codec (dn_world d)) /\
  (forall sock, dn_phase d = Streaming sock ->
                n_send (dn_world d') = n_send (dn_world d) /\
                sent_on sock (log (dn_world d')) = sent_on sock (log (dn_world d))).
Proof.
  destruct d as [w ph]. cbn [dn_world dn_phase].
  destruct ph as [|sock|sock|sock|].
  - unfold spk_downlink_step. cbn [dn_world dn_phase].
    destruct (connect_to_frame w) as (_ & _ & Hi & Hc). cbv zeta in *.
    destruct (connect_to E cfg w) as [w1 ret]. cbn [fst] in *.
    destruct (ret <? 0); cbn [dn_world vTaskDelay emit n_input codec];
      rewrite Hi, Hc; repeat split; discriminate.
  - unfold spk_downlink_step. cbn [dn_world dn_phase].
    destruct (send_all_outcome E w sock hello_down)
      as (m & chunks & _ & (_ & _ & Hi & Hc) & _).
    destruct (send_all E w sock hello_down) as [w1 ok]. cbn [fst dn_world] in *.
    rewrite Hi, Hc. repeat split; discriminate.
  - unfold spk_downlink_step. cbn [dn_world dn_phase].
    destruct (recv_all E w sock sizeof_PcmHeader) as [[w1 ok] image] eqn:Hhdr.
    destruct (recv_all_outcome E _ _ _ _ _ _ Hhdr)
      as ((_ & Hs1 & Hi1 & Hc1 & Hl1) & _).
    assert (Hgoal : forall w',
               n_input w' = n_input w -> n_send w' = n_send w ->
               input_enabled (codec w') = input_enabled (codec w) ->
               (forall s, sent_on s (log w') = sent_on s (log w)) ->
               n_input w' = n_input w /\
               input_enabled (codec w') = input_enabled (codec w) /\
               (forall s, Streaming sock = Streaming s ->
                          n_send w' = n_send w /\
                          sent_on s (log w') = sent_on s (log w))).
    { intros w' Ha Hb Hc Hd. repeat split; auto. }
    destruct ok; cbn [negb dn_world];
      [|apply Hgoal; rewrite ?Hl1; congruence].
    destruct (invalid_packet (header_of_bytes bo image)); cbn [dn_world].
    { apply Hgoal; cbn [emit n_input n_send codec log]; try congruence.
      intros s. rewrite sent_on_app, Hl1. cbn [sent_on]. now rewrite app_nil_r. }
    destruct (recv_all E w1 sock (Z.to_nat (len (header_of_bytes bo image))))
      as [[w2 ok2] bytes] eqn:Hpay.
    destruct (recv_all_outcome E _ _ _ _ _ _ Hpay)
      as ((_ & Hs2 & Hi2 & Hc2 & Hl2) & _).
    destruct ok2; cbn [negb dn_world];
      [|apply Hgoal; rewrite ?Hl2, ?Hl1; congruence].
    unfold ensure_output.
    destruct (_ <? length bytes)%nat; cbn [emit codec];
      destruct (output_enabled (codec w2));
      apply Hgoal;
      cbn [with_codec emit OutputData EnableOutput n_input n_send codec log
           input_enabled];
      try congruence;
      intros s; rewrite ?sent_on_app, Hl2, Hl1; cbn [sent_on];
      now rewrite ?app_nil_r.
  - cbn [spk_downlink_step dn_world dn_phase vTaskDelay close emit n_input codec].
    repeat split; discriminate.
  - cbn [spk_downlink_step dn_world dn_phase]. repeat split; discriminate.
Qed.

End Directions.

(** X5: the uplink task never reads from its socket and never touches
    playback (the played blocks and the output enable flag stay as they
    were), the downlink task never polls the microphone nor touches the
    input enable flag, and in its read loop the downlink makes no call
    of [::send]. *)
Theorem directions_are_independent (E : Env) (bo : byte_order)
    (cfg : NetConfig) (n : nat) (w : World) :
  (let u := mic_uplink_task E bo cfg n w in
   n_recv (up_world u) = n_recv w /\
   played (codec (up_world u)) = played (codec w) /\
   output_enabled (codec (up_world u)) = output_enabled (codec w)) /\
  (let d := spk_downlink_task E bo cfg n w in
   n_input (dn_world d) = n_input w /\
   input_enabled (codec (dn_world d)) = input_enabled (codec w) /\
   forall sock,
     dn_phase d = Streaming sock ->
     n_send (dn_world (spk_downlink_step E bo cfg d)) = n_send (dn_world d) /\
     sent_on sock (log (dn_world (spk_downlink_step E bo cfg d)))
     = sent_on sock (log (dn_world d))).
Proof.
  split.
  - cbv zeta. unfold mic_uplink_task.
    change w with (up_world (mic_uplink_start w)) at 2 4 6.
    generalize (mic_uplink_start w).
    induction n as [|n IH]; intros u; cbn [turns]; [auto|].
    destruct (IH (mic_uplink_step E bo cfg u)) as (H1 & H2 & H3).
    destruct (uplink_step_playback E bo cfg u) as (G1 & G2 & G3).
    cbv zeta in *. repeat split; congruence.
  - cbv zeta. unfold spk_downlink_task.
    assert (H : forall d0 : Downlink,
               let d := turns (spk_downlink_step E bo cfg) n d0 in
               n_input (dn_world d) = n_input (dn_world d0) /\
               input_enabled (codec (dn_world d)) = input_enabled (codec (dn_world d0))).
    { induction n as [|n IH]; intros d0; cbn [turns]; [auto|].
      destruct (IH (spk_downlink_step E bo cfg d0)) as (H1 & H2).
      destruct (downlink_step_capture E bo cfg d0) as (G1 & G2 & _).
      cbv zeta in *. split; congruence. }
    destruct (H (spk_downlink_start w)) as (H1 & H2).
    split; [exact H1|]. split; [exact H2|].
    intros sock Hph.
    destruct (downlink_step_capture E bo cfg
                (turns (spk_downlink_step E bo cfg) n (spk_downlink_start w)))
      as (_ & _ & Hs).
    exact (Hs sock Hph).
Qed.

Lemma directions_are_independent_witness :
  let d := spk_downlink_task env_downlink_frame LittleEndian server 2 boot in
  dn_phase d = Streaming 3 /\
  n_send (dn_world (spk_downlink_step env_downlink_frame LittleEndian server d))
  = n_send (dn_world d).
Proof.
  destruct (directions_are_independent env_downlink_frame LittleEndian server 2 boot)
    as (_ & _ & _ & Hs).
  cbv zeta in *. split; [reflexivity|].
  exact (proj1 (Hs 3 eq_refl)).
Defined.

(** ** Blocks through the downlink *)

Lemma u16_range (x : Z) : 0 <= u16 x < 2 ^ 16.
Proof. unfold u16. apply Z.mod_pos_bound. reflexivity. Qed.

Lemma s16_u16 (s : Z) : int16 s -> s16 (u16 s) = s.
Proof.
  unfold int16, s16, u16. change (2 ^ 15) with 32768. change (2 ^ 16) with 65536.
  intros Hs. destruct (Z_lt_dec s 0) as [Hneg|Hpos].
  - replace (s mod 65536) with (s + 65536)
      by (apply Z.mod_unique with (-1); lia).
    destruct (Z.ltb_spec (s + 65536) 32768); lia.
  - rewrite Z.mod_small by lia.
    destruct (Z.ltb_spec s 32768); lia.
Qed.

Lemma s16_range (x : Z) : 0 <= x < 2 ^ 16 -> int16 (s16 x).
Proof.
  unfold int16, s16. change (2 ^ 15) with 32768. change (2 ^ 16) with 65536.
  intros Hx. destruct (Z.ltb_spec x 32768); lia.
Qed.

(** The samples read from the memory image of a block are the block. *)
Lemma samples_of_frame_bytes (bo : byte_order) (fr : list Z) :
  Forall int16 fr -> samples_of_bytes bo (frame_bytes bo fr) = fr.
Proof.
  unfold frame_bytes. induction 1 as [|s fr Hs _ IH]; [reflexivity|].
  cbn [flat_map].
  pose proof (of_bytes_to_bytes bo 2 (u16 s) (u16_range s)) as Hrt.
  destruct bo; cbn [to_bytes le_bytes rev app samples_of_bytes] in *;
    rewrite Hrt, IH, (s16_u16 s Hs); reflexivity.
Qed.

Lemma list_pair_ind {A : Type} (P : list A -> Prop) :
  P [] -> (forall a, P [a]) ->
  (forall a b l, P l -> P (a :: b :: l)) ->
  forall l, P l.
Proof.
  intros H0 H1 H2 l.
  assert (H : P l /\ forall a, P (a :: l)).
  { induction l as [|b l [IHl IHbl]]; [auto|].
    split; [apply IHbl | intros a; apply H2, IHl]. }
  exact (proj1 H).
Qed.

Lemma samples_of_bytes_length (bo : byte_order) :
  forall bs, length (samples_of_bytes bo bs) = Nat.div2 (length bs).
Proof.
  induction bs as [| |b0 b1 bs IH] using list_pair_ind; try reflexivity.
  cbn [samples_of_bytes length Nat.div2]. now rewrite IH.
Qed.

Lemma Forall_firstn_keeps {A : Type} (P : A -> Prop) (n : nat) :
  forall l, Forall P l -> Forall P (firstn n l).
Proof.
  induction n as [|n IH]; intros l H; [constructor|].
  destruct H; cbn [firstn]; constructor; auto.
Qed.

Lemma Forall_skipn_keeps {A : Type} (P : A -> Prop) (n : nat) :
  forall l, Forall P l -> Forall P (skipn n l).
Proof.
  induction n as [|n IH]; intros l H; [exact H|].
  destruct H; cbn [skipn]; [constructor | auto].
Qed.

Lemma le_value_range :
  forall bs, Forall (fun b => 0 <= b < 256) bs ->
             0 <= le_value bs < 256 ^ Z.of_nat (length bs).
Proof.
  induction 1 as [|b bs Hb _ IH]; [cbn; lia|].
  cbn [le_value length]. rewrite Nat2Z.inj_succ, Z.pow_succ_r by lia. lia.
Qed.

Lemma of_bytes_nonneg (bo : byte_order) (bs : list Z) :
  Forall (fun b => 0 <= b < 256) bs -> 0 <= of_bytes bo bs.
Proof.
  intros H. destruct bo; cbn [of_bytes].
  - apply le_value_range, H.
  - apply le_value_range, Forall_rev, H.
Qed.

Lemma recv_all_bytes (E : Env) (w w' : World) (sock : Z) (len : nat)
    (ok : bool) (got : list Z) :
  recv_all E w sock len = (w', ok, got) ->
  Forall (fun b => 0 <= b < 256) got.
Proof.
  intros Hrecv. unfold recv_all in Hrecv.
  destruct (recv_loop_pieces E len w sock len [] (Nat.le_0_l _)
              ltac:(cbn [length]; lia) _ _ _ Hrecv)
    as (pieces & -> & _ & Hp).
  cbn [app]. clear Hrecv. revert Hp. generalize (n_recv w).
  induction pieces as [|p ps IH]; intros k Hp; [constructor|].
  cbn [concat]. apply Forall_app. split.
  - destruct (Hp 0%nat p eq_refl) as (_ & arr & _ & ->).
    apply Forall_map, Forall_forall. intros b _. apply Z.mod_pos_bound.
    reflexivity.
  - apply (IH (S k)). intros i q Hq.
    destruct (Hp (S i) q Hq) as (Hne & arr & Harr & Hq').
    split; [exact Hne|]. exists arr.
    replace (S k + i)%nat with (k + S i)%nat by lia. auto.
Qed.

Lemma samples_of_bytes_int16 (bo : byte_order) :
  forall bs, Forall (fun b => 0 <= b < 256) bs ->
             Forall int16 (samples_of_bytes bo bs).
Proof.
  induction bs as [| |b0 b1 bs IH] using list_pair_ind; intros H;
    try constructor.
  - apply s16_range.
    inversion H as [|? ? H0 H']; subst. inversion H' as [|? ? H1 _]; subst.
    destruct bo; cbn [of_bytes rev app le_value];
      change (2 ^ 16) with 65536; lia.
  - apply IH. inversion H as [|? ? _ H']; subst.
    inversion H' as [|? ? _ H'']; subst. exact H''.
Qed.

Section DownlinkBlocks.

Variable E : Env.
Variable bo : byte_order.
Variable cfg : NetConfig.

(** A turn of the read loop on a whole frame with a valid header. *)
Lemma downlink_delivers (w w1 w2 : World) (sock : Z) (image bytes : list Z) :
  recv_all E w sock sizeof_PcmHeader = (w1, true, image) ->
  invalid_packet (header_of_bytes bo image) = false ->
  recv_all E w1 sock (Z.to_nat (len (header_of_bytes bo image))) = (w2, true, bytes) ->
  let d := spk_downlink_step E bo cfg (mkDownlink w (Streaming sock)) in
  let room := (2 * Z.to_nat (len (header_of_bytes bo image) / sizeof_int16))%nat in
  dn_phase d = Streaming sock /\
  output_enabled (codec (dn_world d)) = true /\
  played (codec (dn_world d)) =
    played (codec w) ++ [samples_of_bytes bo (firstn room bytes)] /\
  log (dn_world d) =
    log w ++ (if (room <? length bytes)%nat
              then [EvOverrun (length bytes - room)] else []).
Proof.
  intros Hhdr Hinv Hpay.
  destruct (recv_all_outcome E _ _ _ _ _ _ Hhdr) as ((_ & _ & _ & Hc1 & Hl1) & _).
  destruct (recv_all_outcome E _ _ _ _ _ _ Hpay) as ((_ & _ & _ & Hc2 & Hl2) & _).
  unfold spk_downlink_step. cbn [dn_world dn_phase].
  rewrite Hhdr. cbn [negb]. rewrite Hinv, Hpay. cbn [negb].
  set (room := (2 * Z.to_nat (len (header_of_bytes bo image) / sizeof_int16))%nat).
  cbv zeta. unfold ensure_output.
  destruct (room <? length bytes)%nat;
    cbn [emit codec]; destruct (output_enabled (codec w2)) eqn:Hen;
    cbn [dn_phase dn_world with_codec codec OutputData EnableOutput
         output_enabled played emit log];
    rewrite ?Hen, Hc2, Hc1, Hl2, Hl1, ?app_nil_r; auto.
Qed.

Lemma header_length_range (w w1 : World) (sock : Z) (image : list Z) :
  recv_all E w sock sizeof_PcmHeader = (w1, true, image) ->
  0 <= len (header_of_bytes bo image) < 2 ^ 16.
Proof.
  intros Hhdr.
  pose proof (recv_all_bytes E _ _ _ _ _ _ Hhdr) as Hb.
  destruct (recv_all_outcome E _ _ _ _ _ _ Hhdr) as (_ & _ & _ & Hok & _).
  specialize (Hok eq_refl).
  do 8 (destruct image as [|? image]; try discriminate Hok).
  repeat match goal with
         | H : Forall _ (_ :: _) |- _ => inversion H; clear H; subst
         end.
  cbn [header_of_bytes len skipn firstn].
  destruct bo; cbn [of_bytes rev app le_value]; lia.
Qed.

End DownlinkBlocks.

(** X6: a whole frame with a valid header adds exactly one block to
    playback, of (declared length / 2) samples, each a value of
    [int16_t]; the output is enabled after it and the connection stays
    open.  A frame of even declared length leaves no other trace; a
    frame of odd declared length stores one byte past the end of the
    buffer. *)
Theorem downlink_block (E : Env) (bo : byte_order) (cfg : NetConfig)
    (w w1 w2 : World) (sock : Z) (image bytes : list Z) :
  recv_all E w sock sizeof_PcmHeader = (w1, true, image) ->
  invalid_packet (header_of_bytes bo image) = false ->
  recv_all E w1 sock (Z.to_nat (len (header_of_bytes bo image))) = (w2, true, bytes) ->
  let hdr := header_of_bytes bo image in
  let d := spk_downlink_step E bo cfg (mkDownlink w (Streaming sock)) in
  0 < len hdr < 2 ^ 16 /\
  dn_phase d = Streaming sock /\
  output_enabled (codec (dn_world d)) = true /\
  (exists buf,
     played (codec (dn_world d)) = played (codec w) ++ [buf] /\
     Z.of_nat (length buf) = len hdr / 2 /\
     Forall int16 buf) /\
  (Z.even (len hdr) = true -> log (dn_world d) = log w) /\
  (Z.odd (len hdr) = true -> log (dn_world d) = log w ++ [EvOverrun 1]).
Proof.
  intros Hhdr Hinv Hpay. cbv zeta.
  pose proof (header_length_range E bo _ _ _ _ Hhdr) as Hrange.
  apply invalid_packet_false_iff in Hinv as Hvalid.
  destruct Hvalid as (_ & _ & Hnz).
  destruct (downlink_delivers E bo cfg _ _ _ _ _ _ Hhdr Hinv Hpay)
    as (Hp & Hen & Hplayed & Hlog).
  destruct (recv_all_outcome E _ _ _ _ _ _ Hpay) as (_ & _ & _ & Hfull & _).
  specialize (Hfull eq_refl).
  pose proof (recv_all_bytes E _ _ _ _ _ _ Hpay) as Hbytes.
  set (L := len (header_of_bytes bo image)) in *.
  unfold sizeof_int16 in *.
  assert (Hroom : (2 * Z.to_nat (L / 2) <= length bytes)%nat).
  { rewrite Hfull. apply Nat2Z.inj_le. rewrite Nat2Z.inj_mul, !Z2Nat.id; try lia.
    - change (Z.of_nat 2) with 2. pose proof (Z.div_mod L 2).
      pose proof (Z.mod_pos_bound L 2). lia.
    - apply Z.div_pos; lia. }
  split; [lia|]. split; [exact Hp|]. split; [exact Hen|]. split; [|split].
  - eexists. split; [exact Hplayed|]. split.
    + rewrite samples_of_bytes_length, length_firstn, Nat.min_l by exact Hroom.
      rewrite Nat.div2_double. apply Z2Nat.id, Z.div_pos; lia.
    + apply samples_of_bytes_int16, Forall_firstn_keeps, Hbytes.
  - intros Heven. rewrite Hlog.
    apply Z.even_spec in Heven as [k Hk].
    replace (2 * Z.to_nat (L / 2))%nat with (length bytes).
    + rewrite Nat.ltb_irrefl. apply app_nil_r.
    + rewrite Hfull, Hk.
      replace (2 * k / 2) with k by (rewrite Z.mul_comm, Z.div_mul; lia).
      rewrite Z2Nat.inj_mul by lia. change (Z.to_nat 2) with 2%nat. lia.
  - intros Hodd. rewrite Hlog.
    apply Z.odd_spec in Hodd as [k Hk].
    assert (Hdiv : L / 2 = k).
    { symmetry. apply Z.div_unique with 1; lia. }
    assert (Hlen : length bytes = S (2 * Z.to_nat k)).
    { rewrite Hfull, Hk. rewrite Z2Nat.inj_add, Z2Nat.inj_mul by lia.
      change (Z.to_nat 1) with 1%nat. change (Z.to_nat 2) with 2%nat. lia. }
    rewrite Hdiv, Hlen.
    destruct (Nat.ltb_spec (2 * Z.to_nat k) (S (2 * Z.to_nat k))); [|lia].
    replace (S (2 * Z.to_nat k) - 2 * Z.to_nat k)%nat with 1%nat by lia.
    reflexivity.
Qed.

Lemma downlink_block_witness :
  (let d := spk_downlink_step env_downlink_frame LittleEndian server
              (mkDownlink boot (Streaming 3)) in
   played (codec (dn_world d)) = [[513; 1027]] /\ log (dn_world d) = []) /\
  (let d := spk_downlink_step env_odd_length LittleEndian server
              (mkDownlink boot (Streaming 3)) in
   log (dn_world d) = [EvOverrun 1]).
Proof.
  split.
  - assert (Hhdr : recv_all env_downlink_frame boot 3 sizeof_PcmHeader =
                   (next_recv boot, true, [80; 67; 77; 48; 2; 4; 0]))
      by (vm_compute; reflexivity).
    assert (Hpay : recv_all env_downlink_frame (next_recv boot) 3
                     (Z.to_nat (len (header_of_bytes LittleEndian
                                       [80; 67; 77; 48; 2; 4; 0]))) =
                   (next_recv (next_recv boot), true, [1; 2; 3; 4]))
      by (vm_compute; reflexivity).
    destruct (downlink_block env_downlink_frame LittleEndian server
                _ _ _ _ _ _ Hhdr eq_refl Hpay) as (_ & _ & _ & _ & Heven & _).
    cbv zeta. split; [vm_compute; reflexivity | exact (Heven eq_refl)].
  - assert (Hhdr : recv_all env_odd_length boot 3 sizeof_PcmHeader =
                   (next_recv boot, true, [80; 67; 77; 48; 2; 3; 0]))
      by (vm_compute; reflexivity).
    assert (Hpay : recv_all env_odd_length (next_recv boot) 3
                     (Z.to_nat (len (header_of_bytes LittleEndian
                                       [80; 67; 77; 48; 2; 3; 0]))) =
                   (next_recv (next_recv boot), true, [1; 2; 3]))
      by (vm_compute; reflexivity).
    destruct (downlink_block env_odd_length LittleEndian server
                _ _ _ _ _ _ Hhdr eq_refl Hpay) as (_ & _ & _ & _ & _ & Hodd).
    exact (Hodd eq_refl).
Defined.

Lemma overwrite_int16 (buf src : list Z) :
  Forall int16 buf ->
  Forall int16 (overwrite buf (map (fun s => s16 (u16 s)) src)).
Proof.
  intros Hbuf. unfold overwrite. apply Forall_firstn_keeps, Forall_app. split.
  - apply Forall_map, Forall_forall. intros s _. apply s16_range, u16_range.
  - apply Forall_skipn_keeps, Hbuf.
Qed.

Lemma uplink_step_int16 (E : Env) (bo : byte_order) (cfg : NetConfig) (u : Uplink) :
  Forall int16 (frame u) -> Forall int16 (frame (mic_uplink_step E bo cfg u)).
Proof.
  intros Hfr. unfold mic_uplink_step, InputData.
  destruct (up_phase u); try exact Hfr.
  - break_step; exact Hfr.
  - break_step; exact Hfr.
  - destruct (input_ans E (n_input (ensure_input (up_world u)))); cbn [negb];
      break_step; cbn [frame]; auto using overwrite_int16.
Qed.

(** X7: every block of the uplink holds values of [int16_t]; such a
    block, relayed by the server under a header with the downlink tag
    and the byte size of the block, is played sample for sample, in
    either byte order, and leaves no other trace; under the header the
    uplink itself built for it, it is rejected. *)
Theorem relayed_block_is_played (E : Env) (bo : byte_order) (cfg : NetConfig) :
  (forall n w, Forall int16 (frame (mic_uplink_task E bo cfg n w))) /\
  (forall fr,
     invalid_packet (header_of_bytes bo (header_bytes bo (frame_header 1 fr)))
     = true) /\
  (forall w w1 w2 sock image fr,
     Forall int16 fr -> 0 < payload_size fr ->
     recv_all E w sock sizeof_PcmHeader = (w1, true, image) ->
     header_of_bytes bo image = mkPcmHeader PCM_MAGIC 2 (payload_size fr) ->
     recv_all E w1 sock (Z.to_nat (payload_size fr)) = (w2, true, frame_bytes bo fr) ->
     let d := spk_downlink_step E bo cfg (mkDownlink w (Streaming sock)) in
     dn_phase d = Streaming sock /\
     played (codec (dn_world d)) = played (codec w) ++ [fr] /\
     log (dn_world d) = log w).
Proof.
  split; [|split].
  - intros n w. unfold mic_uplink_task.
    assert (H : Forall int16 (frame (mic_uplink_start w))).
    { cbn [mic_uplink_start frame]. apply Forall_forall.
      intros s Hs. apply repeat_spec in Hs. subst s.
      unfold int16. change (2 ^ 15) with 32768. lia. }
    revert H. generalize (mic_uplink_start w).
    induction n as [|n IH]; intros u Hu; cbn [turns]; [exact Hu|].
    apply IH, uplink_step_int16, Hu.
  - intros fr.
    destruct (frame_header_in_range 1 fr) as (Hm & _ & Hl).
    rewrite header_of_header_bytes by assumption. reflexivity.
  - intros w w1 w2 sock image fr Hfr Hsize Hhdr Himage Hpay.
    assert (Hinv : invalid_packet (header_of_bytes bo image) = false).
    { rewrite Himage. apply invalid_packet_false_iff. cbn [magic type len].
      repeat split; lia. }
    assert (Hpay' : recv_all E w1 sock (Z.to_nat (len (header_of_bytes bo image)))
                    = (w2, true, frame_bytes bo fr))
      by (rewrite Himage; exact Hpay).
    destruct (downlink_delivers E bo cfg _ _ _ _ _ _ Hhdr Hinv Hpay')
      as (Hp & _ & Hplayed & Hlog).
    cbv zeta. split; [exact Hp|].
    rewrite Himage in Hplayed, Hlog. cbn [len] in Hplayed, Hlog.
    assert (Hroom : (2 * Z.to_nat (payload_size fr / sizeof_int16))%nat
                    = length (frame_bytes bo fr)).
    { rewrite frame_bytes_length. unfold payload_size, sizeof_int16.
      rewrite Z.div_mul, Nat2Z.id by lia. reflexivity. }
    rewrite Hroom in Hplayed, Hlog.
    rewrite firstn_all, samples_of_frame_bytes in Hplayed by exact Hfr.
    rewrite Nat.ltb_irrefl, app_nil_r in Hlog.
    split; assumption.
Qed.

Lemma relayed_block_is_played_witness :
  let d := spk_downlink_step env_relay LittleEndian server
             (mkDownlink boot (Streaming 3)) in
  dn_phase d = Streaming 3 /\
  played (codec (dn_world d)) = [[1; -2]] /\
  log (dn_world d) = [].
Proof.
  destruct (relayed_block_is_played env_relay LittleEndian server)
    as (_ & _ & Hrelay).
  apply (Hrelay boot (next_recv boot) (next_recv (next_recv boot)) 3
           [80; 67; 77; 48; 2; 4; 0] [1; -2]).
  - repeat constructor; vm_compute; discriminate.
  - reflexivity.
  - vm_compute; reflexivity.
  - reflexivity.
  - vm_compute; reflexivity.
Defined.

(** * Properties of the XL9555 driver *)

(** ** Bits of bytes and of 16-bit values *)

Lemma testbit_u8 (x i : Z) : Z.testbit (u8 x) i = (i <? 8) && Z.testbit x i.
Proof. unfold u8. apply Z.testbit_mod_pow2. lia. Qed.

Lemma testbit_u16 (x i : Z) : Z.testbit (u16 x) i = (i <? 16) && Z.testbit x i.
Proof. unfold u16. apply Z.testbit_mod_pow2. lia. Qed.

Lemma testbit_0xFF (i : Z) : Z.testbit 0xFF i = (0 <=? i) && (i <? 8).
Proof. change 0xFF with (Z.ones 8). apply Z.testbit_ones. lia. Qed.

Lemma testbit_0xFF00 (i : Z) : Z.testbit 0xFF00 i = (8 <=? i) && (i <? 16).
Proof.
  change 0xFF00 with (Z.shiftl (Z.ones 8) 8).
  destruct (Z_lt_dec i 0) as [Hneg|Hpos].
  - rewrite Z.testbit_neg_r by lia.
    destruct (Z.leb_spec 8 i); [lia | reflexivity].
  - rewrite Z.shiftl_spec, Z.testbit_ones by lia.
    destruct (Z.leb_spec 0 (i - 8)), (Z.leb_spec 8 i),
      (Z.ltb_spec (i - 8) 8), (Z.ltb_spec i 16); cbn; lia || reflexivity.
Qed.

Lemma testbit_small (x i n : Z) :
  0 <= x < 2 ^ n -> n <= i -> Z.testbit x i = false.
Proof.
  intros Hx Hi. destruct (Z_le_dec 0 n) as [Hn|Hn].
  - rewrite <- (Z.mod_small x (2 ^ n)) by exact Hx.
    apply Z.mod_pow2_bits_high. lia.
  - rewrite Z.pow_neg_r in Hx by lia. lia.
Qed.

(** Brings a statement about bits to comparisons of the bit index. *)
Ltac bits :=
  repeat first
    [ rewrite testbit_u8 | rewrite testbit_u16
    | rewrite testbit_0xFF | rewrite testbit_0xFF00
    | rewrite Z.lor_spec | rewrite Z.land_spec | rewrite Z.ldiff_spec
    | rewrite Z.lnot_spec by lia
    | rewrite Z.shiftl_spec by lia
    | rewrite Z.shiftr_spec by lia ].

Ltac cmp :=
  repeat match goal with
         | |- context [?a <? ?b] => destruct (Z.ltb_spec a b)
         | |- context [?a <=? ?b] => destruct (Z.leb_spec a b)
         end.

Lemma port_value_bits (r0 r1 i : Z) :
  0 <= r0 < 256 -> 0 <= r1 < 256 -> 0 <= i ->
  Z.testbit (port_value r0 r1) i =
  if i <? 8 then Z.testbit r0 i
  else if i <? 16 then Z.testbit r1 (i - 8) else false.
Proof.
  intros H0 H1 Hi. unfold port_value. bits.
  destruct (Z.ltb_spec i 8).
  - rewrite (Z.testbit_neg_r r1) by lia. reflexivity.
  - rewrite (testbit_small r0 i 8) by (change (2 ^ 8) with 256; lia).
    rewrite orb_false_r.
    destruct (Z.ltb_spec i 16); [reflexivity|].
    apply (testbit_small r1 (i - 8) 8); [change (2 ^ 8) with 256|]; lia.
Qed.

Lemma u8_range (x : Z) : 0 <= u8 x < 256.
Proof. unfold u8. apply Z.mod_pos_bound. reflexivity. Qed.

Lemma pin_mask_bits (pin i : Z) :
  0 <= pin < 2 ^ 16 -> 0 <= i ->
  Z.testbit (pin_mask pin) i =
  Z.testbit pin i && (if pin <=? 0x0080 then i <? 8 else 8 <=? i).
Proof.
  intros Hpin Hi. unfold pin_mask.
  destruct (Z.leb_spec pin 0x0080) as [Hlow|Hhigh].
  - destruct (Z.ltb_spec i 8); [now rewrite andb_true_r|].
    rewrite (testbit_small pin i 8); [reflexivity | change (2 ^ 8) with 256; lia | lia].
  - bits. destruct (Z.leb_spec 8 i); cbn [andb].
    + destruct (Z.ltb_spec i 16); [reflexivity|].
      rewrite (testbit_small pin i 16) by lia. reflexivity.
    + now rewrite andb_false_r.
Qed.

Lemma port_value_bytes (w0 w1 : Z) :
  0 <= w0 < 256 -> 0 <= w1 < 256 ->
  u16 (port_value w0 w1) = port_value w0 w1 /\
  Z.land (port_value w0 w1) 0xFF = w0 /\
  Z.shiftr (port_value w0 w1) 8 = w1.
Proof.
  intros H0 H1. repeat split; apply Z.bits_inj'; intros i Hi; bits;
    rewrite ?port_value_bits by lia.
  - cmp; cbn [andb]; reflexivity || lia.
  - cmp; cbn [andb]; rewrite ?andb_true_r, ?andb_false_r; try reflexivity; try lia.
    all: symmetry; apply (testbit_small w0 i 8); [change (2 ^ 8) with 256|]; lia.
  - cmp; try lia.
    + now replace (i + 8 - 8) with i by lia.
    + symmetry. apply (testbit_small w1 i 8); [change (2 ^ 8) with 256|]; lia.
Qed.

Section XL9555Facts.

Variable B : I2cEnv.

Lemma xl9555_write_byte_log (b : Bus) (reg : Z) (data : list Z) :
  let r := xl9555_write_byte B b reg data in
  n_i2c_read (fst r) = n_i2c_read b /\
  n_malloc (fst r) = S (n_malloc b) /\
  bus_waits (bus_log (fst r)) = bus_waits (bus_log b) /\
  (malloc_ans B (n_malloc b) = true ->
     snd r = i2c_write_ans B (n_i2c_write b) /\
     n_i2c_write (fst r) = S (n_i2c_write b) /\
     bus_log (fst r) = bus_log b ++ [I2cWrite (u8 reg :: data)]) /\
  (malloc_ans B (n_malloc b) = false ->
     snd r = ESP_ERR_NO_MEM /\
     n_i2c_write (fst r) = n_i2c_write b /\
     bus_log (fst r) = bus_log b ++ [LogError]).
Proof.
  unfold xl9555_write_byte.
  assert (Hw : forall l e, bus_waits (l ++ [e]) =
                           bus_waits l ++ bus_waits [e]).
  { induction l as [|x l IH]; intros e; [reflexivity|].
    destruct x; cbn [app bus_waits]; rewrite IH; reflexivity. }
  destruct (malloc_ans B (n_malloc b));
    cbn [fst snd bus_emit n_i2c_read n_i2c_write n_malloc bus_log];
    rewrite Hw; cbn [bus_waits]; rewrite app_nil_r;
    repeat split; auto; discriminate.
Qed.

Lemma bus_writes_app (l1 l2 : list BusEvent) :
  bus_writes (l1 ++ l2) = bus_writes l1 ++ bus_writes l2.
Proof.
  induction l1 as [|e l1 IH]; [reflexivity|].
  destruct e; cbn [app bus_writes]; rewrite IH; reflexivity.
Qed.

Lemma bus_waits_app (l1 l2 : list BusEvent) :
  bus_waits (l1 ++ l2) = bus_waits l1 ++ bus_waits l2.
Proof.
  induction l1 as [|e l1 IH]; [reflexivity|].
  destruct e; cbn [app bus_waits]; rewrite IH; reflexivity.
Qed.

End XL9555Facts.

Lemma xl9555_pin_write_value (B : I2cEnv) (b : Bus) (pin val : Z) :
  0 <= pin < 2 ^ 16 ->
  snd (xl9555_pin_write B b pin val) =
    (if val =? 0
     then Z.ldiff (port_value (u8 (fst (snd (i2c_read_ans B (n_i2c_read b)))))
                              (u8 (snd (snd (i2c_read_ans B (n_i2c_read b))))))
                  (pin_mask pin)
     else Z.lor (port_value (u8 (fst (snd (i2c_read_ans B (n_i2c_read b)))))
                            (u8 (snd (snd (i2c_read_ans B (n_i2c_read b))))))
                (pin_mask pin)) /\
  exists w0 w1,
    0 <= w0 < 256 /\ 0 <= w1 < 256 /\
    snd (xl9555_pin_write B b pin val) = port_value w0 w1 /\
    bus_writes (bus_log (fst (xl9555_pin_write B b pin val))) =
      bus_writes (bus_log b)
      ++ (if malloc_ans B (n_malloc b)
          then [[XL9555_OUTPUT_PORT0_REG; w0; w1]] else []).
Proof.
  intros Hpin.
  unfold xl9555_pin_write, xl9555_read_byte.
    replace (u16 pin) with pin by (unfold u16; now rewrite Z.mod_small).
    destruct (i2c_read_ans B (n_i2c_read b)) as [err [d0 d1]]. cbn [fst snd].
    pose proof (u8_range d0) as H0. pose proof (u8_range d1) as H1.
    set (r0 := u8 d0) in *. set (r1 := u8 d1) in *.
    set (b1 := bus_emit _ _).
    assert (Hb1 : bus_writes (bus_log b1) = bus_writes (bus_log b) /\
                  n_malloc b1 = n_malloc b).
    { subst b1. cbn [bus_emit bus_log n_malloc].
      rewrite bus_writes_app. cbn [bus_writes]. now rewrite app_nil_r. }
    destruct Hb1 as (Hb1 & Hm1).
    assert (Hgoal : forall w0 w1,
               0 <= w0 < 256 -> 0 <= w1 < 256 ->
               port_value w0 w1 =
                 (if val =? 0 then Z.ldiff (port_value r0 r1) (pin_mask pin)
                  else Z.lor (port_value r0 r1) (pin_mask pin)) ->
               let res := (let temp := u16 (Z.lor (Z.shiftl w1 8) w0) in
                           let (b2, _) := xl9555_write_byte B b1
                                            XL9555_OUTPUT_PORT0_REG [w0; w1] in
                           (b2, temp)) in
               snd res = (if val =? 0 then Z.ldiff (port_value r0 r1) (pin_mask pin)
                          else Z.lor (port_value r0 r1) (pin_mask pin)) /\
               exists w0' w1',
                 0 <= w0' < 256 /\ 0 <= w1' < 256 /\
                 snd res = port_value w0' w1' /\
                 bus_writes (bus_log (fst res)) =
                 bus_writes (bus_log b)
                 ++ (if malloc_ans B (n_malloc b)
                     then [[XL9555_OUTPUT_PORT0_REG; w0'; w1']] else [])).
    { intros w0 w1 Hw0 Hw1 Heq. cbv zeta.
      destruct (port_value_bytes w0 w1 Hw0 Hw1) as (Hu & _).
      fold (port_value w0 w1). rewrite Hu.
      destruct (xl9555_write_byte_log B b1 XL9555_OUTPUT_PORT0_REG [w0; w1])
        as (_ & _ & _ & Hyes & Hno).
      cbv zeta in *.
      destruct (xl9555_write_byte B b1 XL9555_OUTPUT_PORT0_REG [w0; w1])
        as [b2 e]. cbn [fst snd] in *.
      split; [exact Heq|]. exists w0, w1.
      split; [exact Hw0|]. split; [exact Hw1|]. split; [reflexivity|].
      rewrite Hm1 in *.
      destruct (malloc_ans B (n_malloc b)).
      - destruct (Hyes eq_refl) as (_ & _ & ->).
        rewrite bus_writes_app, Hb1. reflexivity.
      - destruct (Hno eq_refl) as (_ & _ & ->).
        rewrite bus_writes_app, Hb1. reflexivity. }
    destruct (pin <=? 0x0080) eqn:Hcmp;
      [apply Z.leb_le in Hcmp as Hlow | apply Z.leb_gt in Hcmp as Hhigh];
      destruct (val =? 0); cbn [negb]; apply Hgoal;
      try apply u8_range; try assumption;
      unfold pin_mask; rewrite Hcmp;
      apply Z.bits_inj'; intros i Hi; bits;
      rewrite !port_value_bits by (try apply u8_range; lia);
      bits; cmp; try lia; bits; cmp; try lia; cbn [andb orb negb];
      rewrite ?andb_true_r, ?andb_false_r, ?orb_false_r, ?andb_true_l,
        ?orb_false_l;
      try reflexivity; try lia;
      try (replace (i - 8 + 8) with i by lia);
      try (rewrite (testbit_small pin i 8)
             by (change (2 ^ 8) with 256; lia));
      try (rewrite (testbit_small pin i 16) by lia);
      try (rewrite (testbit_small r1 (i - 8) 8)
             by (change (2 ^ 8) with 256; lia));
      try (rewrite (testbit_small r0 i 8) by (change (2 ^ 8) with 256; lia));
      cbn [andb orb negb];
      rewrite ?andb_true_r, ?andb_false_r, ?orb_false_r; reflexivity.
Qed.

(** X8: [xl9555_pin_write(pin, val)] returns the 16 bits it read from the
    chip with the bits of the mask set when [val] is not zero and cleared
    when it is, every other bit as read; the mask is [pin] itself when
    [pin <= 0x0080], and only the high byte of [pin] otherwise.  The two
    bytes of that value are what it transmits to the output register,
    low byte first, unless the allocation fails: then nothing is
    transmitted and the same value is returned. *)
Theorem xl9555_pin_write_effect (B : I2cEnv) (b : Bus) (pin val : Z) :
  0 <= pin < 2 ^ 16 ->
  let r0 := u8 (fst (snd (i2c_read_ans B (n_i2c_read b)))) in
  let r1 := u8 (snd (snd (i2c_read_ans B (n_i2c_read b)))) in
  let v := port_value r0 r1 in
  let res := xl9555_pin_write B b pin val in
  snd res = (if val =? 0 then Z.ldiff v (pin_mask pin)
             else Z.lor v (pin_mask pin)) /\
  (forall i, 0 <= i ->
     Z.testbit (snd res) i =
     if Z.testbit (pin_mask pin) i then negb (val =? 0) else Z.testbit v i) /\
  bus_writes (bus_log (fst res)) =
    bus_writes (bus_log b)
    ++ (if malloc_ans B (n_malloc b)
        then [[XL9555_OUTPUT_PORT0_REG; Z.land (snd res) 0xFF; Z.shiftr (snd res) 8]]
        else []).
Proof.
  intros Hpin. cbv zeta.
  destruct (xl9555_pin_write_value B b pin val Hpin)
    as (Hval & w0 & w1 & Hw0 & Hw1 & Hpv & Hbus).
  split; [exact Hval|]. split.
  - intros i Hi. rewrite Hval.
    destruct (val =? 0); cbn [negb]; bits;
      destruct (Z.testbit (pin_mask pin) i); cbn [negb];
      rewrite ?andb_true_r, ?andb_false_r, ?orb_true_r, ?orb_false_r;
      reflexivity.
  - rewrite Hbus, Hpv.
    destruct (port_value_bytes w0 w1 Hw0 Hw1) as (_ & -> & ->). reflexivity.
Qed.

Lemma xl9555_pin_write_effect_witness :
  let res := xl9555_pin_write (chip 0xFF 0xFF) idle_bus BEEP_IO 0 in
  snd res = 0xFFF7 /\
  bus_writes (bus_log (fst res)) = [[2; 0xF7; 0xFF]].
Proof.
  destruct (xl9555_pin_write_effect (chip 0xFF 0xFF) idle_bus BEEP_IO 0)
    as (Hval & _ & Hbus).
  - vm_compute. split; [discriminate | reflexivity].
  - cbv zeta. split; [rewrite Hval | rewrite Hbus]; vm_compute; reflexivity.
Defined.

Lemma xl9555_pin_read_value (B : I2cEnv) (b : Bus) (pin : Z) :
  let r0 := u8 (fst (snd (i2c_read_ans B (n_i2c_read b)))) in
  let r1 := u8 (snd (snd (i2c_read_ans B (n_i2c_read b)))) in
  xl9555_pin_read B b pin =
  (bus_emit (I2cRead XL9555_INPUT_PORT0_REG)
     (mkBus (S (n_i2c_read b)) (n_i2c_write b) (n_malloc b) (bus_log b)),
   if Z.land (port_value r0 r1) (u16 pin) =? 0 then 0 else 1).
Proof.
  cbv zeta. unfold xl9555_pin_read, xl9555_read_byte.
  destruct (i2c_read_ans B (n_i2c_read b)) as [err [d0 d1]]. cbn [fst snd].
  destruct (port_value_bytes (u8 d0) (u8 d1) (u8_range d0) (u8_range d1))
    as (Hu & _).
  fold (port_value (u8 d0) (u8 d1)). now rewrite Hu.
Qed.

Lemma xl9555_pin_write_reads (B : I2cEnv) (b : Bus) (pin val : Z) :
  n_i2c_read (fst (xl9555_pin_write B b pin val)) = S (n_i2c_read b).
Proof.
  unfold xl9555_pin_write, xl9555_read_byte.
  destruct (i2c_read_ans B (n_i2c_read b)) as [err [d0 d1]].
  repeat match goal with
         | |- context [if ?c then _ else _] => destruct c
         end;
    match goal with
    | |- context [xl9555_write_byte B ?b1 ?r ?d] =>
        pose proof (xl9555_write_byte_log B b1 r d) as H;
        destruct (xl9555_write_byte B b1 r d)
    end; cbv zeta in H; cbn [fst snd] in *; destruct H as (-> & _);
    reflexivity.
Qed.

Lemma land_nonzero_bit (v pin : Z) :
  0 <= pin ->
  (Z.land v pin =? 0) = false <->
  exists i, 0 <= i /\ Z.testbit pin i = true /\ Z.testbit v i = true.
Proof.
  intros Hpin. split.
  - intros Hnz. apply Z.eqb_neq in Hnz.
    assert (Hpos : 0 < Z.land v pin).
    { assert (0 <= Z.land v pin) by (apply Z.land_nonneg; right; lia). lia. }
    exists (Z.log2 (Z.land v pin)).
    pose proof (Z.bit_log2 _ Hpos) as Hbit.
    rewrite Z.land_spec in Hbit. apply andb_true_iff in Hbit as [Hv Hp].
    split; [apply Z.log2_nonneg|]. split; assumption.
  - intros (i & Hi & Hp & Hv). apply Z.eqb_neq. intros Hz.
    apply (f_equal (fun x => Z.testbit x i)) in Hz.
    rewrite Z.land_spec, Hp, Hv, Z.bits_0 in Hz. discriminate.
Qed.

(** What [xl9555_pin_read] finds when the chip reads back what
    [xl9555_pin_write] has just sent. *)
Lemma xl9555_pin_read_echo (B : I2cEnv) (b : Bus) (pin val : Z) :
  0 < pin < 2 ^ 16 ->
  let res := xl9555_pin_write B b pin val in
  snd (i2c_read_ans B (n_i2c_read (fst res)))
    = (Z.land (snd res) 0xFF, Z.shiftr (snd res) 8) ->
  snd (xl9555_pin_read B (fst res) pin) =
  if Z.land (snd res) pin =? 0 then 0 else 1.
Proof.
  intros Hpin. cbv zeta. intros Hecho.
  assert (Hu : u16 pin = pin) by (unfold u16; apply Z.mod_small; lia).
  destruct (xl9555_pin_write_value B b pin val ltac:(lia))
    as (_ & w0 & w1 & Hw0 & Hw1 & Hpv & _).
  rewrite (xl9555_pin_read_value B _ pin). cbv zeta. cbn [snd].
  rewrite Hecho. cbn [fst snd]. rewrite Hu, Hpv.
  destruct (port_value_bytes w0 w1 Hw0 Hw1) as (_ & -> & ->).
  unfold u8. rewrite !Z.mod_small by (change (2 ^ 8) with 256; lia).
  reflexivity.
Qed.

(** X9: [xl9555_pin_read(pin)] returns 1 when one of the bits of [pin] is
    set in the 16 bits read from the chip and 0 otherwise, the bit
    itself for a mask of one bit, and transmits nothing.  When the chip
    reads back what [xl9555_pin_write(pin, val)] has just sent, the read
    returns 1 exactly when [pin] has a bit that the write acts on, with
    [val] not zero, or a bit that the write drops and that was set
    before.  So a mask that [pin_mask] leaves as it is, one of at most
    0x0080 or one without a bit in the low byte, reads back as 1 when
    [val] is not zero and as 0 when it is; but for a mask of port 0 above
    0x0080, as 0x00C0, the write changes nothing and the read returns
    what it returned before the write, whatever [val]. *)
Theorem xl9555_pin_read_after_write (B : I2cEnv) (b : Bus) (pin val : Z) :
  0 < pin < 2 ^ 16 ->
  let r0 := u8 (fst (snd (i2c_read_ans B (n_i2c_read b)))) in
  let r1 := u8 (snd (snd (i2c_read_ans B (n_i2c_read b)))) in
  (snd (xl9555_pin_read B b pin) = 0 \/ snd (xl9555_pin_read B b pin) = 1) /\
  (snd (xl9555_pin_read B b pin) = 1 <->
     exists i, 0 <= i /\ Z.testbit pin i = true
               /\ Z.testbit (port_value r0 r1) i = true) /\
  (forall k, 0 <= k -> pin = 2 ^ k ->
     snd (xl9555_pin_read B b pin) =
     if Z.testbit (port_value r0 r1) k then 1 else 0) /\
  bus_writes (bus_log (fst (xl9555_pin_read B b pin))) = bus_writes (bus_log b) /\
  (let res := xl9555_pin_write B b pin val in
   pin_mask pin = pin ->
   snd (i2c_read_ans B (n_i2c_read (fst res)))
     = (Z.land (snd res) 0xFF, Z.shiftr (snd res) 8) ->
   snd (xl9555_pin_read B (fst res) pin) = if val =? 0 then 0 else 1) /\
  (let res := xl9555_pin_write B b pin val in
   snd (i2c_read_ans B (n_i2c_read (fst res)))
     = (Z.land (snd res) 0xFF, Z.shiftr (snd res) 8) ->
   (snd (xl9555_pin_read B (fst res) pin) = 1 <->
    exists i, 0 <= i /\ Z.testbit pin i = true
              /\ (if Z.testbit (pin_mask pin) i then val <> 0
                  else Z.testbit (port_value r0 r1) i = true))) /\
  (let res := xl9555_pin_write B b pin val in
   snd (i2c_read_ans B (n_i2c_read (fst res)))
     = (Z.land (snd res) 0xFF, Z.shiftr (snd res) 8) ->
   0x0080 < pin < 0x0100 ->
   snd res = port_value r0 r1
   /\ snd (xl9555_pin_read B (fst res) pin) = snd (xl9555_pin_read B b pin)).
Proof.
  intros Hpin. cbv zeta.
  assert (Hu : u16 pin = pin) by (unfold u16; apply Z.mod_small; lia).
  rewrite (xl9555_pin_read_value B b pin). cbv zeta. cbn [fst snd]. rewrite Hu.
  set (v := port_value _ _).
  split; [|split; [|split; [|split; [|split; [|split]]]]].
  - destruct (Z.land v pin =? 0); auto.
  - destruct (Z.eqb_spec (Z.land v pin) 0) as [Hz|Hnz]; split.
    + discriminate.
    + intros (i & Hi & Hp & Hv).
      apply (f_equal (fun x => Z.testbit x i)) in Hz.
      rewrite Z.land_spec, Hp, Hv, Z.bits_0 in Hz. discriminate.
    + intros _.
      assert (Hpos : 0 < Z.land v pin).
      { assert (0 <= Z.land v pin) by (apply Z.land_nonneg; right; lia). lia. }
      exists (Z.log2 (Z.land v pin)).
      pose proof (Z.bit_log2 _ Hpos) as Hbit.
      rewrite Z.land_spec in Hbit. apply andb_true_iff in Hbit as [Hv Hp].
      split; [apply Z.log2_nonneg|]. split; assumption.
    + reflexivity.
  - intros k Hk ->.
    destruct (Z.testbit v k) eqn:Hv.
    + destruct (Z.eqb_spec (Z.land v (2 ^ k)) 0) as [Hz|]; [|reflexivity].
      apply (f_equal (fun x => Z.testbit x k)) in Hz.
      rewrite Z.land_spec, Hv, Z.pow2_bits_true, Z.bits_0 in Hz by lia.
      discriminate.
    + destruct (Z.eqb_spec (Z.land v (2 ^ k)) 0) as [|Hnz]; [reflexivity|].
      exfalso. apply Hnz. apply Z.bits_inj'. intros j Hj.
      rewrite Z.land_spec, Z.bits_0, Z.pow2_bits_eqb by lia.
      destruct (Z.eqb_spec k j) as [<-|]; [now rewrite Hv | apply andb_false_r].
  - cbn [bus_emit bus_log]. rewrite bus_writes_app. cbn [bus_writes].
    apply app_nil_r.
  - intros Hmask Hecho.
    destruct (xl9555_pin_write_value B b pin val ltac:(lia))
      as (Hval & w0 & w1 & Hw0 & Hw1 & Hpv & _).
    rewrite (xl9555_pin_read_value B _ pin). cbv zeta. cbn [snd].
    rewrite Hecho. cbn [fst snd]. rewrite Hu, Hpv.
    destruct (port_value_bytes w0 w1 Hw0 Hw1) as (_ & -> & ->).
    unfold u8. rewrite !Z.mod_small by (change (2 ^ 8) with 256; lia).
    rewrite <- Hpv, Hval, Hmask. fold v.
    destruct (val =? 0).
    + replace (Z.land (Z.ldiff v pin) pin) with 0; [reflexivity|].
      apply Z.bits_inj'. intros i Hi.
      rewrite Z.bits_0, Z.land_spec, Z.ldiff_spec.
      destruct (Z.testbit pin i), (Z.testbit v i); reflexivity.
    + replace (Z.land (Z.lor v pin) pin) with pin.
      * destruct (Z.eqb_spec pin 0); [lia | reflexivity].
      * apply Z.bits_inj'. intros i Hi. rewrite Z.land_spec, Z.lor_spec.
        destruct (Z.testbit pin i), (Z.testbit v i); reflexivity.
  - intros Hecho.
    rewrite (xl9555_pin_read_echo B b pin val Hpin Hecho).
    destruct (xl9555_pin_write_value B b pin val ltac:(lia)) as (Hval & _).
    fold v in Hval.
    assert (Hbits : forall i, 0 <= i ->
              Z.testbit (snd (xl9555_pin_write B b pin val)) i =
              if Z.testbit (pin_mask pin) i then negb (val =? 0)
              else Z.testbit v i).
    { intros i Hi. rewrite Hval.
      destruct (val =? 0); cbn [negb]; bits;
        destruct (Z.testbit (pin_mask pin) i); cbn [negb];
        rewrite ?andb_true_r, ?andb_false_r, ?orb_true_r, ?orb_false_r;
        reflexivity. }
    destruct (Z.land (snd (xl9555_pin_write B b pin val)) pin =? 0) eqn:Hland.
    + split; [discriminate|]. intros (i & Hi & Hp & Hset). exfalso.
      assert (Hnz : (Z.land (snd (xl9555_pin_write B b pin val)) pin =? 0)
                    = false).
      { apply land_nonzero_bit; [lia|]. exists i.
        split; [exact Hi|]. split; [exact Hp|].
        rewrite (Hbits i Hi).
        destruct (Z.testbit (pin_mask pin) i); [|exact Hset].
        apply negb_true_iff, Z.eqb_neq. exact Hset. }
      rewrite Hland in Hnz. discriminate.
    + split; [|reflexivity]. intros _.
      apply land_nonzero_bit in Hland; [|lia].
      destruct Hland as (i & Hi & Hp & Hset).
      exists i. split; [exact Hi|]. split; [exact Hp|].
      rewrite (Hbits i Hi) in Hset.
      destruct (Z.testbit (pin_mask pin) i); [|exact Hset].
      apply negb_true_iff, Z.eqb_neq in Hset. exact Hset.
  - intros Hecho Hrange.
    assert (Hmask : pin_mask pin = 0).
    { unfold pin_mask.
      destruct (Z.leb_spec pin 0x0080) as [Hle|_]; [lia|].
      apply Z.bits_inj'. intros i Hi.
      rewrite Z.land_spec, testbit_0xFF00, Z.bits_0.
      destruct (Z.leb_spec 8 i); cbn [andb]; [|apply andb_false_r].
      rewrite (testbit_small pin i 8); [reflexivity | | lia].
      change (2 ^ 8) with 256. lia. }
    destruct (xl9555_pin_write_value B b pin val ltac:(lia)) as (Hval & _).
    fold v in Hval. rewrite Hmask in Hval.
    assert (Hsame : snd (xl9555_pin_write B b pin val) = v).
    { rewrite Hval. destruct (val =? 0);
        [apply Z.ldiff_0_r | apply Z.lor_0_r]. }
    split; [exact Hsame|].
    rewrite (xl9555_pin_read_echo B b pin val Hpin Hecho), Hsame.
    reflexivity.
Qed.

Lemma xl9555_pin_read_after_write_witness :
  let B := chip_script [(0xFF, 0xFF); (0xF7, 0xFF)] 0xFF 0xFF in
  let res := xl9555_pin_write B idle_bus BEEP_IO 0 in
  let B' := chip_script [(0x00, 0x00); (0x00, 0x00)] 0x00 0x00 in
  let res' := xl9555_pin_write B' idle_bus 0x00C0 1 in
  snd (xl9555_pin_read B idle_bus BEEP_IO) = 1 /\
  snd (xl9555_pin_read B (fst res) BEEP_IO) = 0 /\
  snd res' = 0 /\
  snd (xl9555_pin_read B' (fst res') 0x00C0) = 0.
Proof.
  cbv zeta.
  destruct (xl9555_pin_read_after_write
              (chip_script [(0xFF, 0xFF); (0xF7, 0xFF)] 0xFF 0xFF)
              idle_bus BEEP_IO 0) as (_ & _ & Hbit & _ & Hecho & _).
  - vm_compute. split; reflexivity.
  - destruct (xl9555_pin_read_after_write
                (chip_script [(0x00, 0x00); (0x00, 0x00)] 0x00 0x00)
                idle_bus 0x00C0 1) as (_ & _ & _ & _ & _ & _ & Hdrop).
    + vm_compute. split; reflexivity.
    + destruct (Hdrop eq_refl) as (Hsame & Hread).
      * vm_compute. split; reflexivity.
      * split; [rewrite (Hbit 3); [reflexivity | lia | reflexivity]|].
        split; [apply Hecho; reflexivity|].
        split; [rewrite Hsame | rewrite Hread]; reflexivity.
Defined.

(** ** The keys *)

Section Keys.

Variable B : I2cEnv.
Variables d0 d1 : Z.

Lemma key_read (b : Bus) (io bit : Z) :
  steady_from B d0 d1 (n_i2c_read b) ->
  0 <= bit < 8 -> io = 2 ^ (bit + 8) ->
  snd (xl9555_pin_read B b io) = key_level d1 bit /\
  n_i2c_read (fst (xl9555_pin_read B b io)) = S (n_i2c_read b).
Proof.
  intros Hst Hbit ->. rewrite xl9555_pin_read_value. cbv zeta. cbn [fst snd].
  rewrite (Hst _ (Nat.le_refl _)). cbn [fst snd bus_emit n_i2c_read].
  split; [|reflexivity]. unfold key_level.
  assert (Hu : u16 (2 ^ (bit + 8)) = 2 ^ (bit + 8)).
  { unfold u16. apply Z.mod_small. split; [apply Z.pow_nonneg; lia|].
    apply Z.pow_lt_mono_r; lia. }
  rewrite Hu.
  assert (Hb : Z.testbit (port_value (u8 d0) (u8 d1)) (bit + 8)
               = Z.testbit (u8 d1) bit).
  { rewrite port_value_bits by (try apply u8_range; lia).
    destruct (Z.ltb_spec (bit + 8) 8); [lia|].
    destruct (Z.ltb_spec (bit + 8) 16); [|lia].
    now replace (bit + 8 - 8) with bit by lia. }
  destruct (Z.testbit (u8 d1) bit) eqn:Hv.
  - destruct (Z.eqb_spec (Z.land (port_value (u8 d0) (u8 d1)) (2 ^ (bit + 8))) 0)
      as [Hz|]; [|reflexivity].
    apply (f_equal (fun x => Z.testbit x (bit + 8))) in Hz.
    rewrite Z.land_spec, Hb, Z.pow2_bits_true, Z.bits_0 in Hz by lia.
    discriminate.
  - destruct (Z.eqb_spec (Z.land (port_value (u8 d0) (u8 d1)) (2 ^ (bit + 8))) 0)
      as [|Hnz]; [reflexivity|].
    exfalso. apply Hnz. apply Z.bits_inj'. intros j Hj.
    rewrite Z.land_spec, Z.bits_0, Z.pow2_bits_eqb by lia.
    destruct (Z.eqb_spec (bit + 8) j) as [<-|]; [now rewrite Hb | apply andb_false_r].
Qed.

Lemma steady_later (n m : nat) : (n <= m)%nat -> steady_from B d0 d1 n -> steady_from B d0 d1 m.
Proof. intros Hnm Hst k Hk. apply Hst. lia. Qed.

End Keys.

Section KeyScan.

Variable B : I2cEnv.
Variables d0 d1 : Z.

Lemma key_read_eq (b : Bus) (io bit : Z) :
  steady_from B d0 d1 (n_i2c_read b) ->
  0 <= bit < 8 -> io = 2 ^ (bit + 8) ->
  xl9555_pin_read B b io = (after_read b, key_level d1 bit).
Proof.
  intros Hst Hbit Hio.
  destruct (key_read B d0 d1 b io bit Hst Hbit Hio) as (Hv & _).
  rewrite xl9555_pin_read_value in *. cbv zeta in *. cbn [snd] in Hv.
  now rewrite Hv.
Qed.

Lemma steady_after_read (b : Bus) :
  steady_from B d0 d1 (n_i2c_read b) ->
  steady_from B d0 d1 (n_i2c_read (after_read b)).
Proof. apply steady_later. cbn. lia. Qed.

Lemma bus_writes_after_read (b : Bus) :
  bus_writes (bus_log (after_read b)) = bus_writes (bus_log b).
Proof.
  cbn [after_read bus_emit bus_log]. rewrite bus_writes_app. apply app_nil_r.
Qed.

(** Rewrites the next read of a key in a steady state. *)
Ltac read_key :=
  try match goal with
      | Hst : steady_from B d0 d1 (n_i2c_read ?b)
        |- context [xl9555_pin_read B (bus_emit ?e ?b) _] =>
          change (steady_from B d0 d1 (n_i2c_read (bus_emit e b))) in Hst
      end;
  match goal with
  | Hst : steady_from B d0 d1 (n_i2c_read ?b)
    |- context [xl9555_pin_read B ?b KEY0_IO] =>
      rewrite (key_read_eq b KEY0_IO 7 Hst ltac:(lia) eq_refl);
      apply steady_after_read in Hst
  | Hst : steady_from B d0 d1 (n_i2c_read ?b)
    |- context [xl9555_pin_read B ?b KEY1_IO] =>
      rewrite (key_read_eq b KEY1_IO 6 Hst ltac:(lia) eq_refl);
      apply steady_after_read in Hst
  | Hst : steady_from B d0 d1 (n_i2c_read ?b)
    |- context [xl9555_pin_read B ?b KEY2_IO] =>
      rewrite (key_read_eq b KEY2_IO 5 Hst ltac:(lia) eq_refl);
      apply steady_after_read in Hst
  | Hst : steady_from B d0 d1 (n_i2c_read ?b)
    |- context [xl9555_pin_read B ?b KEY3_IO] =>
      rewrite (key_read_eq b KEY3_IO 4 Hst ltac:(lia) eq_refl);
      apply steady_after_read in Hst
  end.

Lemma bus_writes_wait_us (b : Bus) (us : Z) :
  bus_writes (bus_log (bus_emit (WaitUs us) b)) = bus_writes (bus_log b).
Proof.
  cbn [bus_emit bus_log]. rewrite bus_writes_app. apply app_nil_r.
Qed.

Lemma xl9555_key_scan_steady (b : Bus) (key_up mode : Z) :
  steady_from B d0 d1 (n_i2c_read b) ->
  let r := xl9555_key_scan B b key_up mode in
  let armed := negb (u8 mode =? 0) || negb (key_up =? 0) in
  snd r = (if armed then key_of (u8 d1) else 0) /\
  snd (fst r) = (if key_of (u8 d1) =? 0 then 1 else 0) /\
  steady_from B d0 d1 (n_i2c_read (fst (fst r))) /\
  bus_writes (bus_log (fst (fst r))) = bus_writes (bus_log b).
Proof.
  intros Hst. cbv zeta. unfold xl9555_key_scan, any_key_low, all_keys_high.
  unfold key_of.
  destruct (Z.testbit (u8 d1) 4) eqn:H4, (Z.testbit (u8 d1) 5) eqn:H5,
    (Z.testbit (u8 d1) 6) eqn:H6, (Z.testbit (u8 d1) 7) eqn:H7;
    (destruct (u8 mode =? 0); cbn [negb orb];
     [destruct (Z.eqb_spec key_up 0) as [->|Hup]; cbn [negb]|]);
    change (1 =? 0) with false; cbn [negb];
    repeat (read_key; unfold key_level; rewrite ?H4, ?H5, ?H6, ?H7;
            cbn [Z.eqb negb fst snd Pos.eqb]);
    cbn [fst snd];
    repeat (rewrite bus_writes_wait_us || rewrite bus_writes_after_read);
    repeat split; try reflexivity; try assumption;
    try (destruct (Z.eqb_spec key_up 0); [contradiction | reflexivity]).
Qed.

End KeyScan.

Lemma xl9555_key_scan_range (B : I2cEnv) (b : Bus) (key_up mode : Z) :
  0 <= snd (xl9555_key_scan B b key_up mode) <= 4.
Proof.
  unfold xl9555_key_scan, any_key_low, all_keys_high.
  repeat match goal with
         | |- context [let (_, _) := ?x in _] => destruct x
         | |- context [if ?c then _ else _] => destruct c
         end;
    cbn [snd]; unfold KEY0_PRES, KEY1_PRES, KEY2_PRES, KEY3_PRES; lia.
Qed.

(** X10: [xl9555_key_scan] returns 0, 1, 2, 3 or 4.  On inputs that keep
    still during the call, it reports a key only when [mode] is not zero
    or the flag [key_up] is set, and then the pressed key of highest
    number (KEY3 before KEY2 before KEY1 before KEY0; a key is pressed
    when its input is low); it leaves [key_up] set exactly when no key is
    pressed, and transmits nothing. *)
Theorem xl9555_key_scan_report (B : I2cEnv) (b : Bus) (key_up mode d0 d1 : Z) :
  let r := xl9555_key_scan B b key_up mode in
  let armed := negb (u8 mode =? 0) || negb (key_up =? 0) in
  0 <= snd r <= 4 /\
  (steady_from B d0 d1 (n_i2c_read b) ->
     snd r = (if armed then key_of (u8 d1) else 0) /\
     snd (fst r) = (if key_of (u8 d1) =? 0 then 1 else 0) /\
     bus_writes (bus_log (fst (fst r))) = bus_writes (bus_log b) /\
     (armed = true -> Z.testbit (u8 d1) 4 = false -> snd r = KEY3_PRES) /\
     (armed = true -> Z.testbit (u8 d1) 4 = true ->
      Z.testbit (u8 d1) 5 = false -> snd r = KEY2_PRES)).
Proof.
  cbv zeta. split; [apply xl9555_key_scan_range|].
  intros Hst.
  destruct (xl9555_key_scan_steady B d0 d1 b key_up mode Hst)
    as (Hval & Hup & _ & Hbus).
  cbv zeta in *. split; [exact Hval|]. split; [exact Hup|].
  split; [exact Hbus|]. split.
  - intros Harmed H4. rewrite Hval, Harmed. unfold key_of. now rewrite H4.
  - intros Harmed H4 H5. rewrite Hval, Harmed. unfold key_of.
    now rewrite H4, H5.
Qed.

Lemma xl9555_key_scan_report_witness :
  (* KEY1 and KEY3 are held: inputs 0x4000 and 0x1000 low *)
  let r := xl9555_key_scan (chip 0xFF 0xAF) idle_bus 1 0 in
  snd r = KEY3_PRES /\ snd (fst r) = 0.
Proof.
  destruct (xl9555_key_scan_report (chip 0xFF 0xAF) idle_bus 1 0 0xFF 0xAF)
    as (_ & Hst).
  destruct Hst as (_ & Hup & _ & H3 & _).
  - intros k _. reflexivity.
  - cbv zeta. split; [apply H3; reflexivity | exact Hup].
Defined.

Lemma key_scans_steady (B : I2cEnv) (d0 d1 : Z) (n : nat) :
  forall b key_up mode,
    steady_from B d0 d1 (n_i2c_read b) ->
    let c := key_of (u8 d1) in
    snd (key_scans B n b key_up mode) =
    if negb (u8 mode =? 0) then repeat c n
    else if c =? 0 then repeat 0 n
    else if key_up =? 0 then repeat 0 n
    else match n with O => [] | S m => c :: repeat 0 m end.
Proof.
  induction n as [|n IH]; intros b key_up mode Hst; cbv zeta.
  - cbn [key_scans snd repeat]. repeat match goal with
                                       | |- context [if ?c then _ else _] => destruct c
                                       end; reflexivity.
  - cbn [key_scans].
    destruct (xl9555_key_scan_steady B d0 d1 b key_up mode Hst)
      as (Hval & Hup & Hst' & _).
    cbv zeta in *.
    destruct (xl9555_key_scan B b key_up mode) as [[b1 key_up1] keyval].
    cbn [fst snd] in *.
    specialize (IH b1 key_up1 mode Hst'). cbv zeta in IH.
    destruct (key_scans B n b1 key_up1 mode) as [[b2 key_up2] rest].
    cbn [snd] in *. subst rest keyval key_up1.
    destruct (u8 mode =? 0); cbn [negb orb repeat]; [|reflexivity].
    destruct (Z.eqb_spec (key_of (u8 d1)) 0) as [Hc|Hc].
    + rewrite Hc. destruct (key_up =? 0); reflexivity.
    + change (0 =? 0) with true. cbv iota.
      destruct (key_up =? 0); cbn [negb]; reflexivity.
Qed.

(** X11: while a key is held on steady inputs, successive calls of
    [xl9555_key_scan(0)] report it once, at the first call made with the
    flag [key_up] set, and 0 afterwards; calls with a non-zero [mode]
    report it every time; and while no key is held every call returns
    0. *)
Theorem xl9555_key_scan_repeats (B : I2cEnv) (d0 d1 : Z) (n : nat)
    (b : Bus) (key_up mode : Z) :
  steady_from B d0 d1 (n_i2c_read b) ->
  let c := key_of (u8 d1) in
  (u8 mode <> 0 -> snd (key_scans B n b key_up mode) = repeat c n) /\
  (u8 mode = 0 -> c <> 0 -> key_up <> 0 ->
     snd (key_scans B (S n) b key_up mode) = c :: repeat 0 n) /\
  (u8 mode = 0 -> c <> 0 -> key_up = 0 ->
     snd (key_scans B n b key_up mode) = repeat 0 n) /\
  (c = 0 -> snd (key_scans B n b key_up mode) = repeat 0 n).
Proof.
  intros Hst. cbv zeta.
  pose proof (key_scans_steady B d0 d1 n b key_up mode Hst) as Hn.
  pose proof (key_scans_steady B d0 d1 (S n) b key_up mode Hst) as HSn.
  cbv zeta in *.
  split; [|split; [|split]].
  - intros Hm. rewrite Hn. apply Z.eqb_neq in Hm. now rewrite Hm.
  - intros Hm Hc Hup. rewrite HSn, Hm.
    apply Z.eqb_neq in Hc, Hup. now rewrite Hc, Hup.
  - intros Hm Hc ->. rewrite Hn, Hm. apply Z.eqb_neq in Hc. now rewrite Hc.
  - intros Hc. rewrite Hn, Hc.
    destruct (u8 mode =? 0); reflexivity.
Qed.

Lemma xl9555_key_scan_repeats_witness :
  snd (key_scans (chip 0xFF 0xAF) 4 idle_bus 1 0) = [4; 0; 0; 0] /\
  snd (key_scans (chip 0xFF 0xAF) 3 idle_bus 1 1) = [4; 4; 4] /\
  snd (key_scans (chip 0xFF 0xAF) 3 idle_bus 0 0) = [0; 0; 0] /\
  snd (key_scans (chip 0xFF 0xFF) 3 idle_bus 1 0) = [0; 0; 0].
Proof.
  assert (Hst : forall r1, steady_from (chip 0xFF r1) 0xFF r1 (n_i2c_read idle_bus))
    by (intros r1 k _; reflexivity).
  split; [|split; [|split]].
  - destruct (xl9555_key_scan_repeats (chip 0xFF 0xAF) 0xFF 0xAF 3 idle_bus 1 0
                (Hst _)) as (_ & H & _).
    apply H; [reflexivity | discriminate | discriminate].
  - destruct (xl9555_key_scan_repeats (chip 0xFF 0xAF) 0xFF 0xAF 3 idle_bus 1 1
                (Hst _)) as (H & _).
    apply H. discriminate.
  - destruct (xl9555_key_scan_repeats (chip 0xFF 0xAF) 0xFF 0xAF 3 idle_bus 0 0
                (Hst _)) as (_ & _ & H & _).
    apply H; [reflexivity | discriminate | reflexivity].
  - destruct (xl9555_key_scan_repeats (chip 0xFF 0xFF) 0xFF 0xFF 3 idle_bus 1 0
                (Hst _)) as (_ & _ & _ & H).
    apply H. reflexivity.
Defined.

(** ** The configuration loop *)

Lemma xl9555_ioconfig_turn (B : I2cEnv) (b : Bus) (reg : Z) (data : list Z) :
  malloc_ans B (n_malloc b) = true ->
  let r := xl9555_write_byte B b reg data in
  snd r = i2c_write_ans B (n_i2c_write b) /\
  n_i2c_write (fst r) = S (n_i2c_write b) /\
  bus_writes (bus_log (fst r)) = bus_writes (bus_log b) ++ [u8 reg :: data] /\
  bus_waits (bus_log (fst r)) = bus_waits (bus_log b).
Proof.
  intros Hm. destruct (xl9555_write_byte_log B b reg data)
    as (_ & _ & Hw & Hyes & _).
  cbv zeta in *. destruct (Hyes Hm) as (Hret & Hn & Hlog).
  rewrite Hlog, bus_writes_app. cbn [bus_writes].
  rewrite Hlog in Hw. repeat split; assumption.
Qed.

(** X12: when every allocation succeeds, the first [n] transmissions of
    [xl9555_ioconfig] fail and the next one succeeds, the function
    returns after exactly [n + 1] turns of its loop: it has transmitted
    [n + 1] times the register 6 followed by the low and the high byte
    of the value, and waited 100 ms after every one of them, the last
    included; with fewer turns allowed it has not returned. *)
Theorem xl9555_ioconfig_retries (B : I2cEnv) (n : nat) :
  forall (fuel : nat) (b : Bus) (config_value : Z),
    (forall k, malloc_ans B k = true) ->
    (forall k, (k < n)%nat -> i2c_write_ans B (n_i2c_write b + k) <> ESP_OK) ->
    i2c_write_ans B (n_i2c_write b + n) = ESP_OK ->
    let frame :=
      [XL9555_CONFIG_PORT0_REG; Z.land 0xFF (u16 config_value);
       Z.shiftr (u16 config_value) 8] in
    ((fuel <= n)%nat -> xl9555_ioconfig B fuel b config_value = None) /\
    ((n < fuel)%nat ->
       exists b',
         xl9555_ioconfig B fuel b config_value = Some b' /\
         bus_writes (bus_log b') = bus_writes (bus_log b) ++ repeat frame (S n) /\
         bus_waits (bus_log b') = bus_waits (bus_log b) ++ repeat 100 (S n)).
Proof.
  assert (Hbyte0 : forall c, u8 (Z.land 0xFF (u16 c)) = Z.land 0xFF (u16 c)).
  { intros c. apply Z.bits_inj'. intros i Hi. bits. cmp; cbn [andb]; try reflexivity; lia. }
  assert (Hbyte1 : forall c, u8 (Z.land 0xFF (Z.shiftr (u16 c) 8)) = Z.shiftr (u16 c) 8).
  { intros c. apply Z.bits_inj'. intros i Hi. bits. cmp; cbn [andb]; try reflexivity; lia. }
  assert (Hidem : forall c, u16 (u16 c) = u16 c).
  { intros c. unfold u16. apply Z.mod_mod. discriminate. }
  induction n as [|n IH]; intros fuel b c Hm Hfail Hok; cbv zeta.
  - split.
    + intros Hf. replace fuel with 0%nat by lia. reflexivity.
    + intros Hf. destruct fuel as [|fuel]; [lia|]. cbn [xl9555_ioconfig].
      destruct (xl9555_ioconfig_turn B b XL9555_CONFIG_PORT0_REG
                  [u8 (Z.land 0xFF (u16 c)); u8 (Z.land 0xFF (Z.shiftr (u16 c) 8))]
                  (Hm _)) as (Hret & _ & Hw & Hd).
      cbv zeta in *.
      destruct (xl9555_write_byte B b XL9555_CONFIG_PORT0_REG _) as [b1 err].
      cbn [fst snd] in *. rewrite Nat.add_0_r in Hok.
      rewrite Hret, Hok. change (ESP_OK =? ESP_OK) with true. cbv iota.
      eexists. split; [reflexivity|].
      cbn [bus_emit bus_log repeat].
      rewrite bus_writes_app, bus_waits_app, Hw, Hd, Hbyte0, Hbyte1.
      cbn [bus_writes bus_waits]. rewrite app_nil_r. auto.
  - assert (H0 : i2c_write_ans B (n_i2c_write b) <> ESP_OK)
      by (rewrite <- (Nat.add_0_r (n_i2c_write b)); apply Hfail; lia).
    destruct fuel as [|fuel].
    { split; [reflexivity | lia]. }
    cbn [xl9555_ioconfig].
    destruct (xl9555_ioconfig_turn B b XL9555_CONFIG_PORT0_REG
                [u8 (Z.land 0xFF (u16 c)); u8 (Z.land 0xFF (Z.shiftr (u16 c) 8))]
                (Hm _)) as (Hret & Hn & Hw & Hd).
    cbv zeta in *.
    destruct (xl9555_write_byte B b XL9555_CONFIG_PORT0_REG _) as [b1 err].
    cbn [fst snd] in *. rewrite Hret.
    apply Z.eqb_neq in H0. rewrite H0.
    set (b3 := bus_emit (WaitMs 100) (bus_emit LogError b1)).
    assert (Hn3 : n_i2c_write b3 = S (n_i2c_write b)) by exact Hn.
    destruct (IH fuel b3 (u16 c) Hm) as (Hnone & Hsome).
    { intros k Hk. rewrite Hn3.
      replace (S (n_i2c_write b) + k)%nat with (n_i2c_write b + S k)%nat by lia.
      apply Hfail. lia. }
    { rewrite Hn3.
      replace (S (n_i2c_write b) + n)%nat with (n_i2c_write b + S n)%nat by lia.
      exact Hok. }
    rewrite Hidem in *.
    split.
    + intros Hf. apply Hnone. lia.
    + intros Hf. destruct (Hsome ltac:(lia)) as (b' & Hrun & Hw' & Hd').
      exists b'. split; [exact Hrun|].
      rewrite Hw', Hd'. subst b3. cbn [bus_emit bus_log].
      rewrite !bus_writes_app, !bus_waits_app, Hw, Hd, Hbyte0, Hbyte1.
      cbn [bus_writes bus_waits repeat]. rewrite !app_nil_r, <- !app_assoc.
      auto.
Qed.

Lemma xl9555_ioconfig_retries_witness :
  xl9555_ioconfig (chip_late 2) 2 idle_bus 0xF003 = None /\
  exists b',
    xl9555_ioconfig (chip_late 2) 5 idle_bus 0xF003 = Some b' /\
    bus_writes (bus_log b') = [[6; 0x03; 0xF0]; [6; 0x03; 0xF0]; [6; 0x03; 0xF0]] /\
    bus_waits (bus_log b') = [100; 100; 100].
Proof.
  assert (Hm : forall k, malloc_ans (chip_late 2) k = true) by reflexivity.
  assert (Hfail : forall k, (k < 2)%nat ->
            i2c_write_ans (chip_late 2) (n_i2c_write idle_bus + k) <> ESP_OK).
  { intros k Hk. do 2 (destruct k as [|k]; [discriminate|]). lia. }
  split.
  - destruct (xl9555_ioconfig_retries (chip_late 2) 2 2 idle_bus 0xF003
                Hm Hfail eq_refl) as (Hnone & _).
    apply Hnone. lia.
  - destruct (xl9555_ioconfig_retries (chip_late 2) 2 5 idle_bus 0xF003
                Hm Hfail eq_refl) as (_ & Hsome).
    exact (Hsome ltac:(lia)).
Defined.

(** ** The SPI panel *)

Lemma upto_length (n : Z) : length (upto n) = Z.to_nat n.
Proof. unfold upto. now rewrite length_map, length_seq. Qed.

Lemma upto_In (n k : Z) : In k (upto n) <-> 0 <= k < n.
Proof.
  unfold upto. rewrite in_map_iff. split.
  - intros [i [<- Hi]]. apply in_seq in Hi. lia.
  - intros Hk. exists (Z.to_nat k). split; [lia|]. apply in_seq. lia.
Qed.

Lemma upto_succ (n : Z) : 0 <= n -> upto (n + 1) = upto n ++ [n].
Proof.
  intros Hn. unfold upto.
  replace (Z.to_nat (n + 1)) with (Z.to_nat n + 1)%nat by lia.
  rewrite seq_app, map_app. simpl. now rewrite Z2Nat.id.
Qed.

Lemma constant_buffer {A : Type} (c : Z) (l : list A) :
  Forall (eq c) (map (fun _ => c) l).
Proof. induction l; simpl; constructor; auto. Qed.

Lemma u16_small (x : Z) : 0 <= x < 65536 -> u16 x = x.
Proof. intros H. unfold u16. apply Z.mod_small. simpl. lia. Qed.

Lemma u8_small (x : Z) : 0 <= x < 256 -> u8 x = x.
Proof. intros H. unfold u8. apply Z.mod_small. simpl. lia. Qed.

Lemma size_t_small (x : Z) : 0 <= x < 4294967296 -> size_t x = x.
Proof. intros H. unfold size_t. apply Z.mod_small. simpl. lia. Qed.

(** X13: on the rectangle with the corners [(sx, sy)] and [(ex, ey)],
    [spilcd_fill] paints the pixels with [sx <= px < ex] and
    [sy <= py < ey] and no others, so neither the column [ex] nor the row
    [ey]; every bitmap it sends has one colour for each of its pixels,
    the byte-swapped [color]; the row buffer is given back.  When the
    allocation fails it logs an error and draws nothing. *)
Theorem spilcd_fill_region (sx sy ex ey color : Z) :
  0 <= sx <= ex -> ex < 65536 -> 0 <= sy <= ey -> ey < 65536 ->
  (forall px py,
     painted (spilcd_fill true sx sy ex ey color) px py
     <-> sx <= px < ex /\ sy <= py < ey)
  /\ ~ painted (spilcd_fill true sx sy ex ey color) ex ey
  /\ Forall well_sized (spilcd_fill true sx sy ex ey color)
  /\ Forall (colored (swap_color color)) (spilcd_fill true sx sy ex ey color)
  /\ held_buffers (spilcd_fill true sx sy ex ey color) = 0
  /\ spilcd_fill false sx sy ex ey color = [PanelLogError].
Proof.
  intros Hx Hex Hy Hey.
  assert (Hpaint : forall px py,
     painted (spilcd_fill true sx sy ex ey color) px py
     <-> sx <= px < ex /\ sy <= py < ey).
  { intros px py. unfold painted, spilcd_fill. simpl.
    rewrite (u16_small (ey - sy)) by lia. split.
    - intros [e [[<- | Hin] Hc]]; [destruct Hc|].
      apply in_app_or in Hin. destruct Hin as [Hin | [<- | []]];
        [|destruct Hc].
      apply in_map_iff in Hin. destruct Hin as [k [<- Hk]].
      apply upto_In in Hk. simpl in Hc. lia.
    - intros [Hpx Hpy].
      exists (DrawBitmap sx (sy + (py - sy)) ex (sy + (py - sy) + 1)
                (map (fun _ => swap_color color) (upto (u16 (ex - sx))))).
      split; [|simpl; lia].
      right. apply in_or_app. left.
      apply in_map_iff. exists (py - sy). split; [reflexivity|].
      apply upto_In. lia. }
  split; [exact Hpaint|]. split; [rewrite Hpaint; lia|].
  unfold spilcd_fill. simpl.
  rewrite (u16_small (ey - sy)), (u16_small (ex - sx)) by lia.
  split; [|split; [|split; [|reflexivity]]].
  - constructor; [exact I|]. apply Forall_app. split; [|repeat constructor].
    apply Forall_forall. intros e Hin.
    apply in_map_iff in Hin. destruct Hin as [k [<- Hk]]. simpl.
    rewrite length_map, upto_length. lia.
  - constructor; [exact I|]. apply Forall_app. split; [|repeat constructor].
    apply Forall_forall. intros e Hin.
    apply in_map_iff in Hin. destruct Hin as [k [<- Hk]]. simpl.
    apply constant_buffer.
  - generalize (upto (ey - sy)). intros l.
    induction l as [|k l IH]; simpl in *; lia.
Qed.

Lemma spilcd_fill_region_witness :
  (painted (spilcd_fill true 10 20 13 22 0xF800) 12 21
   <-> 10 <= 12 < 13 /\ 20 <= 21 < 22)
  /\ ~ painted (spilcd_fill true 10 20 13 22 0xF800) 13 22
  /\ held_buffers (spilcd_fill true 10 20 13 22 0xF800) = 0.
Proof.
  destruct (spilcd_fill_region 10 20 13 22 0xF800)
    as [Hpaint [Hcorner [_ [_ [Hheld _]]]]]; try lia.
  split; [exact (Hpaint 12 21) | split; [exact Hcorner | exact Hheld]].
Defined.

(** What [spilcd_draw_hline] does when the test at its head fails. *)
Lemma spilcd_draw_hline_nothing (dev : spilcd_dev) (ok : bool)
    (x y len color : Z) :
  len = 0 \/ width dev <= x \/ height dev <= y ->
  spilcd_draw_hline dev ok x y len color = [].
Proof.
  intros H. unfold spilcd_draw_hline.
  replace ((len =? 0) || (width dev <=? x) || (height dev <=? y)) with true;
    [reflexivity|].
  symmetry. rewrite !orb_true_iff.
  destruct H as [H | [H | H]];
    [left; left; now apply Z.eqb_eq | left; right; now apply Z.leb_le
    | right; now apply Z.leb_le].
Qed.

(** X14: [spilcd_draw_hline] started on the screen with a length that is
    not zero paints the pixels of the row [y] from [x] up to the end of
    the line or the right edge of the screen, whichever comes first, and
    no others; nothing it paints lies off the screen.  The bitmap has one
    colour for each pixel, [color] as it was given, and its buffer is given
    back.  With a zero length, a start off the screen or a failed
    allocation it does nothing. *)
Theorem spilcd_draw_hline_clipped (dev : spilcd_dev) (x y len color : Z) :
  0 <= x < width dev -> width dev < 65536 ->
  0 <= y < height dev ->
  0 < len < 65536 ->
  (forall px py,
     painted (spilcd_draw_hline dev true x y len color) px py
     <-> py = y /\ x <= px < Z.min (x + len) (width dev))
  /\ (forall px py,
     painted (spilcd_draw_hline dev true x y len color) px py ->
     px < width dev /\ py < height dev)
  /\ Forall well_sized (spilcd_draw_hline dev true x y len color)
  /\ Forall (colored color) (spilcd_draw_hline dev true x y len color)
  /\ held_buffers (spilcd_draw_hline dev true x y len color) = 0
  /\ spilcd_draw_hline dev false x y len color = []
  /\ (forall ok x' y' len',
       len' = 0 \/ width dev <= x' \/ height dev <= y' ->
       spilcd_draw_hline dev ok x' y' len' color = []).
Proof.
  intros Hx Hw Hy Hlen.
  assert (Hgo : ((len =? 0) || (width dev <=? x) || (height dev <=? y)) = false).
  { rewrite !orb_false_iff. repeat split;
      [apply Z.eqb_neq | apply Z.leb_gt | apply Z.leb_gt]; lia. }
  assert (Hex : u16 (Z.min (width dev - 1) (x + len - 1))
                = Z.min (x + len) (width dev) - 1).
  { rewrite u16_small by lia. lia. }
  assert (Hwidth : size_t (Z.min (x + len) (width dev) - 1 - x + 1)
                   = Z.min (x + len) (width dev) - x).
  { rewrite size_t_small by lia. lia. }
  assert (Hh : size_t (y - y + 1) = 1).
  { rewrite size_t_small by lia. lia. }
  assert (Hdraw : spilcd_draw_hline dev true x y len color
    = [Alloc ((Z.min (x + len) (width dev) - x) * 2);
       DrawBitmap x y (Z.min (x + len) (width dev)) (y + 1)
         (map (fun _ => color) (upto (Z.min (x + len) (width dev) - x)));
       Release]).
  { unfold spilcd_draw_hline. rewrite Hgo. simpl negb. cbv iota.
    rewrite Hex, Hwidth, Hh, !Z.mul_1_r.
    rewrite (size_t_small ((Z.min (x + len) (width dev) - x) * 2)) by lia.
    rewrite (size_t_small (Z.min (x + len) (width dev) - x)) by lia.
    replace (Z.min (x + len) (width dev) - 1 + 1)
      with (Z.min (x + len) (width dev)) by lia.
    reflexivity. }
  assert (Hpaint : forall px py,
     painted (spilcd_draw_hline dev true x y len color) px py
     <-> py = y /\ x <= px < Z.min (x + len) (width dev)).
  { intros px py. rewrite Hdraw. unfold painted. split.
    - intros [e [[<- | [<- | [<- | []]]] Hc]]; simpl in Hc;
        try contradiction; lia.
    - intros [-> Hpx]. eexists. split; [right; left; reflexivity|].
      simpl. lia. }
  split; [exact Hpaint|]. split.
  { intros px py Hp. apply Hpaint in Hp. lia. }
  rewrite Hdraw. split; [|split; [|split; [|split]]].
  - repeat constructor. simpl. rewrite length_map, upto_length. lia.
  - repeat constructor. simpl. apply constant_buffer.
  - reflexivity.
  - unfold spilcd_draw_hline. rewrite Hgo. reflexivity.
  - intros ok x' y' len' H. now apply spilcd_draw_hline_nothing.
Qed.

Lemma spilcd_draw_hline_clipped_witness :
  (painted (spilcd_draw_hline (mkDev 320 240 1 320 240) true
              300 7 50 0x001F) 319 7
   <-> 7 = 7 /\ 300 <= 319 < Z.min (300 + 50) 320)
  /\ held_buffers (spilcd_draw_hline (mkDev 320 240 1 320 240) true
                     300 7 50 0x001F) = 0.
Proof.
  destruct (spilcd_draw_hline_clipped (mkDev 320 240 1 320 240)
              300 7 50 0x001F) as [Hpaint [_ [_ [_ [Hheld _]]]]];
    simpl; try lia.
  split; [exact (Hpaint 319 7) | exact Hheld].
Defined.

Lemma swap_color_value (color : Z) :
  0 <= color < 65536 ->
  swap_color color = (color mod 256) * 256 + color / 256.
Proof.
  intros H. unfold swap_color.
  change 0x00FF with (Z.ones 8).
  rewrite Z.shiftr_land.
  change (Z.shiftr 0xFF00 8) with (Z.ones 8).
  rewrite !Z.land_ones, Z.shiftl_mul_pow2, Z.shiftr_div_pow2 by lia.
  change (2 ^ 8) with 256.
  assert (Hhigh : 0 <= color / 256 < 256)
    by (split; [apply Z.div_pos | apply Z.div_lt_upper_bound]; lia).
  assert (Hlow : 0 <= color mod 256 < 256)
    by (apply Z.mod_pos_bound; lia).
  rewrite (Z.mod_small (color / 256) 256) by exact Hhigh.
  assert (Hland : Z.land (color mod 256 * 256) (color / 256) = 0).
  { apply Z.bits_inj'. intros i Hi.
    rewrite Z.land_spec, Z.bits_0.
    destruct (Z.ltb_spec i 8) as [Hlt | Hge].
    - change 256 with (2 ^ 8) at 2.
      rewrite Z.mul_pow2_bits_low by lia. reflexivity.
    - rewrite (Z.bits_above_log2 (color / 256) i); [apply andb_false_r|lia|].
      destruct (Z.eq_dec (color / 256) 0) as [-> | Hnz]; [simpl; lia|].
      apply Z.lt_le_trans with 8; [|exact Hge].
      apply Z.log2_lt_pow2; [lia|]. change (2 ^ 8) with 256. lia. }
  rewrite <- (Z.lxor_lor _ _ Hland), <- (Z.add_nocarry_lxor _ _ Hland).
  unfold u16. apply Z.mod_small. change (2 ^ 16) with 65536. lia.
Qed.

(** X15: a point and a horizontal line of one pixel drawn at the same
    place in the same colour cover the same pixel but send different
    colour words: [spilcd_draw_point] the colour with its two bytes
    exchanged, [spilcd_draw_hline] the colour as it was given.  The two
    agree exactly for the colours whose two bytes are equal; exchanging
    the bytes twice gives the colour back. *)
Theorem point_and_hline_colors (dev : spilcd_dev) (x y color : Z) :
  0 <= x < width dev -> width dev < 65536 ->
  0 <= y < height dev ->
  0 <= color < 65536 ->
  spilcd_draw_point x y color
  = [DrawBitmap x y (x + 1) (y + 1) [(color mod 256) * 256 + color / 256]]
  /\ spilcd_draw_hline dev true x y 1 color
     = [Alloc 2; DrawBitmap x y (x + 1) (y + 1) [color]; Release]
  /\ swap_color (swap_color color) = color
  /\ (swap_color color = color <-> color / 256 = color mod 256).
Proof.
  intros Hx Hw Hy Hc.
  assert (Hs : 0 <= swap_color color < 65536).
  { unfold swap_color, u16. apply Z.mod_pos_bound. reflexivity. }
  split; [|split; [|split]].
  - unfold spilcd_draw_point. now rewrite swap_color_value.
  - unfold spilcd_draw_hline.
    replace ((1 =? 0) || (width dev <=? x) || (height dev <=? y)) with false.
    2:{ symmetry. rewrite !orb_false_iff.
        split; [split; [reflexivity|]|]; apply Z.leb_gt; lia. }
    simpl negb. cbv iota.
    replace (u16 (Z.min (width dev - 1) (x + 1 - 1))) with x
      by (rewrite u16_small; lia).
    replace (x - x + 1) with 1 by lia. replace (y - y + 1) with 1 by lia.
    reflexivity.
  - rewrite (swap_color_value (swap_color color)) by exact Hs.
    rewrite (swap_color_value color) by exact Hc.
    Z.div_mod_to_equations. lia.
  - rewrite (swap_color_value color) by exact Hc.
    Z.div_mod_to_equations. lia.
Qed.

Lemma point_and_hline_colors_witness :
  spilcd_draw_point 5 7 0xF800 = [DrawBitmap 5 7 6 8 [0x00F8]]
  /\ spilcd_draw_hline (mkDev 320 240 1 320 240) true 5 7 1 0xF800
     = [Alloc 2; DrawBitmap 5 7 6 8 [0xF800]; Release].
Proof.
  destruct (point_and_hline_colors (mkDev 320 240 1 320 240) 5 7 0xF800)
    as [Hp [Hl _]]; simpl; try lia.
  split; [exact Hp | exact Hl].
Defined.

Lemma line_inc_sgn (delta : Z) : line_inc delta = Z.sgn delta.
Proof.
  unfold line_inc.
  destruct (Z.ltb_spec 0 delta); [lia|].
  destruct (Z.eqb_spec delta 0); lia.
Qed.

Lemma line_abs_abs (delta : Z) : line_abs delta = Z.abs delta.
Proof.
  unfold line_abs.
  destruct (Z.ltb_spec 0 delta); [lia|].
  destruct (Z.eqb_spec delta 0); lia.
Qed.

Lemma line_steps_0 (delta distance : Z) : line_steps delta distance 0 = 0.
Proof. reflexivity. Qed.

(** The error term and the number of moves after one more turn. *)
Lemma line_steps_next (d D t : Z) :
  0 <= d <= D -> 0 <= t ->
  let err := t * d - line_steps d D t * D in
  (D <? err + d) = true
    /\ line_steps d D (t + 1) = line_steps d D t + 1
  \/ (D <? err + d) = false
    /\ line_steps d D (t + 1) = line_steps d D t.
Proof.
  intros Hd Ht. unfold line_steps. cbv zeta.
  destruct (Z.eq_dec d 0) as [-> | Hd0].
  { rewrite !Z.mul_0_r. simpl. right. split; [apply Z.ltb_ge; lia | reflexivity]. }
  assert (HD : 0 < D) by lia.
  replace (0 <? (t + 1) * d) with true by (symmetry; apply Z.ltb_lt; nia).
  destruct (Z.eq_dec t 0) as [-> | Ht0].
  { rewrite !Z.mul_0_l, Z.add_0_l, Z.mul_1_l. right.
    split; [apply Z.ltb_ge; simpl; lia|].
    apply Z.div_small. lia. }
  replace (0 <? t * d) with true by (symmetry; apply Z.ltb_lt; nia).
  pose proof (Z.div_mod (t * d - 1) D ltac:(lia)) as Hq.
  pose proof (Z.mod_pos_bound (t * d - 1) D HD) as Hr.
  set (q := (t * d - 1) / D) in *. set (r := (t * d - 1) mod D) in *.
  destruct (Z.ltb_spec D (t * d - q * D + d)) as [Hgt | Hle].
  - left. split; [reflexivity|].
    symmetry. apply (Z.div_unique _ _ _ (r + d - D)); nia.
  - right. split; [reflexivity|].
    symmetry. apply (Z.div_unique _ _ _ (r + d)); nia.
Qed.

Lemma line_move (d D inc x0 t : Z) :
  0 <= d <= D -> 0 <= t ->
  (if D <? t * d - line_steps d D t * D + d
   then (t * d - line_steps d D t * D + d - D,
         x0 + inc * line_steps d D t + inc)
   else (t * d - line_steps d D t * D + d, x0 + inc * line_steps d D t))
  = ((t + 1) * d - line_steps d D (t + 1) * D,
     x0 + inc * line_steps d D (t + 1)).
Proof.
  intros Hd Ht.
  destruct (line_steps_next d D t Hd Ht) as [[-> ->] | [-> ->]];
    f_equal; lia.
Qed.

Lemma draw_line_loop_step (fuel : nat)
    (delta_x delta_y distance incx incy color t xerr yerr row col : Z) :
  draw_line_loop (S fuel) delta_x delta_y distance incx incy color
    t xerr yerr row col
  = if t <=? distance + 1 then
      let '(xerr', row') :=
        if distance <? xerr + delta_x
        then (xerr + delta_x - distance, row + incx)
        else (xerr + delta_x, row) in
      let '(yerr', col') :=
        if distance <? yerr + delta_y
        then (yerr + delta_y - distance, col + incy)
        else (yerr + delta_y, col) in
      match draw_line_loop fuel delta_x delta_y distance incx incy color
              (u16 (t + 1)) xerr' yerr' row' col' with
      | Some rest => Some (spilcd_draw_point (u16 row) (u16 col) color ++ rest)
      | None => None
      end
    else Some [].
Proof. reflexivity. Qed.

(** The loop drawing the points [t], ..., [distance + 1]. *)
Lemma draw_line_loop_run (dx dy D incx incy color x1 y1 : Z) :
  0 <= dx <= D -> 0 <= dy <= D -> D < 65534 ->
  forall (n a fuel : nat),
    Z.of_nat a + Z.of_nat n = D + 2 ->
    (n < fuel)%nat ->
    draw_line_loop fuel dx dy D incx incy color (Z.of_nat a)
      (Z.of_nat a * dx - line_steps dx D (Z.of_nat a) * D)
      (Z.of_nat a * dy - line_steps dy D (Z.of_nat a) * D)
      (x1 + incx * line_steps dx D (Z.of_nat a))
      (y1 + incy * line_steps dy D (Z.of_nat a))
    = Some (flat_map
              (fun t => spilcd_draw_point
                          (u16 (x1 + incx * line_steps dx D t))
                          (u16 (y1 + incy * line_steps dy D t)) color)
              (map Z.of_nat (seq a n))).
Proof.
  intros Hdx Hdy HD n.
  induction n as [|n IH]; intros a fuel Ha Hfuel;
    (destruct fuel as [|fuel]; [lia|]); rewrite draw_line_loop_step.
  - replace (Z.of_nat a <=? D + 1) with false
      by (symmetry; apply Z.leb_gt; lia).
    reflexivity.
  - replace (Z.of_nat a <=? D + 1) with true
      by (symmetry; apply Z.leb_le; lia).
    rewrite (line_move dx D incx x1 (Z.of_nat a)) by lia.
    rewrite (line_move dy D incy y1 (Z.of_nat a)) by lia.
    rewrite u16_small by lia.
    replace (Z.of_nat a + 1) with (Z.of_nat (S a)) by lia.
    rewrite IH by lia.
    reflexivity.
Qed.

Lemma flat_map_agree {A B : Type} (f g : A -> list B) (l : list A) :
  (forall a, In a l -> f a = g a) -> flat_map f l = flat_map g l.
Proof.
  induction l as [|a l IH]; intros H; simpl; [reflexivity|].
  rewrite (H a), IH; auto using in_eq, in_cons.
Qed.

Lemma line_steps_last (d D : Z) :
  0 <= d <= D -> line_steps d D (D + 1) = d.
Proof.
  intros Hd. unfold line_steps.
  destruct (Z.ltb_spec 0 ((D + 1) * d)) as [Hpos | Hzero]; [|nia].
  symmetry. apply (Z.div_unique _ _ _ (d - 1)); nia.
Qed.

Lemma line_steps_range (d D t : Z) :
  0 <= d <= D -> 0 <= t <= D + 1 -> 0 <= line_steps d D t <= d.
Proof.
  intros Hd Ht. unfold line_steps.
  destruct (Z.ltb_spec 0 (t * d)) as [Hpos | Hzero]; [|lia].
  assert (HD : 0 < D) by nia.
  split.
  - apply Z.div_pos; lia.
  - apply Z.lt_succ_r. apply Z.div_lt_upper_bound; [lia|]. nia.
Qed.

(** X16: for end points less than 65534 apart along both axes,
    [spilcd_draw_line] returns after drawing [distance + 2] points, the
    point number [t] at [line_point x1 y1 x2 y2 t]: the start point
    twice, then one step along the longer axis at every point, ending on
    [(x2, y2)]; no point leaves the rectangle spanned by the end
    points. *)
Theorem spilcd_draw_line_points (fuel : nat) (x1 y1 x2 y2 color : Z) :
  0 <= x1 < 65536 -> 0 <= y1 < 65536 ->
  0 <= x2 < 65536 -> 0 <= y2 < 65536 ->
  let distance := Z.max (Z.abs (x2 - x1)) (Z.abs (y2 - y1)) in
  distance < 65534 ->
  (Z.to_nat distance + 2 < fuel)%nat ->
  spilcd_draw_line fuel x1 y1 x2 y2 color
  = Some (flat_map
            (fun t => spilcd_draw_point (fst (line_point x1 y1 x2 y2 t))
                        (snd (line_point x1 y1 x2 y2 t)) color)
            (upto (distance + 2)))
  /\ line_point x1 y1 x2 y2 0 = (x1, y1)
  /\ line_point x1 y1 x2 y2 1 = (x1, y1)
  /\ line_point x1 y1 x2 y2 (distance + 1) = (x2, y2)
  /\ (forall t, 0 <= t <= distance + 1 ->
        Z.min x1 x2 <= fst (line_point x1 y1 x2 y2 t) <= Z.max x1 x2
        /\ Z.min y1 y2 <= snd (line_point x1 y1 x2 y2 t) <= Z.max y1 y2).
Proof.
  intros Hx1 Hy1 Hx2 Hy2 distance HD Hfuel.
  assert (Hdx : 0 <= Z.abs (x2 - x1) <= distance) by (unfold distance; lia).
  assert (Hdy : 0 <= Z.abs (y2 - y1) <= distance) by (unfold distance; lia).
  assert (Hbox : forall t, 0 <= t <= distance + 1 ->
        Z.min x1 x2 <= fst (line_point x1 y1 x2 y2 t) <= Z.max x1 x2
        /\ Z.min y1 y2 <= snd (line_point x1 y1 x2 y2 t) <= Z.max y1 y2).
  { intros t Ht. unfold line_point. cbv zeta. fold distance. simpl.
    pose proof (line_steps_range _ _ t Hdx Ht).
    pose proof (line_steps_range _ _ t Hdy Ht).
    split; nia. }
  split; [|split; [|split; [|split; [|exact Hbox]]]].
  - unfold spilcd_draw_line. cbv zeta.
    rewrite !line_inc_sgn, !line_abs_abs.
    replace (if Z.abs (y2 - y1) <? Z.abs (x2 - x1)
             then Z.abs (x2 - x1) else Z.abs (y2 - y1)) with distance
      by (unfold distance; destruct (Z.ltb_spec (Z.abs (y2 - y1))
                                       (Z.abs (x2 - x1))); lia).
    pose proof (draw_line_loop_run (Z.abs (x2 - x1)) (Z.abs (y2 - y1))
                  distance (Z.sgn (x2 - x1)) (Z.sgn (y2 - y1)) color x1 y1
                  Hdx Hdy HD (Z.to_nat (distance + 2)) 0%nat fuel) as Hrun.
    change (Z.of_nat 0) with 0 in Hrun.
    rewrite !line_steps_0, !Z.mul_0_r, !Z.mul_0_l, !Z.add_0_r in Hrun.
    simpl (0 - 0) in Hrun.
    rewrite Hrun by lia.
    f_equal. unfold upto.
    apply flat_map_agree. intros t Ht.
    apply in_map_iff in Ht. destruct Ht as [k [<- Hk]].
    apply in_seq in Hk.
    destruct (Hbox (Z.of_nat k) ltac:(lia)) as [Hbx Hby].
    unfold line_point in *. cbv zeta in *. fold distance in Hbx, Hby |- *.
    simpl in Hbx, Hby |- *.
    rewrite !u16_small by lia. reflexivity.
  - unfold line_point. cbv zeta. rewrite !line_steps_0. f_equal; lia.
  - unfold line_point, line_steps. cbv zeta. fold distance.
    rewrite !Z.mul_1_l.
    f_equal.
    + destruct (Z.ltb_spec 0 (Z.abs (x2 - x1))); [|lia].
      rewrite Z.div_small by lia. lia.
    + destruct (Z.ltb_spec 0 (Z.abs (y2 - y1))); [|lia].
      rewrite Z.div_small by lia. lia.
  - unfold line_point. cbv zeta. fold distance.
    rewrite !line_steps_last by assumption.
    f_equal; lia.
Qed.

Lemma spilcd_draw_line_points_witness :
  spilcd_draw_line 10 2 3 6 5 0xFFFF
  = Some (flat_map
            (fun t => spilcd_draw_point (fst (line_point 2 3 6 5 t))
                        (snd (line_point 2 3 6 5 t)) 0xFFFF)
            (upto (Z.max (Z.abs (6 - 2)) (Z.abs (5 - 3)) + 2))).
Proof.
  apply (spilcd_draw_line_points 10 2 3 6 5 0xFFFF); simpl; lia.
Defined.

Lemma draw_line_loop_forever (dx dy D incx incy color : Z) :
  65534 <= D ->
  forall (fuel : nat) (t xerr yerr row col : Z),
    0 <= t < 65536 ->
    draw_line_loop fuel dx dy D incx incy color t xerr yerr row col = None.
Proof.
  intros HD fuel. induction fuel as [|fuel IH]; intros t xerr yerr row col Ht;
    [reflexivity|].
  rewrite draw_line_loop_step.
  replace (t <=? D + 1) with true by (symmetry; apply Z.leb_le; lia).
  destruct (D <? xerr + dx); destruct (D <? yerr + dy);
    rewrite IH; try reflexivity;
    unfold u16; apply Z.mod_pos_bound; reflexivity.
Qed.

(** X17: when the end points are 65534 or 65535 apart along an axis,
    [spilcd_draw_line] never returns: its 16-bit counter can not pass
    [distance + 1], so the loop is not left whatever the fuel. *)
Theorem spilcd_draw_line_never_returns (x1 y1 x2 y2 color : Z) :
  65534 <= Z.max (Z.abs (x2 - x1)) (Z.abs (y2 - y1)) ->
  forall fuel, spilcd_draw_line fuel x1 y1 x2 y2 color = None.
Proof.
  intros HD fuel. unfold spilcd_draw_line. cbv zeta.
  apply draw_line_loop_forever; [|lia].
  rewrite !line_abs_abs.
  destruct (Z.ltb_spec (Z.abs (y2 - y1)) (Z.abs (x2 - x1))); lia.
Qed.

Lemma spilcd_draw_line_never_returns_witness :
  spilcd_draw_line 5 0 0 65535 0 0xFFFF = None.
Proof.
  apply (spilcd_draw_line_never_returns 0 0 65535 0 0xFFFF). simpl. lia.
Defined.

(** A byte of the glyph gives one pixel for each of its [n] bits. *)
Lemma glyph_byte_full (mode color_tmp : Z) (n : nat) :
  forall bit_index byte_code colortemp,
    length (fst (glyph_byte n false mode color_tmp
                   bit_index byte_code colortemp)) = n.
Proof.
  induction n as [|n IH]; intros bit_index byte_code colortemp;
    [reflexivity|].
  cbn [glyph_byte andb].
  match goal with
  | |- context [glyph_byte n false mode color_tmp ?b ?c ?t] =>
    specialize (IH b c t);
    destruct (glyph_byte n false mode color_tmp b c t) as [pixels last]
  end.
  cbn [fst length] in *. now rewrite IH.
Qed.

(** Under the test for the 24-point font it is left after bit 3. *)
Lemma glyph_byte_short (mode color_tmp : Z) (n : nat) :
  forall bit_index byte_code colortemp,
    0 <= bit_index <= 3 ->
    (Z.to_nat (3 - bit_index) < n)%nat ->
    length (fst (glyph_byte n true mode color_tmp
                   bit_index byte_code colortemp))
    = Z.to_nat (4 - bit_index).
Proof.
  induction n as [|n IH]; intros bit_index byte_code colortemp Hb Hn;
    [lia|].
  cbn [glyph_byte andb].
  destruct (Z.eqb_spec bit_index 3) as [-> | Hne]; [reflexivity|].
  match goal with
  | |- context [glyph_byte n true mode color_tmp ?b ?c ?t] =>
    assert (Hb' : 0 <= b <= 3) by lia;
    assert (Hn' : (Z.to_nat (3 - b) < n)%nat) by lia;
    specialize (IH b c t Hb' Hn');
    destruct (glyph_byte n true mode color_tmp b c t) as [pixels last]
  end.
  cbn [fst length] in *. rewrite IH. lia.
Qed.

Lemma glyph_pixels_length (ch_code : Z -> Z) (size mode color_tmp : Z)
    (byte_indices : list Z) :
  forall colortemp,
    length (glyph_pixels ch_code size mode color_tmp byte_indices colortemp)
    = list_sum (map (byte_pixels size) byte_indices).
Proof.
  induction byte_indices as [|i rest IH]; intros colortemp; [reflexivity|].
  cbn [glyph_pixels map list_sum]. cbv zeta.
  unfold byte_pixels at 1.
  destruct ((size =? 24) && negb (i mod 2 =? 0)) eqn:Hshort.
  - pose proof (glyph_byte_short mode color_tmp 8 0 (ch_code i) colortemp
                  ltac:(lia) ltac:(simpl; lia)) as Hlen.
    destruct (glyph_byte 8 true mode color_tmp 0 (ch_code i) colortemp)
      as [pixels last].
    simpl in Hlen. rewrite length_app, IH, Hlen. reflexivity.
  - pose proof (glyph_byte_full mode color_tmp 8 0 (ch_code i) colortemp)
      as Hlen.
    destruct (glyph_byte 8 false mode color_tmp 0 (ch_code i) colortemp)
      as [pixels last].
    simpl in Hlen. rewrite length_app, IH, Hlen. reflexivity.
Qed.

Ltac glyph_case size :=
  unfold glyph_drawn, spilcd_show_char; cbv zeta;
  match goal with
  | |- context [glyph_pixels ?f ?s ?m ?c ?l ?t] =>
    let Hlen := fresh "Hlen" in
    pose proof (glyph_pixels_length f s m c l t) as Hlen;
    set (pixels := glyph_pixels f s m c l t) in *;
    let n := eval vm_compute in (list_sum (map (byte_pixels size) l)) in
    change (length pixels = n) in Hlen;
    exists (firstn (Z.to_nat (size * (size / 2))) pixels);
    rewrite length_firstn, Hlen;
    split; reflexivity
  end.

(** X18: with the font of size 16, 24 or 32 [spilcd_show_char] fills its
    buffer exactly and sends a glyph of [size / 2] by [size] pixels at
    [(x, y)]; with the font of size 12 it turns all 8 bits of each of the
    12 glyph bytes into pixels, 96 in a buffer of 72, so that it stores 24
    pixels past the end of the buffer, whatever the character. *)
Theorem spilcd_show_char_sizes (font : Z -> Z -> Z -> Z)
    (x y chr mode color : Z) :
  glyph_drawn (spilcd_show_char font true x y chr 16 mode color) x y 8 16 0
  /\ glyph_drawn (spilcd_show_char font true x y chr 24 mode color)
       x y 12 24 0
  /\ glyph_drawn (spilcd_show_char font true x y chr 32 mode color)
       x y 16 32 0
  /\ glyph_drawn (spilcd_show_char font true x y chr 12 mode color)
       x y 6 12 24.
Proof.
  split; [|split; [|split]].
  - glyph_case 16.
  - glyph_case 24.
  - glyph_case 32.
  - glyph_case 12.
Qed.

(** X19: called with a size other than 12, 16, 24 and 32,
    [spilcd_show_char] returns without drawing and without giving back
    the buffer it has taken.  When the allocation fails it logs an error
    and goes on: with an unknown size it returns, with a known one it
    stores the first pixel through the null pointer. *)
Theorem spilcd_show_char_failures (font : Z -> Z -> Z -> Z)
    (x y chr size mode color : Z) :
  size <> 12 -> size <> 16 -> size <> 24 -> size <> 32 ->
  spilcd_show_char font true x y chr size mode color
  = Some [Alloc (size * (size / 2) * 2)]
  /\ held_buffers [Alloc (size * (size / 2) * 2)] = 1
  /\ spilcd_show_char font false x y chr size mode color
     = Some [PanelLogError]
  /\ spilcd_show_char font false x y chr 12 mode color = None
  /\ spilcd_show_char font false x y chr 16 mode color = None
  /\ spilcd_show_char font false x y chr 24 mode color = None
  /\ spilcd_show_char font false x y chr 32 mode color = None.
Proof.
  intros H12 H16 H24 H32.
  assert (Hshape :
    (if size =? 12 then Some (6, 12)
     else if size =? 16 then Some (8, 16)
     else if size =? 24 then Some (12, 24)
     else if size =? 32 then Some (16, 32) else None)
    = @None (Z * Z)).
  { destruct (Z.eqb_spec size 12); [contradiction|].
    destruct (Z.eqb_spec size 16); [contradiction|].
    destruct (Z.eqb_spec size 24); [contradiction|].
    destruct (Z.eqb_spec size 32); [contradiction|]. reflexivity. }
  assert (Hnull : forall s,
    0 < Z.of_nat (list_sum (map (byte_pixels s)
           (upto (glyph_size s)))) ->
    (exists w h,
       (if s =? 12 then Some (6, 12)
        else if s =? 16 then Some (8, 16)
        else if s =? 24 then Some (12, 24)
        else if s =? 32 then Some (16, 32) else None) = Some (w, h)) ->
    spilcd_show_char font false x y chr s mode color = None).
  { intros s Hpos [w [h Hs]]. unfold spilcd_show_char. cbv zeta.
    rewrite Hs, glyph_pixels_length.
    apply Z.ltb_lt in Hpos. rewrite Hpos. reflexivity. }
  split; [|split; [|split; [|split; [|split; [|split]]]]].
  - unfold spilcd_show_char. cbv zeta. now rewrite Hshape.
  - reflexivity.
  - unfold spilcd_show_char. cbv zeta. now rewrite Hshape.
  - apply Hnull; [vm_compute; reflexivity | now exists 6, 12].
  - apply Hnull; [vm_compute; reflexivity | now exists 8, 16].
  - apply Hnull; [vm_compute; reflexivity | now exists 12, 24].
  - apply Hnull; [vm_compute; reflexivity | now exists 16, 32].
Qed.

Lemma spilcd_show_char_failures_witness :
  spilcd_show_char (fun _ _ _ => 0) true 0 0 65 8 0 0
  = Some [Alloc (8 * (8 / 2) * 2)].
Proof.
  apply (spilcd_show_char_failures (fun _ _ _ => 0) 0 0 65 8 0 0); lia.
Defined.

Lemma land_bit7 (b : Z) : (Z.land b 0x80 =? 0) = negb (Z.testbit b 7).
Proof.
  destruct (Z.testbit b 7) eqn:Hb; simpl.
  - apply Z.eqb_neq. intros H0.
    assert (Hbit : Z.testbit (Z.land b 0x80) 7 = true)
      by (rewrite Z.land_spec, Hb; reflexivity).
    rewrite H0 in Hbit. discriminate.
  - apply Z.eqb_eq. apply Z.bits_inj'. intros i Hi.
    rewrite Z.land_spec, Z.bits_0.
    change 0x80 with (2 ^ 7). rewrite Z.pow2_bits_eqb by lia.
    destruct (Z.eqb_spec 7 i) as [<- | Hne];
      [now rewrite Hb | apply andb_false_r].
Qed.

Lemma shifted_bit (b i : Z) :
  0 <= i < 8 -> Z.testbit (u8 (Z.shiftl b 1)) i = Z.testbit b (i - 1).
Proof.
  intros Hi. unfold u8.
  rewrite Z.testbit_mod_pow2 by lia.
  replace (i <? 8) with true by (symmetry; apply Z.ltb_lt; lia).
  rewrite Z.shiftl_spec by lia. reflexivity.
Qed.

(** Without overlay, the pixel number [j] of a byte shows its bit
    [7 - j]. *)
Lemma glyph_byte_nth (color_tmp : Z) (short : bool) (n : nat) :
  forall (j : nat) bit_index byte_code colortemp,
    (j < n)%nat -> (n <= 8)%nat ->
    (short = true -> bit_index + Z.of_nat j <= 3) ->
    nth j (fst (glyph_byte n short 0 color_tmp
                  bit_index byte_code colortemp)) 0
    = pixel_color byte_code (7 - Z.of_nat j) color_tmp.
Proof.
  induction n as [|n IH]; intros j bit_index byte_code colortemp Hj Hn Hs;
    [lia|].
  cbn [glyph_byte]. rewrite land_bit7, negb_involutive.
  change (0 =? 0) with true. cbv iota.
  destruct (short && (bit_index =? 3)) eqn:Hbreak.
  - apply andb_prop in Hbreak. destruct Hbreak as [-> H3].
    apply Z.eqb_eq in H3. specialize (Hs eq_refl).
    destruct j as [|j]; [reflexivity | lia].
  - match goal with
    | |- context [glyph_byte n short 0 color_tmp ?b ?c ?t] =>
      pose proof (IH (pred j) b c t) as IHj;
      destruct (glyph_byte n short 0 color_tmp b c t) as [pixels last]
    end.
    destruct j as [|j]; [reflexivity|].
    cbn [fst nth pred] in *.
    rewrite IHj by (try lia; intros Hshort; specialize (Hs Hshort); lia).
    unfold pixel_color. rewrite shifted_bit by lia.
    replace (7 - Z.of_nat (S j)) with (7 - Z.of_nat j - 1) by lia.
    reflexivity.
Qed.

Lemma glyph_byte_length (size mode color_tmp i byte_code colortemp : Z) :
  length (fst (glyph_byte 8 ((size =? 24) && negb (i mod 2 =? 0))
                 mode color_tmp 0 byte_code colortemp))
  = byte_pixels size i.
Proof.
  unfold byte_pixels.
  destruct ((size =? 24) && negb (i mod 2 =? 0)).
  - now rewrite glyph_byte_short by (simpl; lia).
  - apply glyph_byte_full.
Qed.

Lemma glyph_pixels_nth (ch_code : Z -> Z) (size color_tmp : Z)
    (byte_indices : list Z) :
  forall (i j : nat) colortemp,
    (i < length byte_indices)%nat ->
    (j < byte_pixels size (nth i byte_indices 0%Z))%nat ->
    nth (pixels_before size byte_indices i + j)
        (glyph_pixels ch_code size 0 color_tmp byte_indices colortemp) 0
    = pixel_color (ch_code (nth i byte_indices 0)) (7 - Z.of_nat j)
        color_tmp.
Proof.
  induction byte_indices as [|a rest IH]; intros i j colortemp Hi Hj;
    [simpl in Hi; lia|].
  cbn [glyph_pixels]. cbv zeta.
  pose proof (glyph_byte_length size 0 color_tmp a (ch_code a) colortemp)
    as Hlen.
  pose proof (glyph_byte_nth color_tmp
                ((size =? 24) && negb (a mod 2 =? 0)) 8 j 0
                (ch_code a) colortemp) as Hnth.
  destruct (glyph_byte 8 ((size =? 24) && negb (a mod 2 =? 0)) 0 color_tmp
              0 (ch_code a) colortemp) as [pixels last].
  cbn [fst] in Hlen, Hnth.
  destruct i as [|i].
  - cbn [nth] in Hj |- *. unfold pixels_before. cbn [firstn map list_sum].
    rewrite Nat.add_0_l, app_nth1 by lia.
    apply Hnth; [unfold byte_pixels in Hj;
                 destruct ((size =? 24) && negb (a mod 2 =? 0)); lia
                | lia |].
    intros Hshort. unfold byte_pixels in Hj. rewrite Hshort in Hj. lia.
  - cbn [nth] in Hj |- *. unfold pixels_before. cbn [firstn map].
    change (list_sum (byte_pixels size a
                      :: map (byte_pixels size) (firstn i rest)))
      with (byte_pixels size a
            + list_sum (map (byte_pixels size) (firstn i rest)))%nat.
    rewrite app_nth2 by lia.
    replace (byte_pixels size a
             + list_sum (map (byte_pixels size) (firstn i rest)) + j
             - length pixels)%nat
      with (pixels_before size rest i + j)%nat
      by (unfold pixels_before; lia).
    apply IH; [simpl in Hi; lia | exact Hj].
Qed.

Lemma glyph_source_place (size r c : Z) :
  size = 12 \/ size = 16 \/ size = 24 \/ size = 32 ->
  0 <= r < size -> 0 <= c < size / 2 ->
  source_placed size r c = true.
Proof.
  intros Hsize Hr Hc.
  assert (Hall : forallb (fun r => forallb (source_placed size r)
                                     (upto (size / 2))) (upto size) = true)
    by (destruct Hsize as [-> | [-> | [-> | ->]]]; vm_compute; reflexivity).
  rewrite forallb_forall in Hall.
  specialize (Hall r (proj2 (upto_In _ _) Hr)).
  rewrite forallb_forall in Hall.
  exact (Hall c (proj2 (upto_In _ _) Hc)).
Qed.

Lemma nth_firstn_below {A : Type} (l : list A) (n k : nat) (d : A) :
  (k < n)%nat -> nth k (firstn n l) d = nth k l d.
Proof.
  revert n k. induction l as [|a l IH]; intros n k Hk.
  - now rewrite firstn_nil.
  - destruct n as [|n]; [lia|]. destruct k as [|k]; [reflexivity|].
    simpl. apply IH. lia.
Qed.

(** X20: drawn without overlay in size 16, 24 or 32, the pixel of the row
    [r] and the column [c] of the glyph bitmap has the byte-swapped
    [color] where the bit [7 - c mod 8] of the byte [c / 8] of the row
    [r] of the font is set and is white elsewhere.  In size 12 the rows of
    the bitmap are 6 pixels wide but every font byte still gives 8
    pixels, so the pixel [(r, c)] shows the bit [7 - (6 r + c) mod 8] of
    the byte [(6 r + c) / 8] and the glyph is sheared. *)
Theorem spilcd_show_char_glyph (font : Z -> Z -> Z -> Z)
    (x y chr size color r c : Z) :
  size = 12 \/ size = 16 \/ size = 24 \/ size = 32 ->
  0 <= r < size -> 0 <= c < size / 2 ->
  exists log color_data,
    spilcd_show_char font true x y chr size 0 color = Some log
    /\ In (DrawBitmap x y (x + size / 2) (y + size) color_data) log
    /\ nth (Z.to_nat (r * (size / 2) + c)) color_data 0
       = pixel_color
           (font size (u8 (chr - 32)) (fst (glyph_source size r c)))
           (snd (glyph_source size r c)) (swap_color color).
Proof.
  intros Hsize Hr Hc.
  pose proof (glyph_source_place size r c Hsize Hr Hc) as Hplace.
  unfold source_placed in Hplace. cbv zeta in Hplace.
  rewrite !andb_true_iff in Hplace.
  destruct Hplace as [[[[H1 H2] H3] H4] H5].
  apply Nat.ltb_lt in H1. apply Nat.ltb_lt in H2.
  apply Nat.eqb_eq in H3. apply Z.eqb_eq in H4. apply Z.eqb_eq in H5.
  pose proof (glyph_pixels_nth (font size (u8 (chr - 32))) size
                (swap_color color) (upto (glyph_size size)) _ _ 0 H1 H2)
    as Hnth.
  rewrite H3, H4, H5 in Hnth.
  assert (Hin : (Z.to_nat (r * (size / 2) + c)
                 < Z.to_nat (size * (size / 2)))%nat).
  { assert (0 <= size / 2) by lia. nia. }
  unfold spilcd_show_char. cbv zeta.
  set (pixels := glyph_pixels (font size (u8 (chr - 32))) size 0
                   (swap_color color) (upto (glyph_size size)) 0) in *.
  assert (Hdata : nth (Z.to_nat (r * (size / 2) + c))
                    (firstn (Z.to_nat (size * (size / 2))) pixels) 0
                  = pixel_color
                      (font size (u8 (chr - 32))
                         (fst (glyph_source size r c)))
                      (snd (glyph_source size r c)) (swap_color color))
    by (rewrite nth_firstn_below by exact Hin; exact Hnth).
  clearbody pixels.
  destruct Hsize as [-> | [-> | [-> | ->]]];
    cbn [Z.eqb Pos.eqb negb andb] in *;
    eexists; eexists; (split; [reflexivity|]);
    (split; [|exact Hdata]);
    apply in_or_app; right; apply in_or_app; right; left; reflexivity.
Qed.

Lemma spilcd_show_char_glyph_witness :
  exists log color_data,
    spilcd_show_char (fun _ _ i => i) true 0 0 65 16 0 0x1F = Some log
    /\ In (DrawBitmap 0 0 (0 + 16 / 2) (0 + 16) color_data) log
    /\ nth (Z.to_nat (3 * (16 / 2) + 6)) color_data 0
       = pixel_color ((fun _ _ i => i) 16 (u8 (65 - 32))
                        (fst (glyph_source 16 3 6)))
           (snd (glyph_source 16 3 6)) (swap_color 0x1F).
Proof.
  apply (spilcd_show_char_glyph (fun _ _ i => i) 0 0 65 16 0x1F 3 6);
    [right; left; reflexivity | lia | split; [lia | reflexivity]].
Defined.

Lemma lcd_pow_loop_value (m : Z) (n : nat) :
  forall r, lcd_pow_loop n m (size_t r) = size_t (r * m ^ Z.of_nat n).
Proof.
  induction n as [|n IH]; intros r.
  - simpl. now rewrite Z.mul_1_r.
  - cbn [lcd_pow_loop].
    replace (size_t (size_t r * m)) with (size_t (r * m))
      by (unfold size_t; now rewrite Z.mul_mod_idemp_l).
    rewrite IH. f_equal.
    rewrite Nat2Z.inj_succ, Z.pow_succ_r by lia. ring.
Qed.

Lemma lcd_pow_mod (m n : Z) : 0 <= n -> lcd_pow m n = (m ^ n) mod 2 ^ 32.
Proof.
  intros Hn. unfold lcd_pow.
  change 1 with (size_t 1) at 1.
  rewrite lcd_pow_loop_value, Z2Nat.id by exact Hn.
  now rewrite Z.mul_1_l.
Qed.

Lemma lcd_pow_10_zero (n : Z) :
  0 <= n < 256 -> (lcd_pow 10 n =? 0) = (32 <=? n).
Proof.
  intros Hn.
  assert (Hall : forallb
            (fun n => Bool.eqb (lcd_pow 10 n =? 0) (32 <=? n))
            (upto 256) = true) by (vm_compute; reflexivity).
  rewrite forallb_forall in Hall.
  apply Bool.eqb_prop, Hall, upto_In. exact Hn.
Qed.

Lemma lcd_pow_10_exact (n : Z) : 0 <= n <= 9 -> lcd_pow 10 n = 10 ^ n.
Proof.
  intros Hn.
  assert (Hall : forallb (fun n => lcd_pow 10 n =? 10 ^ n) (upto 10) = true)
    by (vm_compute; reflexivity).
  rewrite forallb_forall in Hall.
  apply Z.eqb_eq, Hall, upto_In. lia.
Qed.

(** X21: [lcd_pow m n] is [m ^ n] reduced modulo 2^32.  For the base 10
    it is the power itself up to [n = 9], and it is zero exactly from
    [n = 32] on. *)
Theorem lcd_pow_wraps (m n : Z) :
  0 <= n < 256 ->
  lcd_pow m n = (m ^ n) mod 2 ^ 32
  /\ (n <= 9 -> lcd_pow 10 n = 10 ^ n)
  /\ (lcd_pow 10 n = 0 <-> 32 <= n).
Proof.
  intros Hn. split; [apply lcd_pow_mod; lia|]. split.
  - intros H9. apply lcd_pow_10_exact. lia.
  - pose proof (lcd_pow_10_zero n Hn) as Hz.
    destruct (Z.leb_spec 32 n) as [Hge | Hlt].
    + apply Z.eqb_eq in Hz. split; [intros _; exact Hge | intros _; exact Hz].
    + apply Z.eqb_neq in Hz. split; [intros H0; contradiction | lia].
Qed.

Lemma lcd_pow_wraps_witness :
  lcd_pow 10 10 = (10 ^ 10) mod 2 ^ 32
  /\ (10 <= 9 -> lcd_pow 10 10 = 10 ^ 10)
  /\ (lcd_pow 10 10 = 0 <-> 32 <= 10).
Proof. apply (lcd_pow_wraps 10 10). lia. Defined.

Lemma show_num_as_xnum (x y num len size color : Z) (ts : list Z) :
  forall enshow,
    show_num_loop x y num len size color ts enshow
    = show_xnum_loop x y num len size 0 color ts enshow.
Proof.
  induction ts as [|t ts IH]; intros enshow; [reflexivity|].
  cbn [show_num_loop show_xnum_loop]. cbv zeta.
  rewrite !IH. reflexivity.
Qed.

(** The value of the digits up to a place, from the value up to the place
    before. *)
Lemma prefix_next (num k t : Z) :
  0 <= k -> 0 <= t ->
  (num / 10 ^ k) mod 10 ^ (t + 1)
  = (num / 10 ^ k) mod 10 + 10 * ((num / 10 ^ (k + 1)) mod 10 ^ t).
Proof.
  intros Hk Ht.
  rewrite Z.pow_add_r, Z.pow_1_r by lia.
  rewrite (Z.mul_comm (10 ^ t) 10).
  rewrite Z.rem_mul_r by (try lia; apply Z.pow_pos_nonneg; lia).
  rewrite Z.div_div by (try lia; apply Z.pow_pos_nonneg; lia).
  rewrite Z.pow_add_r, Z.pow_1_r by lia. reflexivity.
Qed.

Lemma show_xnum_loop_run (x y num len size mode color : Z) :
  0 <= num -> 0 <= len <= 10 ->
  forall (n a : nat) (enshow : bool),
    Z.of_nat a + Z.of_nat n = len ->
    (Z.of_nat a < len ->
     enshow = negb ((num / 10 ^ (len - Z.of_nat a)) mod 10 ^ Z.of_nat a =? 0)) ->
    show_xnum_loop x y num len size mode color
      (map Z.of_nat (seq a n)) enshow
    = Some (map (fun t =>
                   mkCall (u16 (x + (size / 2) * t)) y
                     (num_char (if Z.testbit mode 7 then 48 else 32)
                        num len t)
                     size (Z.land mode 0x01) color)
              (map Z.of_nat (seq a n))).
Proof.
  intros Hnum Hlen n.
  induction n as [|n IH]; intros a enshow Ha Hen; [reflexivity|].
  cbn [seq map show_xnum_loop]. cbv zeta.
  set (t := Z.of_nat a) in *.
  assert (Ht : 0 <= t < len) by lia.
  rewrite (u8_small (len - t - 1)) by lia.
  rewrite lcd_pow_10_exact by lia.
  assert (Hpow : 0 < 10 ^ (len - t - 1)) by (apply Z.pow_pos_nonneg; lia).
  replace (10 ^ (len - t - 1) =? 0) with false
    by (symmetry; apply Z.eqb_neq; lia).
  assert (Hdigit : 0 <= (num / 10 ^ (len - t - 1)) mod 10 < 10)
    by (apply Z.mod_pos_bound; lia).
  rewrite (u8_small ((num / 10 ^ (len - t - 1)) mod 10)) by lia.
  rewrite (u8_small ((num / 10 ^ (len - t - 1)) mod 10 + 48)) by lia.
  rewrite land_bit7, negb_involutive.
  specialize (Hen ltac:(lia)).
  pose proof (prefix_next num (len - t - 1) t ltac:(lia) ltac:(lia)) as Hnext.
  replace (len - t - 1 + 1) with (len - t) in Hnext by lia.
  assert (Hprefix : 0 <= (num / 10 ^ (len - t)) mod 10 ^ t)
    by (apply Z.mod_pos_bound, Z.pow_pos_nonneg; lia).
  assert (Hchar : forall enshow',
    (Z.of_nat (S a) < len ->
     enshow' = negb ((num / 10 ^ (len - Z.of_nat (S a)))
                       mod 10 ^ Z.of_nat (S a) =? 0)) ->
    forall ch, ch = num_char (if Z.testbit mode 7 then 48 else 32) num len t ->
    option_map
      (cons (mkCall (u16 (x + size / 2 * t)) y ch size (Z.land mode 1) color))
      (show_xnum_loop x y num len size mode color
         (map Z.of_nat (seq (S a) n)) enshow')
    = Some (mkCall (u16 (x + size / 2 * t)) y
              (num_char (if Z.testbit mode 7 then 48 else 32) num len t)
              size (Z.land mode 1) color
            :: map (fun t0 =>
                 mkCall (u16 (x + size / 2 * t0)) y
                   (num_char (if Z.testbit mode 7 then 48 else 32)
                      num len t0)
                   size (Z.land mode 1) color)
                 (map Z.of_nat (seq (S a) n)))).
  { intros enshow' Hen' ch ->. rewrite IH by (try lia; exact Hen').
    reflexivity. }
  assert (Hnew : Z.of_nat (S a) = t + 1) by lia.
  unfold num_char, leading, num_digit in *.
  replace (len - 1 - t) with (len - t - 1) in * by lia.
  destruct (Z.ltb_spec t (len - 1)) as [Hmid | Hlast].
  - destruct enshow; cbn [negb andb].
    + apply Hchar.
      * intros _. rewrite Hnew. replace (len - (t + 1)) with (len - t - 1) by lia.
        symmetry. apply negb_true_iff, Z.eqb_neq.
        symmetry in Hen. apply negb_true_iff, Z.eqb_neq in Hen. lia.
      * replace ((num / 10 ^ (len - t - 1)) mod 10 ^ (t + 1) =? 0) with false;
          [cbn [andb]; lia|].
        symmetry. apply Z.eqb_neq.
        symmetry in Hen. apply negb_true_iff, Z.eqb_neq in Hen. lia.
    + symmetry in Hen. apply negb_false_iff, Z.eqb_eq in Hen.
      destruct (Z.eqb_spec ((num / 10 ^ (len - t - 1)) mod 10) 0)
        as [Hzero | Hnonzero].
      * apply Hchar.
        -- intros _. rewrite Hnew.
           replace (len - (t + 1)) with (len - t - 1) by lia.
           symmetry. apply negb_false_iff, Z.eqb_eq. lia.
        -- replace ((num / 10 ^ (len - t - 1)) mod 10 ^ (t + 1) =? 0)
             with true by (symmetry; apply Z.eqb_eq; lia).
           reflexivity.
      * apply Hchar.
        -- intros _. rewrite Hnew.
           replace (len - (t + 1)) with (len - t - 1) by lia.
           symmetry. apply negb_true_iff, Z.eqb_neq. lia.
        -- replace ((num / 10 ^ (len - t - 1)) mod 10 ^ (t + 1) =? 0)
             with false by (symmetry; apply Z.eqb_neq; lia).
           cbn [andb]. lia.
  - rewrite andb_false_r. cbn [andb].
    apply Hchar; [intros Hlt; lia | cbn [andb]; lia].
Qed.

Lemma spilcd_show_xnum_calls (x y num len size mode color : Z) :
  0 <= num -> 0 <= len <= 10 ->
  spilcd_show_xnum x y num len size mode color
  = Some (map (fun t =>
                 mkCall (u16 (x + (size / 2) * t)) y
                   (num_char (if Z.testbit mode 7 then 48 else 32) num len t)
                   size (Z.land mode 0x01) color)
            (upto len)).
Proof.
  intros Hnum Hlen. unfold spilcd_show_xnum, upto.
  apply show_xnum_loop_run; try assumption; try lia.
  intros _. change (Z.of_nat 0) with 0.
  rewrite Z.pow_0_r, Z.mod_1_r. reflexivity.
Qed.

(** X22: for up to 10 places, [spilcd_show_num] makes one call of
    [spilcd_show_char] for each place, from the left, [size / 2] pixels
    apart on the row [y]: a blank for every zero before the first digit
    that is not zero, the last place excepted, and the decimal digit of
    [num] belonging to the place otherwise; digits of [num] beyond [len]
    places are dropped. *)
Theorem spilcd_show_num_layout (x y num len size color : Z) :
  0 <= num < 2 ^ 32 -> 0 <= len <= 10 ->
  spilcd_show_num x y num len size color
  = Some (map (fun t =>
                 mkCall (u16 (x + (size / 2) * t)) y
                   (num_char 32 num len t) size 0 color)
            (upto len)).
Proof.
  intros Hnum Hlen. unfold spilcd_show_num.
  rewrite show_num_as_xnum.
  exact (spilcd_show_xnum_calls x y num len size 0 color
           (proj1 Hnum) Hlen).
Qed.

Lemma spilcd_show_num_layout_witness :
  spilcd_show_num 10 20 507 5 16 0xF800
  = Some (map (fun t =>
                 mkCall (u16 (10 + (16 / 2) * t)) 20
                   (num_char 32 507 5 t) 16 0 0xF800)
            (upto 5))
  /\ map (num_char 32 507 5) (upto 5) = [32; 32; 53; 48; 55].
Proof.
  split; [|reflexivity].
  apply (spilcd_show_num_layout 10 20 507 5 16 0xF800); simpl; lia.
Defined.

Lemma num_char_zero_pad (num len t : Z) :
  0 <= num -> 0 <= t < len ->
  num_char 48 num len t = 48 + num_digit num len t.
Proof.
  intros Hnum Ht. unfold num_char, leading, num_digit.
  destruct ((t <? len - 1)
            && ((num / 10 ^ (len - 1 - t)) mod 10 ^ (t + 1) =? 0)) eqn:Hlead;
    [|reflexivity].
  apply andb_prop in Hlead. destruct Hlead as [_ Hzero].
  apply Z.eqb_eq in Hzero.
  rewrite prefix_next in Hzero by lia.
  assert (0 <= (num / 10 ^ (len - 1 - t)) mod 10 < 10)
    by (apply Z.mod_pos_bound; lia).
  assert (0 <= (num / 10 ^ (len - 1 - t + 1)) mod 10 ^ t)
    by (apply Z.mod_pos_bound, Z.pow_pos_nonneg; lia).
  lia.
Qed.

Lemma digits_value_snoc (calls : list CharCall) (c : CharCall) :
  digits_value (calls ++ [c]) = digits_value calls * 10 + (chr c - 48).
Proof. unfold digits_value. now rewrite fold_left_app. Qed.

Lemma digits_value_prefix (x y num len size mode color : Z) :
  0 <= num ->
  forall k : nat,
    Z.of_nat k <= len ->
    digits_value
      (map (fun t => mkCall (u16 (x + (size / 2) * t)) y
                       (num_char 48 num len t) size mode color)
         (upto (Z.of_nat k)))
    = (num / 10 ^ (len - Z.of_nat k)) mod 10 ^ Z.of_nat k.
Proof.
  intros Hnum k. induction k as [|k IH]; intros Hk.
  - change (Z.of_nat 0) with 0. now rewrite Z.pow_0_r, Z.mod_1_r.
  - rewrite Nat2Z.inj_succ, <- Z.add_1_r.
    rewrite upto_succ, map_app by lia.
    cbn [map]. rewrite digits_value_snoc, IH by lia.
    cbn [chr]. rewrite num_char_zero_pad by lia.
    unfold num_digit.
    replace (len - (Z.of_nat k + 1)) with (len - 1 - Z.of_nat k) by lia.
    rewrite (prefix_next num (len - 1 - Z.of_nat k) (Z.of_nat k)) by lia.
    replace (len - 1 - Z.of_nat k + 1) with (len - Z.of_nat k) by lia.
    lia.
Qed.

(** X23: for up to 10 places, [spilcd_show_xnum] makes the calls of
    [spilcd_show_num] with the overlay bit 0 of [mode], and with ['0'] in
    place of the blank when the bit 7 of [mode] is set; the [len]
    characters it then draws are decimal digits and spell [num] modulo
    [10 ^ len]. *)
Theorem spilcd_show_xnum_digits (x y num len size mode color : Z) :
  0 <= num < 2 ^ 32 -> 0 <= len <= 10 ->
  exists calls,
    spilcd_show_xnum x y num len size mode color = Some calls
    /\ calls
       = map (fun t =>
                mkCall (u16 (x + (size / 2) * t)) y
                  (num_char (if Z.testbit mode 7 then 48 else 32) num len t)
                  size (Z.land mode 0x01) color)
           (upto len)
    /\ Z.of_nat (length calls) = len
    /\ (Z.testbit mode 7 = true ->
        Forall (fun c => 48 <= chr c <= 57) calls
        /\ digits_value calls = num mod 10 ^ len).
Proof.
  intros Hnum Hlen. eexists. split; [|split; [reflexivity|split]].
  - apply spilcd_show_xnum_calls; lia.
  - rewrite length_map, upto_length. lia.
  - intros ->. split.
    + apply Forall_forall. intros c Hc.
      apply in_map_iff in Hc. destruct Hc as [t [<- Ht]].
      apply upto_In in Ht. cbn [chr].
      rewrite num_char_zero_pad by lia. unfold num_digit.
      assert (0 <= (num / 10 ^ (len - 1 - t)) mod 10 < 10)
        by (apply Z.mod_pos_bound; lia).
      lia.
    + pose proof (digits_value_prefix x y num len size (Z.land mode 1) color
                    (proj1 Hnum) (Z.to_nat len)) as Hv.
      rewrite Z2Nat.id in Hv by lia.
      rewrite Hv by lia.
      now rewrite Z.sub_diag, Z.pow_0_r, Z.div_1_r.
Qed.

Lemma spilcd_show_xnum_digits_witness :
  exists calls,
    spilcd_show_xnum 0 0 1234567 4 16 0x80 0 = Some calls
    /\ calls
       = map (fun t =>
                mkCall (u16 (0 + (16 / 2) * t)) 0
                  (num_char (if Z.testbit 0x80 7 then 48 else 32) 1234567 4 t)
                  16 (Z.land 0x80 0x01) 0)
           (upto 4)
    /\ Z.of_nat (length calls) = 4
    /\ (Z.testbit 0x80 7 = true ->
        Forall (fun c => 48 <= chr c <= 57) calls
        /\ digits_value calls = 1234567 mod 10 ^ 4).
Proof.
  apply (spilcd_show_xnum_digits 0 0 1234567 4 16 0x80 0); simpl; lia.
Defined.

Lemma upto_head (n : Z) :
  0 < n -> exists rest, upto n = 0 :: rest.
Proof.
  intros Hn. unfold upto.
  destruct (Z.to_nat n) as [|k] eqn:Hk; [lia|].
  eexists. reflexivity.
Qed.

(** X24: asked for 33 places or more, [spilcd_show_num] and
    [spilcd_show_xnum] divide by zero at the first place, before any
    character is drawn: [lcd_pow (10, len - 1)] has wrapped to zero. *)
Theorem show_num_divides_by_zero (x y num len size mode color : Z) :
  33 <= len < 256 ->
  spilcd_show_num x y num len size color = None
  /\ spilcd_show_xnum x y num len size mode color = None.
Proof.
  intros Hlen.
  assert (Hzero : (lcd_pow 10 (u8 (len - 0 - 1)) =? 0) = true).
  { rewrite u8_small by lia. rewrite lcd_pow_10_zero by lia.
    apply Z.leb_le. lia. }
  destruct (upto_head len ltac:(lia)) as [rest Hrest].
  unfold spilcd_show_num, spilcd_show_xnum. rewrite Hrest.
  cbn [show_num_loop show_xnum_loop]. cbv zeta.
  rewrite Hzero. split; reflexivity.
Qed.

Lemma show_num_divides_by_zero_witness :
  spilcd_show_num 0 0 7 33 16 0 = None
  /\ spilcd_show_xnum 0 0 7 33 16 0 0 = None.
Proof. apply (show_num_divides_by_zero 0 0 7 33 16 0 0). lia. Defined.

Lemma printable_test (c : Z) :
  printable c -> (c <=? 126) && (32 <=? c) = true.
Proof.
  intros [Hlo Hhi]. apply andb_true_intro.
  split; apply Z.leb_le; assumption.
Qed.

Lemma unprintable_test (c : Z) :
  ~ printable c -> (c <=? 126) && (32 <=? c) = false.
Proof.
  intros Hc. unfold printable in Hc.
  destruct (Z.leb_spec c 126); destruct (Z.leb_spec 32 c);
    try reflexivity; lia.
Qed.

(** The loop along a row that holds the characters [row]. *)
Lemma show_string_row (x0 W H size color y : Z) (tail : list Z) :
  0 < size / 2 -> y < H ->
  forall (row : list Z) (x : Z),
    Forall printable row ->
    0 <= x ->
    x + (size / 2) * Z.of_nat (length row) < 65536 ->
    (row <> [] -> x + (size / 2) * (Z.of_nat (length row) - 1) < W) ->
    show_string_loop x0 W H size color (row ++ tail) x y
    = row_calls x y (size / 2) size color row
      ++ show_string_loop x0 W H size color tail
           (x + (size / 2) * Z.of_nat (length row)) y.
Proof.
  intros Hstep Hy row.
  induction row as [|c row IH]; intros x Hrow Hx Hend Hfit.
  - cbn [length app row_calls]. change (Z.of_nat 0) with 0.
    now rewrite Z.mul_0_r, Z.add_0_r.
  - inversion Hrow as [|c' row' Hc Hrow']; subst.
    specialize (Hfit ltac:(discriminate)).
    cbn [length] in Hend, Hfit. rewrite Nat2Z.inj_succ in Hend, Hfit.
    cbn [app show_string_loop row_calls]. rewrite printable_test by exact Hc.
    replace (W <=? x) with false by (symmetry; apply Z.leb_gt; nia).
    replace (H <=? y) with false by (symmetry; apply Z.leb_gt; lia).
    rewrite u16_small by nia.
    assert (Hfit' : row <> [] ->
              x + size / 2 + size / 2 * (Z.of_nat (length row) - 1) < W)
      by (intros _; nia).
    rewrite (IH (x + size / 2) Hrow' ltac:(lia) ltac:(nia) Hfit').
    cbn [length]. rewrite Nat2Z.inj_succ. do 3 f_equal. lia.
Qed.

Lemma show_string_loop_calls (x0 W H size color : Z) (p : list Z) :
  forall x y,
    let calls := show_string_loop x0 W H size color p x y in
    Forall (fun c => printable (chr c) /\ at_y c < H /\ font_size c = size
                     /\ overlay c = 0 /\ ink c = color) calls
    /\ map chr calls = firstn (length calls) p.
Proof.
  induction p as [|c p IH]; intros x y; cbv zeta.
  - split; [constructor | reflexivity].
  - cbn [show_string_loop].
    destruct ((c <=? 126) && (32 <=? c)) eqn:Hc;
      [|split; [constructor | reflexivity]].
    apply andb_prop in Hc. destruct Hc as [Hhi Hlo].
    apply Z.leb_le in Hhi, Hlo.
    destruct (W <=? x).
    + destruct (Z.leb_spec H (u16 (y + size)));
        [split; [constructor | reflexivity]|].
      destruct (IH (u16 (x0 + size / 2)) (u16 (y + size))) as [Hall Hpre].
      split.
      * constructor; [|exact Hall]. cbn. unfold printable. repeat split; lia.
      * cbn [map length firstn chr]. now rewrite Hpre.
    + destruct (Z.leb_spec H y); [split; [constructor | reflexivity]|].
      destruct (IH (u16 (x + size / 2)) y) as [Hall Hpre].
      split.
      * constructor; [|exact Hall]. cbn. unfold printable. repeat split; lia.
      * cbn [map length firstn chr]. now rewrite Hpre.
Qed.

Lemma show_string_loop_stops (x0 W H size color : Z) (pre : list Z)
    (c : Z) (post : list Z) :
  ~ printable c ->
  forall x y,
    (length (show_string_loop x0 W H size color (pre ++ c :: post) x y)
     <= length pre)%nat.
Proof.
  intros Hc. induction pre as [|a pre IH]; intros x y.
  - cbn [app show_string_loop]. rewrite unprintable_test by exact Hc.
    apply Nat.le_refl.
  - cbn [app show_string_loop].
    destruct ((a <=? 126) && (32 <=? a)); [|cbn; lia].
    destruct (W <=? x).
    + destruct (H <=? u16 (y + size)); [cbn; lia|].
      cbn [length]. apply le_n_S, IH.
    + destruct (H <=? y); [cbn; lia|].
      cbn [length]. apply le_n_S, IH.
Qed.

(** X25: whatever its arguments, [spilcd_show_string] draws an initial
    part of the text, in order and with the size and colour given,
    without overlay; every character it draws is one of [' '] ... ['~']
    and starts above the lower edge [height + y] of the region; nothing
    is drawn from the first character outside that range on. *)
Theorem spilcd_show_string_calls (x y width height size color : Z)
    (p : list Z) :
  let calls := spilcd_show_string x y width height size p color in
  Forall (fun c => printable (chr c) /\ at_y c < u16 (height + y)
                   /\ font_size c = size /\ overlay c = 0 /\ ink c = color)
    calls
  /\ map chr calls = firstn (length calls) p
  /\ (forall pre c post,
        p = pre ++ c :: post -> ~ printable c ->
        (length calls <= length pre)%nat).
Proof.
  cbv zeta. unfold spilcd_show_string. cbv zeta.
  destruct (show_string_loop_calls (u8 x) (u16 (width + x))
              (u16 (height + y)) size color p x y) as [Hall Hpre].
  split; [exact Hall|]. split; [exact Hpre|].
  intros pre c post -> Hc. now apply show_string_loop_stops.
Qed.

Lemma spilcd_show_string_calls_witness :
  Nat.le
    (length (spilcd_show_string 5 170 200 16 16 ([72; 105] ++ 10 :: [33]) 0))
    (length [72; 105]).
Proof.
  apply (proj2 (proj2 (spilcd_show_string_calls 5 170 200 16 16 0
                         ([72; 105] ++ 10 :: [33]))) [72; 105] 10 [33]);
    [reflexivity|].
  unfold printable. lia.
Defined.

(** X26: a text of characters [' '] ... ['~'] that fits in the width of
    its region, on a row above the lower edge, is drawn whole: its
    characters side by side on the row [y], [size / 2] pixels apart, the
    first one at [x]. *)
Theorem spilcd_show_string_row (x y width height size color : Z)
    (p : list Z) :
  Forall printable p ->
  0 <= x -> 0 < size / 2 ->
  x + (size / 2) * Z.of_nat (length p) <= u16 (width + x) ->
  y < u16 (height + y) ->
  spilcd_show_string x y width height size p color
  = row_calls x y (size / 2) size color p.
Proof.
  intros Hp Hx Hstep Hfit Hy. unfold spilcd_show_string. cbv zeta.
  assert (HW : u16 (width + x) < 65536)
    by (unfold u16; apply Z.mod_pos_bound; reflexivity).
  rewrite <- (app_nil_r p) at 1.
  assert (Hlast : p <> [] ->
            x + size / 2 * (Z.of_nat (length p) - 1) < u16 (width + x))
    by (intros _; nia).
  rewrite (show_string_row (u8 x) (u16 (width + x)) (u16 (height + y))
             size color y [] Hstep Hy p x Hp Hx ltac:(lia) Hlast).
  cbn [show_string_loop]. apply app_nil_r.
Qed.

Lemma spilcd_show_string_row_witness :
  spilcd_show_string 0 70 240 16 16 [65; 84; 79; 77] 0xF800
  = row_calls 0 70 (16 / 2) 16 0xF800 [65; 84; 79; 77].
Proof.
  apply (spilcd_show_string_row 0 70 240 16 16 0xF800 [65; 84; 79; 77]).
  - repeat constructor; unfold printable; lia.
  - lia.
  - reflexivity.
  - vm_compute. discriminate.
  - reflexivity.
Defined.

(** X27: when a row is full, the next character goes to the row
    [y + size], but at the column [x] reduced to 8 bits, not at [x]: a
    text started at 256 or beyond continues to the left of its first
    row. *)
Theorem spilcd_show_string_wraps (x y width height size color : Z)
    (row : list Z) (c : Z) (rest : list Z) :
  Forall printable row -> printable c ->
  0 <= x -> 0 < size / 2 ->
  (row <> [] ->
   x + (size / 2) * (Z.of_nat (length row) - 1) < u16 (width + x)) ->
  u16 (width + x) <= x + (size / 2) * Z.of_nat (length row) < 65536 ->
  y < u16 (height + y) -> u16 (y + size) < u16 (height + y) ->
  firstn (length row + 1)
    (spilcd_show_string x y width height size (row ++ c :: rest) color)
  = row_calls x y (size / 2) size color row
    ++ [mkCall (x mod 256) (u16 (y + size)) c size 0 color].
Proof.
  intros Hrow Hc Hx Hstep Hfit Hfull Hy Hy'.
  unfold spilcd_show_string. cbv zeta.
  rewrite (show_string_row (u8 x) (u16 (width + x)) (u16 (height + y))
             size color y (c :: rest) Hstep Hy row x Hrow Hx
             ltac:(lia) Hfit).
  cbn [show_string_loop]. rewrite printable_test by exact Hc.
  replace (u16 (width + x) <=? x + size / 2 * Z.of_nat (length row))
    with true by (symmetry; apply Z.leb_le; lia).
  replace (u16 (height + y) <=? u16 (y + size)) with false
    by (symmetry; apply Z.leb_gt; lia).
  assert (Hlen : length (row_calls x y (size / 2) size color row)
                 = length row).
  { clear. revert x. induction row as [|a row IH]; intros x;
      [reflexivity|]. cbn [row_calls length]. now rewrite IH. }
  rewrite firstn_app, Hlen.
  replace (length row + 1 - length row)%nat with 1%nat by lia.
  rewrite firstn_all2 by lia.
  reflexivity.
Qed.

Lemma spilcd_show_string_wraps_witness :
  firstn (length [65; 66] + 1)
    (spilcd_show_string 300 0 16 64 16 ([65; 66] ++ 67 :: [68]) 0)
  = row_calls 300 0 (16 / 2) 16 0 [65; 66]
    ++ [mkCall (300 mod 256) (u16 (0 + 16)) 67 16 0 0].
Proof.
  apply (spilcd_show_string_wraps 300 0 16 64 16 0 [65; 66] 67 [68]).
  - repeat constructor; unfold printable; lia.
  - unfold printable. lia.
  - lia.
  - reflexivity.
  - intros _. reflexivity.
  - vm_compute. split; [discriminate | reflexivity].
  - reflexivity.
  - reflexivity.
Defined.
